(** * Backend v2 of the NHL LED scoreboard: cache, discovery, normalizer, poller

    A shallow embedding of the parts of [src/backend2] that the specification
    makes statements about and of the code around them (source selection,
    validation and the endpoint registry of discovery, cache clean-up),
    followed by the statements themselves and by further properties of the
    code.

    Conventions of the embedding.
    - A Python value that came out of [json.load] is a [json] term; a Python
      [dict] is an association list in insertion order, [None] is [JNull].
      Values are immutable: a dict that the normalizer copies by reference
      into its result and then writes into is a fresh value here.  The rule
      tables of [_initialize_parsing_rules] never do that (no target path
      extends another one's).
    - [time.time()] readings and the quotient computed by
      [compare_fingerprints] are exact rationals ([Q]).
    - A Python function that can raise returns [Res A]; the exception class is
      kept because [except] clauses select on it.
    - The recursion of [_apply_rules] is bounded by the interpreter's
      recursion limit; the embedding takes the remaining depth as a [nat] and
      raises [RecursionError] when it is used up, as CPython does.
    - The file system under the cache directory is a map from path to
      content that never fails, and the JSON text of a payload file is the
      payload itself.
    - The network and the clock are inputs: a poll cycle is given, for each
      endpoint position, the clock reading and what the fetch comes to.
    - The drift adaptation writes into the rule objects of
      [self.parsing_rules]: [parse_data] takes the rule table and returns it
      as the call leaves it.
    - The order in which a set is iterated is an input ([set_order]): any
      enumeration of the members without repeats.
    - A string is a sequence of code points below 256; [lower] folds the
      ASCII letters only, so it is [str.lower] on ASCII text. *)

From stdpp Require Import base option list gmap sets strings.
From Stdlib Require Import ZArith QArith Ascii String List Lia Bool DecimalString.
From Stdlib Require Import Sorted Permutation.
Import ListNotations.

Set Warnings "-clear-no-such-hyp".

Local Open Scope Z_scope.
Local Open Scope string_scope.
Local Open Scope list_scope.

(* ===================================================================== *)
(** ** Python values and exceptions *)
(* ===================================================================== *)

#[warnings="-register-all"]
Inductive json : Type :=
| JNull
| JBool (b : bool)
| JInt (n : Z)
| JFloat (q : Q)
| JStr (s : string)
| JList (items : list json)
| JDict (fields : list (string * json)).

Inductive PyExc : Type :=
| TypeError | ValueError | KeyError | AttributeError | IndexError
| RecursionError.

Inductive Res (A : Type) : Type :=
| Ok (a : A)
| Raise (e : PyExc).
Arguments Ok {A} a.
Arguments Raise {A} e.

#[global] Instance Res_ret : MRet Res := fun A a => Ok a.

#[global] Instance Res_bind : MBind Res := fun A B k m =>
  match m with
  | Ok a => k a
  | Raise e => Raise e
  end.

(** [bool(v)] *)
Definition truthy (v : json) : bool :=
  match v with
  | JNull => false
  | JBool b => b
  | JInt n => negb (n =? 0)%Z
  | JFloat q => negb (Qeq_bool q 0)
  | JStr s => negb (String.eqb s "")
  | JList l => match l with [] => false | _ => true end
  | JDict d => match d with [] => false | _ => true end
  end.

(** [type(v).__name__] *)
Definition type_name (v : json) : string :=
  match v with
  | JNull => "NoneType"
  | JBool _ => "bool"
  | JInt _ => "int"
  | JFloat _ => "float"
  | JStr _ => "str"
  | JList _ => "list"
  | JDict _ => "dict"
  end.

Definition is_list (v : json) : bool :=
  match v with JList _ => true | _ => false end.

Definition is_dict (v : json) : bool :=
  match v with JDict _ => true | _ => false end.

Definition is_none (v : json) : bool :=
  match v with JNull => true | _ => false end.

(** [d[k]] when present, for a dict in insertion order *)
Fixpoint dict_lookup (k : string) (d : list (string * json)) : option json :=
  match d with
  | [] => None
  | (k', v) :: d' => if String.eqb k k' then Some v else dict_lookup k d'
  end.

(** [d[k] = v]: an existing key keeps its position, a new key goes last *)
Fixpoint dict_set (k : string) (v : json) (d : list (string * json))
  : list (string * json) :=
  match d with
  | [] => [(k, v)]
  | (k', v') :: d' =>
      if String.eqb k k' then (k', v) :: d' else (k', v') :: dict_set k v d'
  end.

(** [Optional[str]] as the JSON value that [json.dump] writes for it *)
Definition opt_str (o : option string) : json :=
  match o with
  | Some s => JStr s
  | None => JNull
  end.

(** [x < y] on time stamps *)
Definition Qltb (x y : Q) : bool := negb (Qle_bool y x).

(* ===================================================================== *)
(** ** Python string operations used by the parser *)
(* ===================================================================== *)

Module PyStr.

(** [needle in hay] *)
Fixpoint contains (needle hay : string) : bool :=
  String.prefix needle hay
  || match hay with
     | EmptyString => false
     | String _ hay' => contains needle hay'
     end.

(** [s.endswith(suffix)] *)
Definition endswith (s suffix : string) : bool :=
  (String.length suffix <=? String.length s)%nat
  && String.eqb
       (String.substring (String.length s - String.length suffix)
          (String.length suffix) s)
       suffix.

Definition lower_ascii (c : ascii) : ascii :=
  let n := nat_of_ascii c in
  if ((65 <=? n) && (n <=? 90))%nat then ascii_of_nat (n + 32) else c.

(** [s.lower()] *)
Fixpoint lower (s : string) : string :=
  match s with
  | EmptyString => EmptyString
  | String c s' => String (lower_ascii c) (lower s')
  end.

(** [s.split(sep)] for a one-character separator *)
Fixpoint split (sep : ascii) (s : string) : list string :=
  match s with
  | EmptyString => [EmptyString]
  | String c s' =>
      if Ascii.eqb c sep then EmptyString :: split sep s'
      else match split sep s' with
           | h :: t => String c h :: t
           | [] => [String c EmptyString]
           end
  end.

(** [parts[-1]] of a list that [split] returned *)
Definition last_part (parts : list string) : string :=
  List.last parts EmptyString.

(** [parts[0]] of a list that [split] returned *)
Definition first_part (parts : list string) : string :=
  List.hd EmptyString parts.

(** [parts[1]], which raises [IndexError] when there is none *)
Definition second_part (parts : list string) : Res string :=
  match parts with
  | _ :: p :: _ => Ok p
  | _ => Raise IndexError
  end.

(** [s.replace("", new)] *)
Fixpoint intersperse (new s : string) : string :=
  match s with
  | EmptyString => new
  | String c s' => new ++ String c (intersperse new s')
  end.

(** [s.replace(old, new)] for a non-empty [old]: [skip] counts the
    characters of a match that are still to be dropped *)
Fixpoint replace_from (old new : string) (skip : nat) (s : string) : string :=
  match s with
  | EmptyString => EmptyString
  | String c s' =>
      match skip with
      | S k => replace_from old new k s'
      | O =>
          if String.prefix old s
          then new ++ replace_from old new (String.length old - 1) s'
          else String c (replace_from old new 0 s')
      end
  end.

(** [s.replace(old, new)] *)
Definition replace (old new s : string) : string :=
  match old with
  | EmptyString => intersperse new s
  | _ => replace_from old new 0 s
  end.

(** The white space that [int()] skips around the digits: tab, line feed,
    vertical tab, form feed, carriage return and space, and of the code
    points from 128 on the two spaces U+0085 and U+00A0.  The separators 28
    to 31 are white space for [str.strip], not for [int()]. *)
Definition is_space (c : ascii) : bool :=
  let n := nat_of_ascii c in
  (((9 <=? n) && (n <=? 13)) || (n =? 32) || (n =? 133) || (n =? 160))%nat.

Definition is_digit (c : ascii) : bool :=
  let n := nat_of_ascii c in ((48 <=? n) && (n <=? 57))%nat.

Fixpoint lstrip (s : string) : string :=
  match s with
  | String c s' => if is_space c then lstrip s' else s
  | EmptyString => EmptyString
  end.

Fixpoint rstrip (s : string) : string :=
  match s with
  | EmptyString => EmptyString
  | String c s' =>
      match rstrip s' with
      | EmptyString => if is_space c then EmptyString else String c EmptyString
      | r => String c r
      end
  end.

(** the digits of a decimal literal, single underscores allowed between
    digits *)
Fixpoint digits (acc : Z) (after_digit : bool) (s : string) : option Z :=
  match s with
  | EmptyString => if after_digit then Some acc else None
  | String c s' =>
      if is_digit c
      then digits (10 * acc + Z.of_nat (nat_of_ascii c - 48)) true s'
      else if Ascii.eqb c "_"
           then if after_digit then digits acc false s' else None
           else None
  end.

(** [int(s)] for a string: surrounding white space, an optional sign,
    decimal digits; [ValueError] otherwise *)
Definition int_of_string (s : string) : Res Z :=
  let body := rstrip (lstrip s) in
  let '(neg, ds) :=
    match body with
    | String "-" r => (true, r)
    | String "+" r => (false, r)
    | _ => (false, body)
    end in
  match digits 0 false ds with
  | Some n => Ok (if neg : bool then - n else n)
  | None => Raise ValueError
  end.

End PyStr.

(** [v[k]] for a string key: only a dict can be subscripted by a string *)
Definition subscript (v : json) (k : string) : Res json :=
  match v with
  | JDict d =>
      match dict_lookup k d with
      | Some x => Ok x
      | None => Raise KeyError
      end
  | _ => Raise TypeError
  end.

(** [v[k] = x] for a string key: only a dict takes it *)
Definition py_setitem (v : json) (k : string) (x : json) : Res json :=
  match v with
  | JDict d => Ok (JDict (dict_set k x d))
  | _ => Raise TypeError
  end.

(** [v.get(k, default)]: only a dict has the method *)
Definition py_get (v : json) (k : string) (default : json) : Res json :=
  match v with
  | JDict d => Ok (from_option id default (dict_lookup k d))
  | _ => Raise AttributeError
  end.

(** [f"{path}.{key}" if path else key] *)
Definition join_path (path key : string) : string :=
  match path with
  | EmptyString => key
  | _ => path ++ "." ++ key
  end.

(** What the code takes from the interpreter and its libraries: the digests
    of [hashlib] and the JSON text they are taken of, [str()], the
    [datetime] conversions, whose results the code only stores or passes
    on, and the order in which a set is iterated. *)
Class Runtime := {
  md5_hexdigest : string -> string;
  sha256_hexdigest : string -> string;
  json_dumps_sorted : json -> string;
  (** [sha256] of the dumped [{'paths': sorted(..), 'types': {..}}] *)
  structure_digest : list string -> gmap string string -> string;
  (** [str(v)] *)
  py_str : json -> string;
  (** [datetime.fromisoformat(s).strftime('%Y-%m-%dT%H:%M:%SZ')], [None]
      when it raises *)
  fromisoformat_strftime : string -> option string;
  (** [datetime.fromtimestamp(now, timezone.utc).isoformat()] *)
  utc_isoformat : Q -> string;
  (** [list(s)] and [for key in s] for a set of strings: every member once,
      in the order of the interpreter's hash table, which the contents of
      the set do not fix (it varies with the hash seed of the process) *)
  set_order : gset string -> list string;
  set_order_perm : forall s, set_order s ≡ₚ elements s
}.

(* ===================================================================== *)
(** ** cache.py *)
(* ===================================================================== *)

Module CacheEntry.
(** The fields are whatever [json.load] found in the payload file. *)
Record t := {
  key : string;
  data : json;
  timestamp : json;
  ttl_seconds : json;
  etag : json;
  last_modified : json;
  source_url : json;
  content_hash : json
}.
End CacheEntry.

Module SchemaFingerprint.
(** [sample_values] is left out: it is written and never read. *)
Record t := {
  source_name : string;
  domain : string;
  key_paths : list string;
  type_signatures : gmap string string;
  timestamp : Q;
  version_hash : string
}.
End SchemaFingerprint.

Module JSONCache.

Record IndexInfo := {
  expires_at : Q;
  content_hash : string;
  cached_at : Q
}.

(** The in-memory index and the payload files of [cache_dir], by path. *)
Record t := {
  cache_dir : string;
  index : gmap string IndexInfo;
  files : gmap string json
}.

Section WithRuntime.
Context `{Runtime}.

Definition _get_cache_path (c : t) (key : string) : string :=
  cache_dir c ++ "/" ++ md5_hexdigest key ++ ".json".

Definition delete (c : t) (key : string) : t * bool :=
  ({| cache_dir := cache_dir c;
      index := base.delete key (index c);
      files := base.delete (_get_cache_path c key) (files c) |}, true).

(** The [CacheEntry(...)] call of [get], on the loaded file content *)
Definition load_entry (key : string) (content : json) : Res CacheEntry.t :=
  d ← subscript content "data";
  ts ← subscript content "timestamp";
  ttl ← subscript content "ttl_seconds";
  et ← py_get content "etag" JNull;
  lm ← py_get content "last_modified" JNull;
  su ← py_get content "source_url" JNull;
  ch ← py_get content "content_hash" JNull;
  mret {| CacheEntry.key := key; CacheEntry.data := d;
          CacheEntry.timestamp := ts; CacheEntry.ttl_seconds := ttl;
          CacheEntry.etag := et; CacheEntry.last_modified := lm;
          CacheEntry.source_url := su; CacheEntry.content_hash := ch |}.

(** [get(key)] at wall-clock time [now] *)
Definition get (c : t) (now : Q) (key : string) : t * option CacheEntry.t :=
  match index c !! key with
  | None => (c, None)
  | Some entry_info =>
      match files c !! _get_cache_path c key with
      | None =>
          ({| cache_dir := cache_dir c;
              index := base.delete key (index c);
              files := files c |}, None)
      | Some content =>
          if Qltb (expires_at entry_info) now
          then (fst (delete c key), None)
          else match load_entry key content with
               | Ok e => (c, Some e)
               | Raise _ => (fst (delete c key), None)
               end
      end
  end.

(** [set(key, data, ttl_seconds, etag, last_modified, source_url)] at
    wall-clock time [now] *)
Definition set (c : t) (now : Q) (key : string) (data : json)
    (ttl_seconds : Z) (etag last_modified source_url : option string)
  : t * bool :=
  let cache_path := _get_cache_path c key in
  let timestamp := now in
  let content_hash := sha256_hexdigest (json_dumps_sorted data) in
  let cache_data :=
    JDict [("data", data);
           ("timestamp", JFloat timestamp);
           ("ttl_seconds", JInt ttl_seconds);
           ("etag", opt_str etag);
           ("last_modified", opt_str last_modified);
           ("source_url", opt_str source_url);
           ("content_hash", JStr content_hash)] in
  ({| cache_dir := cache_dir c;
      index := <[key := {| expires_at := (timestamp + inject_Z ttl_seconds)%Q;
                           content_hash := content_hash;
                           cached_at := timestamp |}]> (index c);
      files := <[cache_path := cache_data]> (files c) |}, true).

(** [cleanup_expired()] at wall-clock time [now]: the expired keys are
    collected first and deleted afterwards.  The deletions commute, so the
    order in which the index is walked does not show in the result. *)
Definition cleanup_expired (c : t) (now : Q) : t :=
  let expired_keys :=
    map fst (filter (fun entry => Qltb (expires_at (snd entry)) now)
               (map_to_list (index c))) in
  fold_left (fun c key => fst (delete c key)) expired_keys c.

End WithRuntime.
End JSONCache.

Module Changes.
(** The dict that [compare_fingerprints] returns.  [type_changes] is keyed
    by path; its entries come from iterating a set, so the paths of the
    association list are distinct. *)
Record t := {
  version_changed : bool;
  new_keys : list string;
  removed_keys : list string;
  type_changes : list (string * (option string * option string));
  structural_change_score : Q
}.
End Changes.

Module SchemaCache.

(** The files of [cache_dir/schemas], by file name. *)
Record t := {
  files : gmap string SchemaFingerprint.t
}.

Definition _get_schema_path (source_name domain : string) : string :=
  source_name ++ "_" ++ domain ++ ".json".

Definition get_fingerprint (c : t) (source_name domain : string)
  : option SchemaFingerprint.t :=
  files c !! _get_schema_path source_name domain.

Definition set_fingerprint (c : t) (fingerprint : SchemaFingerprint.t)
  : t * bool :=
  ({| files := <[_get_schema_path (SchemaFingerprint.source_name fingerprint)
                   (SchemaFingerprint.domain fingerprint) := fingerprint]>
                 (files c) |}, true).

(** The common keys whose recorded type differs, in iteration order *)
Definition changed_types (old new : SchemaFingerprint.t) (common : list string)
  : list (string * (option string * option string)) :=
  omap (fun key =>
          let old_type := SchemaFingerprint.type_signatures old !! key in
          let new_type := SchemaFingerprint.type_signatures new !! key in
          if decide (old_type = new_type) then None
          else Some (key, (old_type, new_type)))
       common.

Definition compare_fingerprints `{Runtime} (old new : SchemaFingerprint.t)
  : Changes.t :=
  let old_keys : gset string := list_to_set (SchemaFingerprint.key_paths old) in
  let new_keys : gset string := list_to_set (SchemaFingerprint.key_paths new) in
  let added := set_order (new_keys ∖ old_keys) in
  let removed := set_order (old_keys ∖ new_keys) in
  let type_changes := changed_types old new (set_order (old_keys ∩ new_keys)) in
  let total_keys := size (old_keys ∪ new_keys) in
  let changed_keys :=
    (length added + length removed + length type_changes)%nat in
  {| Changes.version_changed :=
       negb (String.eqb (SchemaFingerprint.version_hash old)
               (SchemaFingerprint.version_hash new));
     Changes.new_keys := added;
     Changes.removed_keys := removed;
     Changes.type_changes := type_changes;
     Changes.structural_change_score :=
       if (0 <? total_keys)%nat
       then (inject_Z (Z.of_nat changed_keys) / inject_Z (Z.of_nat total_keys))%Q
       else 0%Q |}.

End SchemaCache.

(** [extract_paths] of [create_schema_fingerprint]: the two accumulators are
    the lists the closure appends to *)
Fixpoint extract_paths (obj : json) (path : string)
    (acc : list string * gmap string string) : list string * gmap string string :=
  match obj with
  | JDict fields =>
      (fix items (fs : list (string * json)) acc :=
         match fs with
         | [] => acc
         | (key, value) :: fs' =>
             let current_path := join_path path key in
             items fs'
               (extract_paths value current_path
                  (fst acc ++ [current_path],
                   <[current_path := type_name value]> (snd acc)))
         end) fields acc
  | JList (first :: _) => extract_paths first (path ++ "[0]") acc
  | _ => acc
  end.

Definition create_schema_fingerprint `{Runtime} (now : Q) (data : json)
    (source_name domain : string) : SchemaFingerprint.t :=
  let '(key_paths, type_signatures) := extract_paths data "" ([], ∅) in
  {| SchemaFingerprint.source_name := source_name;
     SchemaFingerprint.domain := domain;
     SchemaFingerprint.key_paths := key_paths;
     SchemaFingerprint.type_signatures := type_signatures;
     SchemaFingerprint.timestamp := now;
     SchemaFingerprint.version_hash := structure_digest key_paths type_signatures |}.

Module CacheManager.

Record t := {
  max_age_seconds : Z;
  json_cache : JSONCache.t;
  schema_cache : SchemaCache.t
}.

Section WithRuntime.
Context `{Runtime}.

Definition get (m : t) (now : Q) (key : string) : t * option CacheEntry.t :=
  let '(jc, r) := JSONCache.get (json_cache m) now key in
  ({| max_age_seconds := max_age_seconds m; json_cache := jc;
      schema_cache := schema_cache m |}, r).

(** [ttl_seconds or self.config.max_age_seconds] *)
Definition set (m : t) (now : Q) (key : string) (data : json)
    (ttl_seconds : option Z) (etag last_modified source_url : option string)
  : t * bool :=
  let ttl :=
    match ttl_seconds with
    | Some n => if (n =? 0)%Z then max_age_seconds m else n
    | None => max_age_seconds m
    end in
  let '(jc, r) :=
    JSONCache.set (json_cache m) now key data ttl etag last_modified source_url in
  ({| max_age_seconds := max_age_seconds m; json_cache := jc;
      schema_cache := schema_cache m |}, r).

Definition get_schema_fingerprint (m : t) (source_name domain : string)
  : option SchemaFingerprint.t :=
  SchemaCache.get_fingerprint (schema_cache m) source_name domain.

Definition update_schema_fingerprint (m : t) (now : Q) (data : json)
    (source_name domain : string)
  : t * (SchemaFingerprint.t * option Changes.t) :=
  let new_fingerprint := create_schema_fingerprint now data source_name domain in
  let old_fingerprint := get_schema_fingerprint m source_name domain in
  let changes :=
    match old_fingerprint with
    | Some old => Some (SchemaCache.compare_fingerprints old new_fingerprint)
    | None => None
    end in
  ({| max_age_seconds := max_age_seconds m; json_cache := json_cache m;
      schema_cache := fst (SchemaCache.set_fingerprint (schema_cache m) new_fingerprint) |},
   (new_fingerprint, changes)).

End WithRuntime.
End CacheManager.

(* ===================================================================== *)
(** ** discovery.py *)
(* ===================================================================== *)

Definition is_container (v : json) : bool := is_dict v || is_list v.

(** [extract_keys] of [_extract_expected_keys]; [keys] is the list the
    closure appends to *)
Fixpoint extract_keys (obj : json) (path : string) (keys : list string)
  : list string :=
  match obj with
  | JDict fields =>
      (fix items (fs : list (string * json)) keys :=
         match fs with
         | [] => keys
         | (key, value) :: fs' =>
             let current_path := join_path path key in
             let keys := keys ++ [current_path] in
             items fs'
               (if is_container value && (length keys <? 50)%nat
                then extract_keys value current_path keys
                else keys)
         end) fields keys
  | JList (first :: _) =>
      if (length keys <? 50)%nat
      then extract_keys first (path ++ "[0]") keys
      else keys
  | _ => keys
  end.

Definition _extract_expected_keys (data : json) (domain : string) : list string :=
  take 50 (extract_keys data "" []).

(* ===================================================================== *)
(** ** parser.py *)
(* ===================================================================== *)

Module ParsingRule.
Record t := {
  source_path : string;
  target_path : string;
  transform : option (json -> Res json);
  required : bool;
  default_value : json
}.
End ParsingRule.

(** [ParsingRule(source_path, target_path, transform=None, required=True,
    default_value=None)] *)
Definition rule (source_path target_path : string)
    (transform : option (json -> Res json)) (required : bool)
    (default_value : json) : ParsingRule.t :=
  {| ParsingRule.source_path := source_path;
     ParsingRule.target_path := target_path;
     ParsingRule.transform := transform;
     ParsingRule.required := required;
     ParsingRule.default_value := default_value |}.

(** [for x in v] *)
Definition py_iter (v : json) : Res (list json) :=
  match v with
  | JList l => Ok l
  | JDict d => Ok (map (fun kv => JStr (fst kv)) d)
  | JStr s => Ok (map (fun c => JStr (String c EmptyString)) (list_ascii_of_string s))
  | _ => Raise TypeError
  end.

(** [len(v)] *)
Definition py_len (v : json) : Res Z :=
  match v with
  | JList l => Ok (Z.of_nat (length l))
  | JDict d => Ok (Z.of_nat (length d))
  | JStr s => Ok (Z.of_nat (String.length s))
  | _ => Raise TypeError
  end.

(** [str(n)] for a non-negative or negative integer *)
Definition str_of_Z (n : Z) : string :=
  NilZero.string_of_int (Z.to_int n).

(** [int(v)] *)
Definition py_int (v : json) : Res json :=
  match v with
  | JInt n => Ok (JInt n)
  | JBool b => Ok (JInt (if b then 1 else 0))
  | JFloat q => Ok (JInt (Z.quot (Qnum q) (Z.pos (Qden q))))
  | JStr s => n ← PyStr.int_of_string s; mret (JInt n)
  | _ => Raise TypeError
  end.

Section Transforms.
Context `{Runtime}.

Definition _transform_espn_events (events : json) : Res json := Ok events.

Definition _transform_espn_date (date_str : json) : Res json := Ok date_str.

Definition _transform_espn_standings (entries : json) : Res json := Ok entries.

(** a bare [except] returns the argument *)
Definition _extract_date_from_iso (iso_string : json) : Res json :=
  match iso_string with
  | JStr s => Ok (JStr (PyStr.first_part (PyStr.split "T" s)))
  | _ => Ok iso_string
  end.

Definition _iso_to_utc (iso_string : json) : Res json :=
  match iso_string with
  | JStr s =>
      match fromisoformat_strftime (PyStr.replace "Z" "+00:00" s) with
      | Some r => Ok (JStr r)
      | None => Ok iso_string
      end
  | _ => Ok iso_string
  end.

Definition status_mapping : list (string * json) :=
  [("STATUS_SCHEDULED", JStr "FUT");
   ("STATUS_IN_PROGRESS", JStr "LIVE");
   ("STATUS_FINAL", JStr "FINAL");
   ("STATUS_POSTPONED", JStr "PPD");
   ("STATUS_CANCELED", JStr "CAN")].

(** [status_mapping.get(espn_status, espn_status)]; a list or a dict is not
    hashable *)
Definition _map_espn_status (espn_status : json) : Res json :=
  match espn_status with
  | JStr s => Ok (from_option id espn_status (dict_lookup s status_mapping))
  | JList _ | JDict _ => Raise TypeError
  | _ => Ok espn_status
  end.

(** the loop body of [_transform_espn_tournaments] for entry [i] *)
Definition tournament_round (i : nat) (tournament : json) : Res (string * json) :=
  let n := str_of_Z (Z.of_nat i + 1) in
  series ← py_get tournament "events" (JList []);
  name ← py_get tournament "name" (JStr ("Round " ++ n));
  mret (n, JDict [("series", series); ("name", name)]).

Definition _transform_espn_tournaments (tournaments : json) : Res json :=
  if negb (truthy tournaments) then Ok (JDict [])
  else
    items ← py_iter tournaments;
    rounds ← mapM (fun it => tournament_round (fst it) (snd it))
               (imap (fun i t => (i, t)) items);
    mret (JDict (fold_left (fun d kv => dict_set (fst kv) (snd kv) d) rounds [])).

(** the loop body of [_transform_espn_competitors] *)
Definition competitor_team (competitor : json) : Res json :=
  t1 ← py_get competitor "team" (JDict []);
  team_id ← py_get t1 "id" JNull;
  t2 ← py_get competitor "team" (JDict []);
  team_name ← py_get t2 "displayName" JNull;
  t3 ← py_get competitor "team" (JDict []);
  tri ← py_get t3 "abbreviation" JNull;
  wins ← py_get competitor "wins" (JInt 0);
  losses ← py_get competitor "losses" (JInt 0);
  mret (JDict [("team", JDict [("id", team_id); ("name", team_name);
                               ("triCode", tri)]);
               ("seriesRecord", JDict [("wins", wins); ("losses", losses)])]).

Definition _transform_espn_competitors (competitors : json) : Res json :=
  if negb (truthy competitors) then Ok (JList [])
  else
    n ← py_len competitors;
    if (n <? 2)%Z then Ok (JList [])
    else
      items ← py_iter competitors;
      teams ← mapM competitor_team items;
      mret (JList teams).

(** [bool] is a subclass of [int]: [True + 1] is [2] *)
Definition _transform_espn_season_id (year : json) : Res json :=
  match year with
  | JInt n => Ok (JStr (str_of_Z n ++ str_of_Z (n + 1)))
  | JBool b =>
      Ok (JStr (py_str year ++ str_of_Z ((if b then 1 else 0) + 1)))
  | _ => Ok (JStr (py_str year))
  end.

End Transforms.

Section RuleTables.
Context `{Runtime}.

Definition _get_nhl_official_game_rules : list ParsingRule.t :=
  [ rule "games" "games" None true JNull;
    rule "date" "gameDate" None false JNull;
    rule "id" "id" None true JNull;
    rule "gameDate" "gameDate" None true JNull;
    rule "startTimeUTC" "startTimeUTC" None true JNull;
    rule "gameState" "gameState" None true JNull;
    rule "gameType" "gameType" None false (JInt 2);
    rule "awayTeam.id" "awayTeam.id" None true JNull;
    rule "awayTeam.name.default" "awayTeam.name.default" None true JNull;
    rule "awayTeam.abbrev" "awayTeam.abbrev" None true JNull;
    rule "awayTeam.score" "awayTeam.score" None false (JInt 0);
    rule "awayTeam.sog" "awayTeam.sog" None false (JInt 0);
    rule "homeTeam.id" "homeTeam.id" None true JNull;
    rule "homeTeam.name.default" "homeTeam.name.default" None true JNull;
    rule "homeTeam.abbrev" "homeTeam.abbrev" None true JNull;
    rule "homeTeam.score" "homeTeam.score" None false (JInt 0);
    rule "homeTeam.sog" "homeTeam.sog" None false (JInt 0);
    rule "clock.timeRemaining" "clock.timeRemaining" None false JNull;
    rule "clock.inIntermission" "clock.inIntermission" None false (JBool false);
    rule "periodDescriptor.number" "periodDescriptor.number" None false (JInt 1);
    rule "periodDescriptor.periodType" "periodDescriptor.periodType" None false JNull;
    rule "plays" "plays" None false (JList []);
    rule "situation" "situation" None false JNull;
    rule "rosterSpots" "rosterSpots" None false (JList []) ].

Definition _get_espn_game_rules : list ParsingRule.t :=
  [ rule "events" "games" (Some _transform_espn_events) true JNull;
    rule "day.date" "gameDate" (Some _transform_espn_date) true JNull;
    rule "id" "id" None true JNull;
    rule "date" "gameDate" (Some _extract_date_from_iso) true JNull;
    rule "date" "startTimeUTC" (Some _iso_to_utc) true JNull;
    rule "status.type.name" "gameState" (Some _map_espn_status) true JNull;
    rule "competitions[0].competitors[1].team.id" "awayTeam.id" None true JNull;
    rule "competitions[0].competitors[1].team.displayName"
         "awayTeam.name.default" None true JNull;
    rule "competitions[0].competitors[1].team.abbreviation"
         "awayTeam.abbrev" None true JNull;
    rule "competitions[0].competitors[1].score" "awayTeam.score"
         (Some py_int) true (JInt 0);
    rule "competitions[0].competitors[0].team.id" "homeTeam.id" None true JNull;
    rule "competitions[0].competitors[0].team.displayName"
         "homeTeam.name.default" None true JNull;
    rule "competitions[0].competitors[0].team.abbreviation"
         "homeTeam.abbrev" None true JNull;
    rule "competitions[0].competitors[0].score" "homeTeam.score"
         (Some py_int) true (JInt 0) ].

Definition _get_nhl_legacy_game_rules : list ParsingRule.t :=
  _get_nhl_official_game_rules.

Definition _get_nhl_official_standings_rules : list ParsingRule.t :=
  [ rule "standings" "standings" None true JNull;
    rule "teamName.default" "teamName.default" None true JNull;
    rule "teamAbbrev.default" "teamAbbrev.default" None true JNull;
    rule "wins" "wins" None true JNull;
    rule "losses" "losses" None true JNull;
    rule "otLosses" "otLosses" None false (JInt 0);
    rule "points" "points" None true JNull;
    rule "divisionSequence" "divisionSequence" None false JNull;
    rule "conferenceSequence" "conferenceSequence" None false JNull;
    rule "leagueSequence" "leagueSequence" None false JNull ].

Definition _get_espn_standings_rules : list ParsingRule.t :=
  [ rule "children[0].standings.entries" "standings"
         (Some _transform_espn_standings) true JNull;
    rule "team.displayName" "teamName.default" None true JNull;
    rule "team.abbreviation" "teamAbbrev.default" None true JNull;
    rule "stats[0].value" "wins" (Some py_int) true JNull;
    rule "stats[1].value" "losses" (Some py_int) true JNull;
    rule "stats[2].value" "otLosses" (Some py_int) true (JInt 0);
    rule "stats[7].value" "points" (Some py_int) true JNull ].

Definition _get_nhl_official_team_rules : list ParsingRule.t :=
  [ rule "data" "data" None true JNull;
    rule "id" "id" None true JNull;
    rule "triCode" "triCode" None true JNull;
    rule "fullName" "fullName" None true JNull;
    rule "teamName" "teamName" None false JNull;
    rule "locationName" "locationName" None false JNull ].

Definition _get_backup_team_rules : list ParsingRule.t :=
  _get_nhl_official_team_rules.

Definition _get_nhl_official_schedule_rules : list ParsingRule.t :=
  [ rule "games" "games" None true JNull;
    rule "id" "id" None true JNull;
    rule "gameDate" "gameDate" None true JNull;
    rule "startTimeUTC" "startTimeUTC" None true JNull;
    rule "gameState" "gameState" None true JNull;
    rule "awayTeam" "awayTeam" None true JNull;
    rule "homeTeam" "homeTeam" None true JNull ].

Definition _get_espn_schedule_rules : list ParsingRule.t :=
  [ rule "events" "games" (Some _transform_espn_events) true JNull;
    rule "id" "id" None true JNull;
    rule "date" "gameDate" (Some _extract_date_from_iso) true JNull;
    rule "date" "startTimeUTC" (Some _iso_to_utc) true JNull;
    rule "status.type.name" "gameState" (Some _map_espn_status) true JNull ].

Definition _get_nhl_official_player_rules : list ParsingRule.t :=
  [ rule "people" "people" None true JNull;
    rule "id" "id" None true JNull;
    rule "fullName" "fullName" None true JNull;
    rule "currentTeam.id" "currentTeam.id" None false JNull;
    rule "stats" "stats" None false (JList []) ].

Definition _get_nhl_official_playoffs_rules : list ParsingRule.t :=
  [ rule "rounds" "rounds" None true JNull;
    rule "defaultRound" "defaultRound" None true JNull;
    rule "season" "season" None false JNull;
    rule "seriesLetter" "seriesLetter" None true JNull;
    rule "matchupTeams" "matchupTeams" None true JNull;
    rule "currentGame.seriesStatus" "currentGame.seriesStatus" None false JNull;
    rule "seriesRecord.wins" "seriesRecord.wins" None false (JInt 0);
    rule "seriesRecord.losses" "seriesRecord.losses" None false (JInt 0) ].

Definition _get_espn_playoffs_rules : list ParsingRule.t :=
  [ rule "tournaments" "rounds" (Some _transform_espn_tournaments) true JNull;
    rule "season.year" "season" None false JNull;
    rule "name" "seriesLetter" None false JNull;
    rule "competitors" "matchupTeams" (Some _transform_espn_competitors) true JNull ].

Definition _get_nhl_official_season_rules : list ParsingRule.t :=
  [ rule "seasonId" "seasonId" None true JNull;
    rule "regularSeasonStartDate" "regularSeasonStartDate" None false JNull;
    rule "regularSeasonEndDate" "regularSeasonEndDate" None false JNull;
    rule "playoffStartDate" "playoffStartDate" None false JNull;
    rule "playoffEndDate" "playoffEndDate" None false JNull;
    rule "startDate" "startDate" None false JNull;
    rule "endDate" "endDate" None false JNull ].

Definition _get_espn_season_rules : list ParsingRule.t :=
  [ rule "season.year" "seasonId" (Some _transform_espn_season_id) true JNull;
    rule "season.startDate" "regularSeasonStartDate"
         (Some _extract_date_from_iso) true JNull;
    rule "season.endDate" "regularSeasonEndDate"
         (Some _extract_date_from_iso) true JNull ].

(** [self.parsing_rules]: domain, then source name, in insertion order *)
Definition _initialize_parsing_rules
  : list (string * list (string * list ParsingRule.t)) :=
  [ ("live_game", [ ("nhl_official", _get_nhl_official_game_rules);
                    ("espn", _get_espn_game_rules);
                    ("nhl_legacy", _get_nhl_legacy_game_rules) ]);
    ("standings", [ ("nhl_official", _get_nhl_official_standings_rules);
                    ("espn", _get_espn_standings_rules) ]);
    ("team_info", [ ("nhl_official", _get_nhl_official_team_rules);
                    ("backup_json", _get_backup_team_rules) ]);
    ("schedule", [ ("nhl_official", _get_nhl_official_schedule_rules);
                   ("espn", _get_espn_schedule_rules) ]);
    ("player_stats", [ ("nhl_official", _get_nhl_official_player_rules) ]);
    ("playoffs", [ ("nhl_official", _get_nhl_official_playoffs_rules);
                   ("espn", _get_espn_playoffs_rules) ]);
    ("season_schedule", [ ("nhl_official", _get_nhl_official_season_rules);
                          ("espn", _get_espn_season_rules) ]) ].

End RuleTables.

(** [d.get(k)] for the nested dicts of [self.parsing_rules] *)
Fixpoint table_lookup {A} (k : string) (d : list (string * A)) : option A :=
  match d with
  | [] => None
  | (k', v) :: d' => if String.eqb k k' then Some v else table_lookup k d'
  end.

Definition array_indicators : list string :=
  ["games"; "standings"; "events"; "people"; "data"].

(** [x in xs] for a list of strings *)
Definition str_mem (x : string) (xs : list string) : bool :=
  existsb (String.eqb x) xs.

(** [any(indicator in path for indicator in array_indicators)] *)
Definition has_indicator (path : string) : bool :=
  existsb (fun indicator => PyStr.contains indicator path) array_indicators.

(** [key in current], which raises on a value that is no container *)
Definition py_in (key : string) (current : json) : Res bool :=
  match current with
  | JDict d => Ok (bool_decide (is_Some (dict_lookup key d)))
  | JList l =>
      Ok (existsb (fun x => match x with
                            | JStr s => String.eqb s key
                            | _ => false
                            end) l)
  | JStr s => Ok (PyStr.contains key s)
  | _ => Raise TypeError
  end.

(** One iteration of the loop of [_extract_value_by_path]; [JNull] stands for
    the early [return None] *)
Definition extract_part (current : json) (part : string) : Res json :=
  if PyStr.contains "[" part && PyStr.contains "]" part then
    let key := PyStr.first_part (PyStr.split "[" part) in
    s ← PyStr.second_part (PyStr.split "[" part);
    let index_str := PyStr.first_part (PyStr.split "]" s) in
    current ←
      (if negb (String.eqb key "")
       then present ← py_in key current;
            if present : bool then subscript current key else Ok current
       else Ok current);
    match current with
    | JList l =>
        match PyStr.int_of_string index_str with
        | Ok index =>
            if (0 <=? index)%Z && (index <? Z.of_nat (length l))%Z
            then Ok (nth (Z.to_nat index) l JNull)
            else Ok JNull
        | Raise ValueError => Ok JNull
        | Raise e => Raise e
        end
    | _ => Ok JNull
    end
  else
    match current with
    | JDict d => Ok (from_option id JNull (dict_lookup part d))
    | _ => Ok JNull
    end.

Fixpoint extract_parts (current : json) (parts : list string) : Res json :=
  match parts with
  | [] => Ok current
  | part :: parts' =>
      if is_none current then Ok JNull
      else current ← extract_part current part; extract_parts current parts'
  end.

Definition _extract_value_by_path (data : json) (path : string) : Res json :=
  if String.eqb path "" || is_none data then Ok data
  else extract_parts data (PyStr.split "." path).

(** The navigation of [_set_value_by_path]; a value that is no dict raises
    at [part not in current] or at the item assignment *)
Fixpoint set_parts (current : json) (parts : list string) (value : json)
  : Res json :=
  match parts with
  | [] => Ok current
  | [final_key] => py_setitem current final_key value
  | part :: parts' =>
      match current with
      | JDict d =>
          child ← set_parts (from_option id (JDict []) (dict_lookup part d))
                    parts' value;
          mret (JDict (dict_set part child d))
      | _ => Raise TypeError
      end
  end.

Definition _set_value_by_path (data : json) (path : string) (value : json)
  : Res json :=
  if String.eqb path "" then Ok data
  else set_parts data (PyStr.split "." path) value.

Fixpoint _is_array_data (data : json) (rules : list ParsingRule.t) : Res bool :=
  match rules with
  | [] => Ok false
  | r :: rules' =>
      if has_indicator (ParsingRule.source_path r) then
        source_value ← _extract_value_by_path data (ParsingRule.source_path r);
        if is_list source_value then Ok true else _is_array_data data rules'
      else _is_array_data data rules'
  end.

(** The body of the [try] of [_apply_rules] for one rule *)
Definition apply_rule (data : json) (r : ParsingRule.t) (result : json)
  : Res json :=
  value ← _extract_value_by_path data (ParsingRule.source_path r);
  let value := if is_none value then ParsingRule.default_value r else value in
  value ←
    (match ParsingRule.transform r with
     | Some f => if is_none value then Ok value else f value
     | None => Ok value
     end);
  if is_none value then Ok result
  else _set_value_by_path result (ParsingRule.target_path r) value.

(** The body of the [try] of the top-level loop of [_apply_rules_to_array] *)
Definition apply_top_level_rule (data : json) (r : ParsingRule.t) (result : json)
  : Res json :=
  value ← _extract_value_by_path data (ParsingRule.source_path r);
  value ←
    (match ParsingRule.transform r with
     | Some f => if is_none value then Ok value else f value
     | None => Ok value
     end);
  if is_none value then Ok result
  else _set_value_by_path result (ParsingRule.target_path r) value.

(** [try: body except Exception: pass] around an update of [result] *)
Definition guarded (body : json -> Res json) (result : json) : json :=
  match body result with
  | Ok result' => result'
  | Raise _ => result
  end.

(** The first loop of [_apply_rules_to_array]: the value of [array_data] and
    of [array_field] when the loop ends *)
Fixpoint find_array (data : json) (rules : list ParsingRule.t)
    (array_data : json) : Res (option string * json) :=
  match rules with
  | [] => Ok (None, array_data)
  | r :: rules' =>
      if str_mem (ParsingRule.source_path r) array_indicators then
        array_data ← _extract_value_by_path data (ParsingRule.source_path r);
        if is_list array_data
        then Ok (Some (ParsingRule.target_path r), array_data)
        else find_array data rules' array_data
      else find_array data rules' array_data
  end.

(** [_apply_rules_to_array], with the method [_apply_rules] it calls back *)
Definition _apply_rules_to_array
    (_apply_rules : json -> list ParsingRule.t -> Res json)
    (data : json) (rules : list ParsingRule.t) : Res json :=
  '(array_field, array_data) ← find_array data rules JNull;
  if negb (truthy array_data) then _apply_rules data rules
  else
    let result :=
      fold_left
        (fun result r =>
           if negb (has_indicator (ParsingRule.source_path r))
           then guarded (apply_top_level_rule data r) result
           else result)
        rules (JDict []) in
    let item_rules :=
      filter (fun r => negb (str_mem (ParsingRule.source_path r) array_indicators))
        rules in
    items ← py_iter array_data;
    processed ← mapM (fun item => _apply_rules item item_rules) items;
    let processed_array := filter truthy processed in
    match array_field with
    | Some field =>
        if String.eqb field "" then Ok result
        else _set_value_by_path result field (JList processed_array)
    | None => Ok result
    end.

(** [_apply_rules]; [depth] is the number of nested calls the interpreter
    still allows *)
Fixpoint _apply_rules (depth : nat) (data : json) (rules : list ParsingRule.t)
  : Res json :=
  match depth with
  | O => Raise RecursionError
  | S depth' =>
      is_array ← _is_array_data data rules;
      if is_array : bool
      then _apply_rules_to_array (_apply_rules depth') data rules
      else Ok (fold_left (fun result r => guarded (apply_rule data r) result)
                 rules (JDict []))
  end.

(** [a.lower() in b.lower() or b.lower() in a.lower()] *)
Definition names_overlap (source_name rule_source_name : string) : bool :=
  PyStr.contains (PyStr.lower source_name) (PyStr.lower rule_source_name)
  || PyStr.contains (PyStr.lower rule_source_name) (PyStr.lower source_name).

Definition _get_parsing_rules
    (parsing_rules : list (string * list (string * list ParsingRule.t)))
    (domain source_name : string) : option (list ParsingRule.t) :=
  match table_lookup domain parsing_rules with
  | None => None
  | Some domain_rules =>
      match table_lookup source_name domain_rules with
      | Some rules => Some rules
      | None =>
          match find (fun entry => names_overlap source_name (fst entry))
                  domain_rules with
          | Some entry => Some (snd entry)
          | None => None
          end
      end
  end.

(** The key of [domain_rules] under which [_get_parsing_rules] finds the
    list it returns: the source name itself, or the first name that
    overlaps with it *)
Definition rule_source_name (domain_rules : list (string * list ParsingRule.t))
    (source_name : string) : option string :=
  match table_lookup source_name domain_rules with
  | Some _ => Some source_name
  | None =>
      match find (fun entry => names_overlap source_name (fst entry))
              domain_rules with
      | Some entry => Some (fst entry)
      | None => None
      end
  end.

(** A table whose entry for [k] now holds [v]; a table without the key is
    left alone *)
Fixpoint table_replace {A} (k : string) (v : A) (d : list (string * A))
  : list (string * A) :=
  match d with
  | [] => []
  | (k', v') :: d' =>
      if String.eqb k k' then (k', v) :: d' else (k', v') :: table_replace k v d'
  end.

(** [self.parsing_rules] once the rule objects of the list that
    [_get_parsing_rules(domain, source_name)] returns have become [rules].
    The list is the one stored in the table, and
    [_adapt_rules_for_schema_changes] writes into its rule objects (its
    [copy()] is shallow), so what it changes stays changed for later
    parses. *)
Definition with_rules
    (parsing_rules : list (string * list (string * list ParsingRule.t)))
    (domain source_name : string) (rules : list ParsingRule.t)
  : list (string * list (string * list ParsingRule.t)) :=
  match table_lookup domain parsing_rules with
  | None => parsing_rules
  | Some domain_rules =>
      match rule_source_name domain_rules source_name with
      | Some name =>
          table_replace domain (table_replace name rules domain_rules)
            parsing_rules
      | None => parsing_rules
      end
  end.

Fixpoint _extract_all_key_paths (data : json) (path : string) : list string :=
  match data with
  | JDict fields =>
      (fix items (fs : list (string * json)) : list string :=
         match fs with
         | [] => []
         | (key, value) :: fs' =>
             let current_path := join_path path key in
             (current_path :: _extract_all_key_paths value current_path)
             ++ items fs'
         end) fields
  | JList (first :: _) =>
      (if String.eqb path "" then [] else [(path ++ "[0]")%string])
      ++ _extract_all_key_paths first
           (if String.eqb path "" then "[0]" else (path ++ "[0]")%string)
  | _ => []
  end.

(** [removed_key.split('.')[-1].split('[')[0]] *)
Definition key_name_of (removed_key : string) : string :=
  PyStr.first_part (PyStr.split "[" (PyStr.last_part (PyStr.split "." removed_key))).

Definition _find_alternative_key_path (removed_key : string) (data : json)
  : option string :=
  let key_name := key_name_of removed_key in
  let all_paths := _extract_all_key_paths data "" in
  match find (fun path => PyStr.endswith path key_name
                          && negb (String.eqb path removed_key)) all_paths with
  | Some path => Some path
  | None =>
      find (fun path => PyStr.contains (PyStr.lower key_name) (PyStr.lower path)
                        && negb (String.eqb path removed_key)) all_paths
  end.

Definition _get_default_for_target_path (target_path : string) : json :=
  let t := PyStr.lower target_path in
  if PyStr.contains "score" t then JInt 0
  else if PyStr.contains "sog" t then JInt 0
  else if PyStr.contains "intermission" t then JBool false
  else if PyStr.contains "plays" t then JList []
  else if PyStr.contains "id" t then JInt 0
  else if PyStr.contains "name" t then JStr "Unknown"
  else if PyStr.contains "state" t then JStr "UNKNOWN"
  else JNull.

(** The [else] branch of the adaptation: the rule becomes optional and, when
    it has no default, gets the one of its target path *)
Definition relax_rule (r : ParsingRule.t) : ParsingRule.t :=
  {| ParsingRule.source_path := ParsingRule.source_path r;
     ParsingRule.target_path := ParsingRule.target_path r;
     ParsingRule.transform := ParsingRule.transform r;
     ParsingRule.required := false;
     ParsingRule.default_value :=
       if is_none (ParsingRule.default_value r)
       then _get_default_for_target_path (ParsingRule.target_path r)
       else ParsingRule.default_value r |}.

(** The body of the inner loop of [_adapt_rules_for_schema_changes];
    [if alternative_key] is false for [None] and for the empty string *)
Definition adapt_rule (removed_key : string) (raw_data : json)
    (r : ParsingRule.t) : ParsingRule.t :=
  if PyStr.contains removed_key (ParsingRule.source_path r) then
    match _find_alternative_key_path removed_key raw_data with
    | Some alternative_key =>
        if String.eqb alternative_key "" then relax_rule r
        else
          {| ParsingRule.source_path :=
               PyStr.replace removed_key alternative_key
                 (ParsingRule.source_path r);
             ParsingRule.target_path := ParsingRule.target_path r;
             ParsingRule.transform := ParsingRule.transform r;
             ParsingRule.required := ParsingRule.required r;
             ParsingRule.default_value := ParsingRule.default_value r |}
    | None => relax_rule r
    end
  else r.

(** [_adapt_rules_for_schema_changes]: the removed keys are gone through in
    the order of [changes['removed_keys']], a list made from a set, and at
    each key every rule is looked at in its state at that moment.  The list
    returned is a copy of [original_rules] that holds the same rule objects;
    the result is their state after the loop, which is also the state of the
    caller's rules from then on. *)
Definition _adapt_rules_for_schema_changes (original_rules : list ParsingRule.t)
    (changes : Changes.t) (raw_data : json) : list ParsingRule.t :=
  fold_left (fun adapted_rules removed_key =>
               map (adapt_rule removed_key raw_data) adapted_rules)
    (Changes.removed_keys changes) original_rules.

(** [extract_structure] of [_calculate_structure_hash] *)
Fixpoint extract_structure (obj : json) : json :=
  match obj with
  | JDict fields =>
      JDict ((fix items (fs : list (string * json)) : list (string * json) :=
                match fs with
                | [] => []
                | (k, v) :: fs' => (k, extract_structure v) :: items fs'
                end) fields)
  | JList l => JList (map (fun item => JStr (type_name item)) (firstn 3 l))
  | _ => JStr (type_name obj)
  end.

Module DataParser.

(** What [parse_data] writes to the log *)
Inductive LogRecord :=
| NoParsingRules      (* warning "No parsing rules found for ..." *)
| FailedToParse (e : PyExc).   (* error "Failed to parse data from ..." *)

Section WithRuntime.
Context `{Runtime}.

Definition _calculate_structure_hash (data : json) : string :=
  md5_hexdigest (json_dumps_sorted (extract_structure data)).

(** [0.1], the drift threshold *)
Definition drift_threshold : Q := 1 # 10.

(** [_apply_adaptive_parsing]: the cache, the state of the rule objects of
    [rules] when the method ends (the adaptation writes into them), and the
    outcome *)
Definition _apply_adaptive_parsing (cache : CacheManager.t) (now : Q)
    (depth : nat) (raw_data : json) (rules : list ParsingRule.t)
    (domain source_name : string)
  : CacheManager.t * list ParsingRule.t * Res json :=
  match CacheManager.get_schema_fingerprint cache source_name domain with
  | Some _ =>
      let '(cache, (_, changes)) :=
        CacheManager.update_schema_fingerprint cache now raw_data
          source_name domain in
      let rules :=
        match changes with
        | Some changes =>
            if Qltb drift_threshold (Changes.structural_change_score changes)
            then _adapt_rules_for_schema_changes rules changes raw_data
            else rules
        | None => rules
        end in
      (cache, rules, _apply_rules depth raw_data rules)
  | None => (cache, rules, _apply_rules depth raw_data rules)
  end.

(** The block under [try:] in [parse_data]: the rule table and the cache as
    the block leaves them, the outcome, and the log *)
Definition parse_data_try
    (parsing_rules : list (string * list (string * list ParsingRule.t)))
    (cache : CacheManager.t) (now : Q) (depth : nat)
    (raw_data : json) (domain source_name : string)
  : list (string * list (string * list ParsingRule.t)) * CacheManager.t
    * Res json * list LogRecord :=
  match _get_parsing_rules parsing_rules domain source_name with
  | None | Some [] => (parsing_rules, cache, Ok raw_data, [NoParsingRules])
  | Some rules =>
      let '(cache, rules, normalized) :=
        _apply_adaptive_parsing cache now depth raw_data rules domain
          source_name in
      (with_rules parsing_rules domain source_name rules, cache,
       normalized_data ← normalized;
       py_setitem normalized_data "_source_info"
         (JDict [("source_name", JStr source_name);
                 ("domain", JStr domain);
                 ("parsed_at", JStr (utc_isoformat now));
                 ("original_structure_hash",
                  JStr (_calculate_structure_hash raw_data))]),
       [])
  end.

(** [parse_data]: [except Exception] logs and returns [raw_data].  The rule
    table and the cache come back as the call leaves them. *)
Definition parse_data
    (parsing_rules : list (string * list (string * list ParsingRule.t)))
    (cache : CacheManager.t) (now : Q) (depth : nat)
    (raw_data : json) (domain source_name : string)
  : list (string * list (string * list ParsingRule.t)) * CacheManager.t
    * json * list LogRecord :=
  match parse_data_try parsing_rules cache now depth raw_data domain
          source_name with
  | (parsing_rules, cache, Ok normalized_data, log) =>
      (parsing_rules, cache, normalized_data, log)
  | (parsing_rules, cache, Raise e, log) =>
      (parsing_rules, cache, raw_data, log ++ [FailedToParse e])
  end.

End WithRuntime.
End DataParser.

(* ===================================================================== *)
(** ** config.py: the records the poller reads *)
(* ===================================================================== *)

Module PollingConfig.
Record t := {
  live_game_fast : Z;
  live_game_slow : Z;
  pregame : Z;
  postgame : Z;
  player_stats : Z;
  standings : Z;
  schedule : Z;
  offline : Z;
  playoffs : Z;
  season_schedule : Z
}.
End PollingConfig.

Module DataSourceConfig.
Record t := {
  name : string;
  base_url : string;
  priority : Z;
  enabled : bool;
  rate_limit_per_minute : Z
}.
End DataSourceConfig.

Module Backend2Config.
Record t := {
  polling : PollingConfig.t;
  (** domain, then source key, in insertion order *)
  data_sources : list (string * list (string * DataSourceConfig.t))
}.
End Backend2Config.

(* ===================================================================== *)
(** ** poller.py *)
(* ===================================================================== *)

Module DiscoveredEndpoint.
Record t := {
  url : string;
  domain : string;
  source_name : string
}.
End DiscoveredEndpoint.

Module PollResult.
Record t := {
  success : bool;
  data : json;
  source_name : string;
  endpoint_url : string;
  http_status : Z;
  cached : bool;
  error_message : string
}.
End PollResult.

Module DomainState.
Record t := {
  domain : string;
  last_poll_time : Q;
  last_successful_poll : Q;
  current_interval : Z;
  consecutive_failures : Z;
  active_source_index : Z;
  cached_data : json;
  game_state : string;
  is_live_game : bool;
  intermission : json
}.

(** [DomainState(domain=domain)] *)
Definition init (domain : string) : t :=
  {| domain := domain; last_poll_time := 0; last_successful_poll := 0;
     current_interval := 60; consecutive_failures := 0;
     active_source_index := 0; cached_data := JNull;
     game_state := "UNKNOWN"; is_live_game := false;
     intermission := JBool false |}.

Definition with_source (s : t) (failures index : Z) : t :=
  {| domain := domain s; last_poll_time := last_poll_time s;
     last_successful_poll := last_successful_poll s;
     current_interval := current_interval s;
     consecutive_failures := failures;
     active_source_index := index;
     cached_data := cached_data s; game_state := game_state s;
     is_live_game := is_live_game s; intermission := intermission s |}.

Definition with_times (s : t) (poll success : Q) (cached : json) : t :=
  {| domain := domain s; last_poll_time := poll;
     last_successful_poll := success;
     current_interval := current_interval s;
     consecutive_failures := consecutive_failures s;
     active_source_index := active_source_index s;
     cached_data := cached; game_state := game_state s;
     is_live_game := is_live_game s; intermission := intermission s |}.

Definition with_game (s : t) (live : bool) (gs : string) (inter : json) : t :=
  {| domain := domain s; last_poll_time := last_poll_time s;
     last_successful_poll := last_successful_poll s;
     current_interval := current_interval s;
     consecutive_failures := consecutive_failures s;
     active_source_index := active_source_index s;
     cached_data := cached_data s; game_state := gs;
     is_live_game := live; intermission := inter |}.

Definition with_interval (s : t) (interval : Z) : t :=
  {| domain := domain s; last_poll_time := last_poll_time s;
     last_successful_poll := last_successful_poll s;
     current_interval := interval;
     consecutive_failures := consecutive_failures s;
     active_source_index := active_source_index s;
     cached_data := cached_data s; game_state := game_state s;
     is_live_game := is_live_game s; intermission := intermission s |}.
End DomainState.

Module AdaptivePoller.

(** What the world does when endpoint number [attempt] of a cycle is
    polled: the clock reading of the rate-limit check, and what the rest of
    [_poll_endpoint] (file read or HTTP exchange, parsing, caching) comes
    to: a [PollResult], or [None] for an exception. *)
Record Attempt := {
  now : Q;
  fetch : option PollResult.t
}.

(** The loops over [config.data_sources]: [break] leaves the inner loop
    only, so a later domain overrides an earlier one *)
Definition find_source_config (config : Backend2Config.t) (source_name : string)
  : option DataSourceConfig.t :=
  fold_left
    (fun source_config domain_sources =>
       match find (fun source => String.eqb (DataSourceConfig.name source) source_name)
               (map snd (snd domain_sources)) with
       | Some source => Some source
       | None => source_config
       end)
    (Backend2Config.data_sources config) None.

(** [_check_rate_limit(source_name)] at clock reading [current_time] *)
Definition _check_rate_limit (config : Backend2Config.t)
    (rate_limits : gmap string (list Q)) (source_name : string)
    (current_time : Q) : gmap string (list Q) * bool :=
  let recent :=
    filter (fun t => Qltb (current_time - t) 60)
      (default [] (rate_limits !! source_name)) in
  let over :=
    match find_source_config config source_name with
    | Some source_config =>
        (DataSourceConfig.rate_limit_per_minute source_config
           <=? Z.of_nat (length recent))%Z
    | None => false
    end in
  if over then (<[source_name := recent]> rate_limits, false)
  else (<[source_name := recent ++ [current_time]]> rate_limits, true).

Definition rate_limited (source_name : string) : PollResult.t :=
  {| PollResult.success := false; PollResult.data := JNull;
     PollResult.source_name := source_name; PollResult.endpoint_url := "";
     PollResult.http_status := 0; PollResult.cached := false;
     PollResult.error_message := "Rate limit exceeded" |}.

Definition _poll_endpoint (config : Backend2Config.t)
    (rate_limits : gmap string (list Q)) (endpoint : DiscoveredEndpoint.t)
    (world : Attempt) : gmap string (list Q) * option PollResult.t :=
  let '(rate_limits, ok) :=
    _check_rate_limit config rate_limits
      (DiscoveredEndpoint.source_name endpoint) (now world) in
  if negb ok
  then (rate_limits, Some (rate_limited (DiscoveredEndpoint.source_name endpoint)))
  else (rate_limits, fetch world).

(** The [for attempt, endpoint in enumerate(available_endpoints)] loop of
    [_poll_domain]: [Some result] when the loop returned a successful
    result, [None] when it ran to its end *)
Fixpoint poll_endpoints (config : Backend2Config.t) (world : nat -> Attempt)
    (active_source_index : Z) (attempt : nat)
    (available_endpoints : list DiscoveredEndpoint.t)
    (rate_limits : gmap string (list Q))
  : gmap string (list Q) * option PollResult.t :=
  match available_endpoints with
  | [] => (rate_limits, None)
  | endpoint :: rest =>
      if (Z.of_nat attempt <? active_source_index)%Z
      then poll_endpoints config world active_source_index (S attempt) rest
             rate_limits
      else
        let '(rate_limits, outcome) :=
          _poll_endpoint config rate_limits endpoint (world attempt) in
        match outcome with
        | Some result =>
            if PollResult.success result then (rate_limits, Some result)
            else poll_endpoints config world active_source_index (S attempt)
                   rest rate_limits
        | None =>
            poll_endpoints config world active_source_index (S attempt) rest
              rate_limits
        end
  end.

Definition failure (error_message : string) : PollResult.t :=
  {| PollResult.success := false; PollResult.data := JNull;
     PollResult.source_name := ""; PollResult.endpoint_url := "";
     PollResult.http_status := 0; PollResult.cached := false;
     PollResult.error_message := error_message |}.

Definition from_cache (data : json) : PollResult.t :=
  {| PollResult.success := true; PollResult.data := data;
     PollResult.source_name := "cache"; PollResult.endpoint_url := "";
     PollResult.http_status := 0; PollResult.cached := true;
     PollResult.error_message := "" |}.

Definition _poll_domain (config : Backend2Config.t)
    (endpoints : gmap string (list DiscoveredEndpoint.t))
    (world : nat -> Attempt) (domain : string)
    (rate_limits : gmap string (list Q)) (state : DomainState.t)
  : gmap string (list Q) * DomainState.t * PollResult.t :=
  match endpoints !! domain with
  | None | Some [] =>
      (rate_limits, state,
       failure ("No endpoints available for domain: " ++ domain))
  | Some available_endpoints =>
      match poll_endpoints config world
              (DomainState.active_source_index state) 0 available_endpoints
              rate_limits with
      | (rate_limits, Some result) =>
          (rate_limits,
           DomainState.with_source state 0
             (if (DomainState.active_source_index state =? 0)%Z
              then DomainState.active_source_index state else 0),
           result)
      | (rate_limits, None) =>
          let failures := DomainState.consecutive_failures state + 1 in
          let index :=
            if (3 <=? failures)%Z
               && (DomainState.active_source_index state
                     <? Z.of_nat (length available_endpoints) - 1)%Z
            then DomainState.active_source_index state + 1
            else DomainState.active_source_index state in
          let state := DomainState.with_source state failures index in
          (rate_limits, state,
           if truthy (DomainState.cached_data state)
           then from_cache (DomainState.cached_data state)
           else failure ("All sources failed for domain: " ++ domain))
      end
  end.

(** [[g for g in games if g.get('gameState') in states]] *)
Definition games_in_state (states : list string) (games : list json)
  : Res (list json) :=
  flags ← mapM (fun g =>
                  gs ← py_get g "gameState" JNull;
                  mret (match gs with
                        | JStr s => str_mem s states
                        | _ => false
                        end)) games;
  mret (map fst (filter snd (combine games flags))).

(** [_update_game_state]: the state as the method leaves it, and the
    exception when it raises *)
Definition _update_game_state (state : DomainState.t) (data : json)
  : DomainState.t * Res unit :=
  match py_get data "games" (JList []) with
  | Raise e => (state, Raise e)
  | Ok games =>
      if negb (truthy games)
      then (DomainState.with_game state false "NO_GAMES"
              (DomainState.intermission state), Ok tt)
      else
        match (items ← py_iter games;
               live ← games_in_state ["LIVE"; "CRIT"] items;
               mret (items, live)) with
        | Raise e => (state, Raise e)
        | Ok (items, game :: _) =>
            let state :=
              DomainState.with_game state true "LIVE"
                (DomainState.intermission state) in
            match (clock_info ← py_get game "clock" (JDict []);
                   py_get clock_info "inIntermission" (JBool false)) with
            | Ok inter => (DomainState.with_game state true "LIVE" inter, Ok tt)
            | Raise e => (state, Raise e)
            end
        | Ok (items, []) =>
            let state :=
              DomainState.with_game state false (DomainState.game_state state)
                (DomainState.intermission state) in
            match games_in_state ["FUT"; "PRE"] items with
            | Raise e => (state, Raise e)
            | Ok (_ :: _) =>
                (DomainState.with_game state false "SCHEDULED"
                   (DomainState.intermission state), Ok tt)
            | Ok [] =>
                match games_in_state ["FINAL"; "OFF"] items with
                | Raise e => (state, Raise e)
                | Ok (_ :: _) =>
                    (DomainState.with_game state false "FINAL"
                       (DomainState.intermission state), Ok tt)
                | Ok [] =>
                    (DomainState.with_game state false "OFF_DAY"
                       (DomainState.intermission state), Ok tt)
                end
            end
        end
  end.

Definition _calculate_adaptive_interval (config : Backend2Config.t)
    (domain : string) (state : DomainState.t) : Z :=
  let polling_config := Backend2Config.polling config in
  if String.eqb domain "live_game" then
    if DomainState.is_live_game state then
      if truthy (DomainState.intermission state)
      then PollingConfig.live_game_slow polling_config
      else PollingConfig.live_game_fast polling_config
    else if String.eqb (DomainState.game_state state) "SCHEDULED"
    then PollingConfig.pregame polling_config
    else if String.eqb (DomainState.game_state state) "FINAL"
    then PollingConfig.postgame polling_config
    else PollingConfig.offline polling_config
  else if String.eqb domain "standings"
  then PollingConfig.standings polling_config
  else if String.eqb domain "team_info"
  then Z.max (PollingConfig.standings polling_config) 3600
  else if String.eqb domain "schedule"
  then PollingConfig.schedule polling_config
  else if String.eqb domain "player_stats"
  then PollingConfig.player_stats polling_config
  else 300.

(** [_update_domain_state] at clock reading [current_time] *)
Definition _update_domain_state (config : Backend2Config.t) (domain : string)
    (current_time : Q) (state : DomainState.t) (poll_result : PollResult.t)
  : DomainState.t * Res unit :=
  let state :=
    DomainState.with_times state current_time
      (DomainState.last_successful_poll state) (DomainState.cached_data state) in
  let '(state, r) :=
    if PollResult.success poll_result then
      let state :=
        DomainState.with_times state current_time current_time
          (DomainState.cached_data state) in
      if truthy (PollResult.data poll_result)
         && negb (PollResult.cached poll_result)
      then
        let state :=
          DomainState.with_times state current_time current_time
            (PollResult.data poll_result) in
        if String.eqb domain "live_game"
        then _update_game_state state (PollResult.data poll_result)
        else (state, Ok tt)
      else (state, Ok tt)
    else (state, Ok tt) in
  match r with
  | Ok _ =>
      (DomainState.with_interval state
         (_calculate_adaptive_interval config domain state), Ok tt)
  | Raise e => (state, Raise e)
  end.

(** One turn of the [while] loop of [_poll_domain_loop], after the sleep:
    the poll, the state update, and the payload handed to the callbacks
    if there is one.  An exception of the state update is caught by the
    loop and leaves the state as far as it was written. *)
Definition poll_cycle (config : Backend2Config.t)
    (endpoints : gmap string (list DiscoveredEndpoint.t))
    (world : nat -> Attempt) (update_time : Q) (domain : string)
    (rate_limits : gmap string (list Q)) (state : DomainState.t)
  : gmap string (list Q) * DomainState.t * option json :=
  let '(rate_limits, state, poll_result) :=
    _poll_domain config endpoints world domain rate_limits state in
  match _update_domain_state config domain update_time state poll_result with
  | (state, Ok _) =>
      (rate_limits, state,
       if PollResult.success poll_result
          && truthy (PollResult.data poll_result)
          && negb (PollResult.cached poll_result)
       then Some (PollResult.data poll_result) else None)
  | (state, Raise _) => (rate_limits, state, None)
  end.

(** The domain's loop over a finite run of turns, from the state the
    constructor creates *)
Fixpoint run_cycles (config : Backend2Config.t)
    (endpoints : gmap string (list DiscoveredEndpoint.t))
    (domain : string) (turns : list ((nat -> Attempt) * Q))
    (rate_limits : gmap string (list Q)) (state : DomainState.t)
  : gmap string (list Q) * DomainState.t :=
  match turns with
  | [] => (rate_limits, state)
  | (world, update_time) :: turns' =>
      let '(rate_limits, state, _) :=
        poll_cycle config endpoints world update_time domain rate_limits state in
      run_cycles config endpoints domain turns' rate_limits state
  end.

End AdaptivePoller.

(* ===================================================================== *)
(** ** Sorting, as [sorted(xs, key=...)] does it *)
(* ===================================================================== *)

(** [x] goes in front of the first element whose key is not smaller. *)
Fixpoint insert_by {A} (key : A -> Z) (x : A) (l : list A) : list A :=
  match l with
  | [] => [x]
  | y :: l' => if (key x <=? key y)%Z then x :: l else y :: insert_by key x l'
  end.

(** [sorted(l, key=key)]: ascending and stable.  Python's sort is some
    stable sort; all of them return this list. *)
Definition py_sorted {A} (key : A -> Z) (l : list A) : list A :=
  fold_right (insert_by key) [] l.

(* ===================================================================== *)
(** ** config.py: source selection *)
(* ===================================================================== *)

(** [get_source_for_domain(domain, priority)] *)
Definition get_source_for_domain (config : Backend2Config.t) (domain : string)
    (priority : Z) : option DataSourceConfig.t :=
  match table_lookup domain (Backend2Config.data_sources config) with
  | None => None
  | Some sources =>
      find (fun source =>
              DataSourceConfig.enabled source
              && (priority <=? DataSourceConfig.priority source)%Z)
        (py_sorted DataSourceConfig.priority (map snd sources))
  end.

(** [get_all_sources_for_domain(domain)] *)
Definition get_all_sources_for_domain (config : Backend2Config.t)
    (domain : string) : list DataSourceConfig.t :=
  match table_lookup domain (Backend2Config.data_sources config) with
  | None => []
  | Some sources =>
      py_sorted DataSourceConfig.priority
        (filter DataSourceConfig.enabled (map snd sources))
  end.

(* ===================================================================== *)
(** ** discovery.py: validation and the endpoint registry *)
(* ===================================================================== *)

Module DataSourceDiscovery.

(** The dataclass [DiscoveredEndpoint] with all its fields; the poller reads
    [url], [domain] and [source_name] of it. *)
Record Endpoint := {
  url : string;
  domain : string;
  source_name : string;
  method : string;
  requires_params : bool;
  sample_params : list (string * string);
  response_format : string;
  last_validated : Q;
  validation_success : bool;
  expected_keys : list string;
  schema_fingerprint_hash : option string;
  discovery_method : string
}.

(** ['required_keys'] of [self.domain_patterns] *)
Definition required_keys : list (string * list string) :=
  [ ("live_game", ["games"; "gameDate"]);
    ("standings", ["standings"]);
    ("team_info", ["data"]);
    ("schedule", ["games"]);
    ("player_stats", ["people"]);
    ("playoffs", ["rounds"]);
    ("season_schedule", ["seasonId"]) ].

(** [for key in keys: if key not in v: return False], and
    [all(key in v for key in keys)] *)
Fixpoint all_keys_in (keys : list string) (v : json) : Res bool :=
  match keys with
  | [] => Ok true
  | key :: keys' =>
      present ← py_in key v;
      if present : bool then all_keys_in keys' v else Ok false
  end.

(** The loop over the two team keys of [_validate_game_data] *)
Fixpoint teams_have_id (team_keys : list string) (game : json) : Res bool :=
  match team_keys with
  | [] => Ok true
  | team_key :: team_keys' =>
      team ← subscript game team_key;
      match team with
      | JDict d =>
          if bool_decide (is_Some (dict_lookup "id" d))
          then teams_have_id team_keys' game
          else Ok false
      | _ => Ok false
      end
  end.

Definition _validate_game_data (data : json) : Res bool :=
  present ← py_in "games" data;
  if negb present then Ok false
  else
    games ← subscript data "games";
    match games with
    | JList (game :: _) =>
        complete ← all_keys_in ["awayTeam"; "homeTeam"; "gameState"] game;
        if negb complete then Ok false
        else teams_have_id ["awayTeam"; "homeTeam"] game
    | _ => Ok true
    end.

Definition _validate_standings_data (data : json) : Res bool :=
  present ← py_in "standings" data;
  if negb present then Ok false
  else
    standings ← subscript data "standings";
    match standings with
    | JList (standing :: _) =>
        match standing with
        | JDict d => Ok (bool_decide (is_Some (dict_lookup "teamName" d)))
        | _ => Ok false
        end
    | _ => Ok true
    end.

Definition _validate_team_data (data : json) : Res bool :=
  has_data ← py_in "data" data;
  teams ←
    (if has_data : bool then (v ← subscript data "data"; mret (Some v))
     else
       has_teams ← py_in "teams" data;
       if has_teams : bool then (v ← subscript data "teams"; mret (Some v))
       else Ok None);
  match teams with
  | None => Ok false
  | Some (JList (team :: _)) =>
      match team with
      | JDict d =>
          Ok (bool_decide (is_Some (dict_lookup "id" d))
              || bool_decide (is_Some (dict_lookup "triCode" d)))
      | _ => Ok false
      end
  | Some _ => Ok true
  end.

Definition _validate_schedule_data (data : json) : Res bool :=
  present ← py_in "games" data;
  if negb present then Ok false
  else
    games ← subscript data "games";
    match games with
    | JList (game :: _) => all_keys_in ["gameDate"; "awayTeam"; "homeTeam"] game
    | _ => Ok true
    end.

Definition _validate_player_data (data : json) : Res bool :=
  has_people ← py_in "people" data;
  players ←
    (if has_people : bool then (v ← subscript data "people"; mret (Some v))
     else
       has_data ← py_in "data" data;
       if has_data : bool then (v ← subscript data "data"; mret (Some v))
       else Ok None);
  match players with
  | None => Ok false
  | Some (JList (player :: _)) =>
      match player with
      | JDict d => Ok (bool_decide (is_Some (dict_lookup "id" d)))
      | _ => Ok false
      end
  | Some _ => Ok true
  end.

Definition _validate_response_structure (data : json) (domain : string)
  : Res bool :=
  match table_lookup domain required_keys with
  | None => Ok true
  | Some keys =>
      complete ← all_keys_in keys data;
      if negb complete then Ok false
      else if String.eqb domain "live_game" then _validate_game_data data
      else if String.eqb domain "standings" then _validate_standings_data data
      else if String.eqb domain "team_info" then _validate_team_data data
      else if String.eqb domain "schedule" then _validate_schedule_data data
      else if String.eqb domain "player_stats" then _validate_player_data data
      else Ok true
  end.

(** [_validate_file_endpoint(endpoint)] at wall-clock time [now], over the
    files that can be opened and hold JSON, by path: the updated endpoint
    and the verdict.  Every exception gives [False]. *)
Definition _validate_file_endpoint (files : gmap string json) (now : Q)
    (endpoint : Endpoint) : Endpoint * bool :=
  match files !! PyStr.replace "file://" "" (url endpoint) with
  | None => (endpoint, false)
  | Some data =>
      match _validate_response_structure data (domain endpoint) with
      | Ok true =>
          ({| url := url endpoint; domain := domain endpoint;
              source_name := source_name endpoint; method := method endpoint;
              requires_params := requires_params endpoint;
              sample_params := sample_params endpoint;
              response_format := response_format endpoint;
              last_validated := now;
              validation_success := true;
              expected_keys := _extract_expected_keys data (domain endpoint);
              schema_fingerprint_hash := schema_fingerprint_hash endpoint;
              discovery_method := discovery_method endpoint |}, true)
      | _ => (endpoint, false)
      end
  end.

(** [priority_order.get(x.discovery_method, 99)] *)
Definition method_priority (endpoint : Endpoint) : Z :=
  from_option id 99
    (table_lookup (discovery_method endpoint)
       [("static", 1); ("html_parse", 2); ("api_discovery", 3)]).

(** [get_active_endpoints(domain)] over the registry [self.endpoints] *)
Definition get_active_endpoints (endpoints : list (string * list Endpoint))
    (domain : string) : list Endpoint :=
  match table_lookup domain endpoints with
  | None => []
  | Some registered =>
      py_sorted method_priority (filter validation_success registered)
  end.

End DataSourceDiscovery.

(* ===================================================================== *)
(** ** Notions the statements use *)
(* ===================================================================== *)

(** [l] lists the keys that satisfy [P], each once: its length is their
    number. *)
Definition enumerates (l : list string) (P : string -> Prop) : Prop :=
  base.NoDup l /\ forall k, k ∈ l <-> P k.

(** The cap on key-path extraction as the specification words it: neither
    the expected-key list nor the fingerprint's key-path list of a payload
    has more than 50 entries. *)
Definition key_paths_capped `{Runtime} (data : json) : Prop :=
  (length (_extract_expected_keys data "live_game") <= 50)%nat
  /\ (length (SchemaFingerprint.key_paths
                (create_schema_fingerprint 0 data "nhl_official" "live_game"))
      <= 50)%nat.

(** The key paths of the dict keys that the walk of a fingerprint visits,
    in the order of the walk: every key of a dict, each followed by what is
    visited below its value; below a list that is not empty, what is visited
    below its first item; below anything else, nothing.  The path of a key
    is the path of its dict, a dot and the key; the path of the first item
    of a list is the path of the list and [[0]]. *)
Fixpoint visited_paths (obj : json) (path : string) : list string :=
  match obj with
  | JDict fields =>
      (fix items (fs : list (string * json)) : list string :=
         match fs with
         | [] => []
         | (key, value) :: fs' =>
             (join_path path key :: visited_paths value (join_path path key))
             ++ items fs'
         end) fields
  | JList (first :: _) => visited_paths first (path ++ "[0]")
  | _ => []
  end.

(** The number of dict keys that the walk visits. *)
Fixpoint keys_visited (obj : json) : nat :=
  match obj with
  | JDict fields =>
      (fix items (fs : list (string * json)) : nat :=
         match fs with
         | [] => 0%nat
         | (_, value) :: fs' => (S (keys_visited value) + items fs')%nat
         end) fields
  | JList (first :: _) => keys_visited first
  | _ => 0%nat
  end.

(** [path] can replace [removed_key] by the exact test of
    [_find_alternative_key_path]: it ends with the removed key's terminal
    segment name and is another path. *)
Definition exact_candidate (removed_key path : string) : bool :=
  PyStr.endswith path (key_name_of removed_key)
  && negb (String.eqb path removed_key).

(** ... and by the partial test: it contains that name, letter case aside. *)
Definition partial_candidate (removed_key path : string) : bool :=
  PyStr.contains (PyStr.lower (key_name_of removed_key)) (PyStr.lower path)
  && negb (String.eqb path removed_key).

(** The drift adaptation of one rule as the specification words it: a rule
    that references the removed key gets as source path a current key-path
    that matches the removed key's terminal segment if there is one, and
    otherwise becomes optional with the default of its target path. *)
Definition adaptation_as_specified (removed_key : string) (raw_data : json)
    (r : ParsingRule.t) : Prop :=
  PyStr.contains removed_key (ParsingRule.source_path r) = true ->
  let r' := adapt_rule removed_key raw_data r in
  let current := _extract_all_key_paths raw_data "" in
  let candidate path :=
    exact_candidate removed_key path || partial_candidate removed_key path in
  ((exists path, In path current /\ candidate path = true) ->
   In (ParsingRule.source_path r') current
   /\ candidate (ParsingRule.source_path r') = true)
  /\ ((forall path, In path current -> candidate path = false) ->
      ParsingRule.required r' = false
      /\ ParsingRule.default_value r'
         = _get_default_for_target_path (ParsingRule.target_path r')).

(** [alternative] stands in for a removed key, as the amended sentence on
    drift adaptation words it: among the current key-paths it is the first
    one, other than the removed key, that ends with the removed key's
    terminal segment name, or when none does, the first one that contains
    that name, letter case aside. *)
Definition first_alternative (removed_key : string) (current : list string)
    (alternative : string) : Prop :=
  exists before after,
    current = before ++ alternative :: after
    /\ ((exact_candidate removed_key alternative = true
         /\ forall path, In path before ->
                         exact_candidate removed_key path = false)
        \/ (partial_candidate removed_key alternative = true
            /\ (forall path, In path current ->
                             exact_candidate removed_key path = false)
            /\ forall path, In path before ->
                            partial_candidate removed_key path = false)).

(** No current key-path can stand in for the removed key. *)
Definition no_alternative (removed_key : string) (current : list string)
  : Prop :=
  forall path, In path current ->
               exact_candidate removed_key path = false
               /\ partial_candidate removed_key path = false.

(** The default that goes with a target path: by the first of these words
    that the lower-cased path contains. *)
Definition default_by_first_word (target_path : string) (default : json)
  : Prop :=
  let has word := PyStr.contains word (PyStr.lower target_path) in
  (has "score" = true \/ has "sog" = true -> default = JInt 0)
  /\ (has "score" = false -> has "sog" = false ->
      (has "intermission" = true -> default = JBool false)
      /\ (has "intermission" = false ->
          (has "plays" = true -> default = JList [])
          /\ (has "plays" = false ->
              (has "id" = true -> default = JInt 0)
              /\ (has "id" = false ->
                  (has "name" = true -> default = JStr "Unknown")
                  /\ (has "name" = false ->
                      (has "state" = true -> default = JStr "UNKNOWN")
                      /\ (has "state" = false -> default = JNull)))))).

(** What one removed key does to one rule, [r'] being the rule afterwards:
    a rule whose source path does not contain the key stays as it is; in one
    that does, every occurrence of the key is replaced by the alternative
    when there is a non-empty one, and otherwise the rule becomes optional
    and, if it has no default, gets the default of its target path.  Target
    path and transform never change. *)
Definition adapted_at (removed_key : string) (raw_data : json)
    (r r' : ParsingRule.t) : Prop :=
  let current := _extract_all_key_paths raw_data "" in
  ParsingRule.target_path r' = ParsingRule.target_path r
  /\ ParsingRule.transform r' = ParsingRule.transform r
  /\ if PyStr.contains removed_key (ParsingRule.source_path r)
     then (exists alternative,
             first_alternative removed_key current alternative
             /\ alternative <> ""
             /\ ParsingRule.source_path r'
                = PyStr.replace removed_key alternative
                    (ParsingRule.source_path r)
             /\ ParsingRule.required r' = ParsingRule.required r
             /\ ParsingRule.default_value r' = ParsingRule.default_value r)
          \/ ((no_alternative removed_key current
               \/ first_alternative removed_key current "")
              /\ ParsingRule.source_path r' = ParsingRule.source_path r
              /\ ParsingRule.required r' = false
              /\ (is_none (ParsingRule.default_value r) = false ->
                  ParsingRule.default_value r' = ParsingRule.default_value r)
              /\ (is_none (ParsingRule.default_value r) = true ->
                  default_by_first_word (ParsingRule.target_path r)
                    (ParsingRule.default_value r')))
     else ParsingRule.source_path r' = ParsingRule.source_path r
          /\ ParsingRule.required r' = ParsingRule.required r
          /\ ParsingRule.default_value r' = ParsingRule.default_value r.

(** The removed keys applied to one rule one after the other, in the order
    of the list, each to the rule as the keys before it left it. *)
Inductive adapted_through (raw_data : json)
  : list string -> ParsingRule.t -> ParsingRule.t -> Prop :=
| adapted_through_none r : adapted_through raw_data [] r r
| adapted_through_next removed_key removed_keys r r1 r2 :
    adapted_at removed_key raw_data r r1 ->
    adapted_through raw_data removed_keys r1 r2 ->
    adapted_through raw_data (removed_key :: removed_keys) r r2.

(** Some rule's target path continues another rule's target path: only then
    could writing the second field reach into a value that the first one
    copied from the payload. *)
Definition nested_targets (rules : list ParsingRule.t) : bool :=
  existsb (fun r1 =>
             existsb (fun r2 =>
                        String.prefix (ParsingRule.target_path r1 ++ ".")
                          (ParsingRule.target_path r2))
               rules)
    rules.

(** [entry] is the first entry of the rule table of a domain, in the table's
    order, whose name contains the source name or is contained in it, letter
    case aside. *)
Definition first_overlapping (source_name : string)
    (domain_rules : list (string * list ParsingRule.t))
    (entry : string * list ParsingRule.t) : Prop :=
  exists before after,
    domain_rules = before ++ entry :: after
    /\ names_overlap source_name (fst entry) = true
    /\ forall earlier, In earlier before ->
                       names_overlap source_name (fst earlier) = false.

(** The fallback to the raw payload as the specification words it: for a
    source name without a rule set of its own, [parse_data] hands the raw
    payload back only if no configured source name overlaps with it. *)
Definition raw_payload_only_without_overlap `{Runtime}
    (parsing_rules : list (string * list (string * list ParsingRule.t)))
    (cache : CacheManager.t) (now : Q) (depth : nat) (raw_data : json)
    (domain source_name : string) : Prop :=
  forall domain_rules,
    table_lookup domain parsing_rules = Some domain_rules ->
    table_lookup source_name domain_rules = None ->
    snd (fst (DataParser.parse_data parsing_rules cache now depth raw_data
                domain source_name)) = raw_data ->
    ~ exists entry,
        In entry domain_rules /\ names_overlap source_name (fst entry) = true.

Module PollerSpec.
Import AdaptivePoller.

(** The active source index is a position of the domain's endpoint list,
    or 0 when the domain has none. *)
Definition valid_index (available : option (list DiscoveredEndpoint.t))
    (index : Z) : Prop :=
  match available with
  | None | Some [] => index = 0
  | Some l => 0 <= index < Z.of_nat (length l)
  end.

(** What each endpoint from the active index on answers when polled in list
    order in this cycle ([None] for an exception), the rate-limit table
    threaded the way the loop of [_poll_domain] threads it.  The loop stops
    at the first success; up to there it sees exactly these answers. *)
Fixpoint cycle_attempts (config : Backend2Config.t) (world : nat -> Attempt)
    (active_source_index : Z) (attempt : nat)
    (available_endpoints : list DiscoveredEndpoint.t)
    (rate_limits : gmap string (list Q)) : list (option PollResult.t) :=
  match available_endpoints with
  | [] => []
  | endpoint :: rest =>
      if (Z.of_nat attempt <? active_source_index)%Z
      then cycle_attempts config world active_source_index (S attempt) rest
             rate_limits
      else
        let '(rate_limits, outcome) :=
          _poll_endpoint config rate_limits endpoint (world attempt) in
        outcome
        :: cycle_attempts config world active_source_index (S attempt) rest
             rate_limits
  end.

(** The endpoint answered with a successful result. *)
Definition succeeded (outcome : option PollResult.t) : Prop :=
  exists result, outcome = Some result /\ PollResult.success result = true.

(** Every endpoint the loop of [_poll_domain] polls in this cycle is
    refused by [_check_rate_limit]; the rate-limit table is threaded the
    way the loop threads it. *)
Fixpoint only_rate_limited (config : Backend2Config.t) (world : nat -> Attempt)
    (active_source_index : Z) (attempt : nat)
    (available_endpoints : list DiscoveredEndpoint.t)
    (rate_limits : gmap string (list Q)) : bool :=
  match available_endpoints with
  | [] => true
  | endpoint :: rest =>
      if (Z.of_nat attempt <? active_source_index)%Z
      then only_rate_limited config world active_source_index (S attempt)
             rest rate_limits
      else
        let '(rate_limits, ok) :=
          _check_rate_limit config rate_limits
            (DiscoveredEndpoint.source_name endpoint) (now (world attempt)) in
        negb ok
        && only_rate_limited config world active_source_index (S attempt)
             rest rate_limits
  end.

(** Rate-limited cycles as the specification words them: a
    cycle whose polled endpoints were all refused by the rate limiter
    leaves the consecutive-failure count as it was. *)
Definition rate_limit_skip_not_counted (config : Backend2Config.t)
    (endpoints : gmap string (list DiscoveredEndpoint.t))
    (world : nat -> Attempt) (domain : string)
    (rate_limits : gmap string (list Q)) (state : DomainState.t) : Prop :=
  forall available,
    endpoints !! domain = Some available ->
    available <> [] ->
    only_rate_limited config world (DomainState.active_source_index state) 0
      available rate_limits = true ->
    DomainState.consecutive_failures
      (snd (fst (_poll_domain config endpoints world domain rate_limits state)))
    = DomainState.consecutive_failures state.

End PollerSpec.

(** *** Notions of the further statements *)

Definition swap_types (change : string * (option string * option string))
  : string * (option string * option string) :=
  (fst change, (snd (snd change), fst (snd change))).

(** What [extract_paths] keeps true of its two accumulators. *)
Definition paths_have_types (acc : list string * gmap string string) : Prop :=
  forall p, p ∈ fst acc <-> is_Some (snd acc !! p).

(** Two key lists that agree on their first 50 entries *)
Definition same_head (keys paths : list string) : Prop :=
  take 50 keys = take 50 paths.

(** Ascending in [key], as [sorted(..., key=...)] leaves a list *)
Definition ascending {A} (key : A -> Z) : list A -> Prop :=
  StronglySorted (fun a b => key a <= key b).

(** The sources configured for a domain, in the order of the configuration *)
Definition configured_sources (config : Backend2Config.t) (domain : string)
  : list DataSourceConfig.t :=
  match table_lookup domain (Backend2Config.data_sources config) with
  | Some sources => map snd sources
  | None => []
  end.

(** The registered endpoints of a domain *)
Definition registered_endpoints (endpoints : list (string * list DataSourceDiscovery.Endpoint))
    (domain : string) : list DataSourceDiscovery.Endpoint :=
  match table_lookup domain endpoints with
  | Some registered => registered
  | None => []
  end.

(** A path part that [_extract_value_by_path] reads as an array index *)
Definition is_index_part (part : string) : bool :=
  PyStr.contains "[" part && PyStr.contains "]" part.

(** What the adaptation may do to a rule *)
Definition adapted_from (r a : ParsingRule.t) : Prop :=
  ParsingRule.target_path a = ParsingRule.target_path r
  /\ ParsingRule.transform a = ParsingRule.transform r
  /\ (ParsingRule.required a = true -> ParsingRule.required r = true)
  /\ (is_none (ParsingRule.default_value r) = false ->
      ParsingRule.default_value a = ParsingRule.default_value r).

(** No source has more accepted requests on record than its configured
    limit per minute. *)
Definition within_limits (config : Backend2Config.t)
    (rate_limits : gmap string (list Q)) : Prop :=
  forall source_name source_config,
    AdaptivePoller.find_source_config config source_name = Some source_config ->
    Z.of_nat (length (default [] (rate_limits !! source_name)))
    <= Z.max 0 (DataSourceConfig.rate_limit_per_minute source_config).

(* ===================================================================== *)
(** ** Concrete inputs *)
(* ===================================================================== *)

Module Sample.
Import AdaptivePoller.

Definition polling : PollingConfig.t :=
  {| PollingConfig.live_game_fast := 3; PollingConfig.live_game_slow := 20;
     PollingConfig.pregame := 60; PollingConfig.postgame := 300;
     PollingConfig.player_stats := 900; PollingConfig.standings := 1800;
     PollingConfig.schedule := 3600; PollingConfig.offline := 14400;
     PollingConfig.playoffs := 3600; PollingConfig.season_schedule := 86400 |}.

Definition source (name : string) (priority limit : Z) : DataSourceConfig.t :=
  {| DataSourceConfig.name := name; DataSourceConfig.base_url := "";
     DataSourceConfig.priority := priority; DataSourceConfig.enabled := true;
     DataSourceConfig.rate_limit_per_minute := limit |}.

(** Three sources for the live-game domain; [espn] may be asked twice a
    minute. *)
Definition config : Backend2Config.t :=
  {| Backend2Config.polling := polling;
     Backend2Config.data_sources :=
       [("live_game", [("nhl_official", source "nhl_official" 1 60);
                       ("nhl_legacy", source "nhl_legacy" 2 60);
                       ("espn", source "espn" 3 2)])] |}.

Definition endpoint (source_name : string) : DiscoveredEndpoint.t :=
  {| DiscoveredEndpoint.url := "https://example.invalid/score/now";
     DiscoveredEndpoint.domain := "live_game";
     DiscoveredEndpoint.source_name := source_name |}.

Definition three_sources : list DiscoveredEndpoint.t :=
  [endpoint "nhl_official"; endpoint "nhl_legacy"; endpoint "espn"].

Definition endpoints : gmap string (list DiscoveredEndpoint.t) :=
  {["live_game" := three_sources]}.

Definition espn_only : gmap string (list DiscoveredEndpoint.t) :=
  {["live_game" := [endpoint "espn"]]}.

Definition fresh (source_name : string) : PollResult.t :=
  {| PollResult.success := true;
     PollResult.data := JDict [("games", JList [])];
     PollResult.source_name := source_name; PollResult.endpoint_url := "";
     PollResult.http_status := 200; PollResult.cached := false;
     PollResult.error_message := "" |}.

(** Every endpoint answers HTTP 503 at time 102. *)
Definition all_down : nat -> Attempt :=
  fun _ => {| now := 102; fetch := Some (failure "HTTP 503") |}.

(** Every endpoint would answer with fresh data at time 102. *)
Definition all_up : nat -> Attempt :=
  fun _ => {| now := 102; fetch := Some (fresh "espn") |}.

(** [espn] was asked at times 100 and 101. *)
Definition espn_busy : gmap string (list Q) :=
  {["espn" := [100; 101]%Q]}.

(** Stand-ins for the library functions of [Runtime]. *)
Definition runtime : Runtime :=
  {| md5_hexdigest := fun s => s;
     sha256_hexdigest := fun s => s;
     json_dumps_sorted := fun _ => "";
     structure_digest := fun paths _ => String.concat "," paths;
     py_str := fun _ => "";
     fromisoformat_strftime := fun s => Some s;
     utc_isoformat := fun _ => "1970-01-01T00:00:00+00:00";
     set_order := elements;
     set_order_perm := fun s => Permutation_refl (elements s) |}.

(** A payload with [n] scalar fields [k0], [k1], ... *)
Definition wide_payload (n : nat) : json :=
  JDict (map (fun i => (("k" ++ str_of_Z (Z.of_nat i))%string, JInt 0)) (seq 0 n)).

Definition team (id : Z) (name abbrev : string) (score sog : Z) : json :=
  JDict [("id", JInt id); ("name", JDict [("default", JStr name)]);
         ("abbrev", JStr abbrev); ("score", JInt score); ("sog", JInt sog)].

(** [sample_nhl_game_data] of [scripts/test_data_parsing.py] *)
Definition sample_nhl_game_data : json :=
  JDict
    [("games",
      JList
        [JDict
           [("id", JInt 2023020001);
            ("gameDate", JStr "2023-10-01");
            ("startTimeUTC", JStr "2023-10-01T23:00:00Z");
            ("gameState", JStr "LIVE");
            ("gameType", JInt 2);
            ("awayTeam", team 10 "Toronto Maple Leafs" "TOR" 2 25);
            ("homeTeam", team 8 "Boston Bruins" "BOS" 1 28);
            ("clock", JDict [("timeRemaining", JStr "15:30");
                             ("inIntermission", JBool false)]);
            ("periodDescriptor", JDict [("number", JInt 2);
                                        ("periodType", JStr "REG")]);
            ("plays", JList []);
            ("rosterSpots", JList [])]]);
     ("gameDate", JStr "2023-10-01")].

(** An ESPN event whose [competitions] list holds a number. *)
Definition scalar_competition : json :=
  JDict [("id", JStr "401559"); ("competitions", JList [JInt 7])].

(** The ESPN scoreboard of a day without events. *)
Definition no_events : json := JDict [("events", JList [])].

(** The live-game payload of a day without games. *)
Definition no_games : json := JDict [("games", JList [])].

Definition empty_cache : CacheManager.t :=
  {| CacheManager.max_age_seconds := 3600;
     CacheManager.json_cache :=
       {| JSONCache.cache_dir := "/tmp/nhl-scoreboard-cache";
          JSONCache.index := ∅; JSONCache.files := ∅ |};
     CacheManager.schema_cache := {| SchemaCache.files := ∅ |} |}.

(** The clock object was renamed and its field too. *)
Definition renamed_clock : json :=
  JDict [("id", JInt 2023020001);
         ("gameClock", JDict [("remaining", JStr "15:30")])].

Definition clock_rule : ParsingRule.t :=
  rule "clock.timeRemaining" "clock.timeRemaining" None false JNull.

(** The payload in which the clock still had its name, a cache that has
    seen it, and a rule table with the clock rule alone. *)
Definition with_clock : json :=
  JDict [("id", JInt 2023020001);
         ("clock", JDict [("timeRemaining", JStr "15:30")])].

Definition clock_seen : CacheManager.t :=
  fst (CacheManager.update_schema_fingerprint (H := runtime) empty_cache 50
         with_clock "nhl_official" "live_game").

Definition clock_rules : list (string * list (string * list ParsingRule.t)) :=
  [("live_game", [("nhl_official", [clock_rule])])].

(** A live game as first seen, and after the provider renamed the
    abbreviation field and turned the id into a string. *)
Definition game_before : json :=
  JDict [("games", JList [JDict [("id", JInt 2023020001);
                                 ("awayTeam", JDict [("abbrev", JStr "TOR")])]]);
         ("gameDate", JStr "2023-10-01")].

Definition game_after : json :=
  JDict [("games", JList [JDict [("id", JStr "2023020001");
                                 ("awayTeam", JDict [("triCode", JStr "TOR")])]]);
         ("gameDate", JStr "2023-10-01")].

Definition fingerprint_before : SchemaFingerprint.t :=
  create_schema_fingerprint (H := runtime) 100 game_before "nhl_official" "live_game".

Definition fingerprint_after : SchemaFingerprint.t :=
  create_schema_fingerprint (H := runtime) 160 game_after "nhl_official" "live_game".

(** The live-game domain after two failed cycles. *)
Definition two_failures : DomainState.t :=
  DomainState.with_source (DomainState.init "live_game") 2 0.

End Sample.

(** Further inputs, for the statements about the rest of the code. *)
Module Inputs.

(** Another evening's score in the shape of [Sample.game_before]. *)
Definition game_later : json :=
  JDict [("games", JList [JDict [("id", JInt 2023020002);
                                 ("awayTeam", JDict [("abbrev", JStr "MTL")])]]);
         ("gameDate", JStr "2023-10-02")].

(** ESPN standings with one entry. *)
Definition espn_standings : json :=
  JDict
    [("children",
      JList
        [JDict
           [("standings",
             JDict
               [("entries",
                 JList
                   [JDict [("team",
                            JDict [("displayName", JStr "Boston Bruins");
                                   ("abbreviation", JStr "BOS")])]])])]])].

(** The live-game domain holding a payload polled at time 50. *)
Definition holding (data : json) : DomainState.t :=
  DomainState.with_times (DomainState.init "live_game") 50 50 data.

(** A team payload in the ['teams'] format, and a player payload in the
    ['data'] format. *)
Definition teams_payload : list (string * json) :=
  [("teams", JList [JDict [("triCode", JStr "TOR")]])].

Definition players_payload : list (string * json) :=
  [("data", JList [JDict [("id", JInt 8478402)]])].

(** The fields of a live-game payload with one game. *)
Definition live_game_fields : list (string * json) :=
  [("games",
    JList [JDict [("awayTeam", JDict [("id", JInt 10)]);
                  ("homeTeam", JDict [("id", JInt 8)]);
                  ("gameState", JStr "LIVE")]]);
   ("gameDate", JStr "2023-10-01")].

(** The playoffs domain with one endpoint. *)
Definition playoff_endpoints : gmap string (list DiscoveredEndpoint.t) :=
  {["playoffs" :=
      [{| DiscoveredEndpoint.url := "https://example.invalid/playoffs/now";
          DiscoveredEndpoint.domain := "playoffs";
          DiscoveredEndpoint.source_name := "nhl_official" |}]]}.

(** The payload cache of [Sample.empty_cache]. *)
Definition json_cache : JSONCache.t :=
  CacheManager.json_cache Sample.empty_cache.

End Inputs.

(* ===================================================================== *)
(** * Statements *)
(* ===================================================================== *)

(* --------------------------------------------------------------------- *)
(** ** The poller's state machine *)
(* --------------------------------------------------------------------- *)

Section PollerFacts.
Import AdaptivePoller PollerSpec.
Variable config : Backend2Config.t.
Variable endpoints : gmap string (list DiscoveredEndpoint.t).

(** A cycle refused by the rate limiter throughout runs the loop to its
    end. *)
Lemma only_rate_limited_exhausts world active attempt available rate_limits :
  only_rate_limited config world active attempt available rate_limits = true ->
  snd (poll_endpoints config world active attempt available rate_limits) = None.
Proof.
  revert attempt rate_limits.
  induction available as [|endpoint rest IH]; intros attempt rate_limits; simpl.
  - reflexivity.
  - destruct (Z.of_nat attempt <? active)%Z; [apply IH|].
    unfold _poll_endpoint.
    destruct (_check_rate_limit config rate_limits
                (DiscoveredEndpoint.source_name endpoint) (now (world attempt)))
      as [rl1 ok].
    destruct ok; simpl; [discriminate|].
    apply IH.
Qed.

(** When the endpoint loop returns a fetched result, the cycle returns it and
    the domain is back on its first source with no failures counted. *)
Lemma poll_domain_on_success
    world domain rate_limits state available rl' fetched :
  endpoints !! domain = Some available ->
  available <> [] ->
  poll_endpoints config world (DomainState.active_source_index state) 0
    available rate_limits = (rl', Some fetched) ->
  let after := _poll_domain config endpoints world domain rate_limits state in
  snd after = fetched
  /\ DomainState.active_source_index (snd (fst after)) = 0
  /\ DomainState.consecutive_failures (snd (fst after)) = 0.
Proof.
  intros Hdom Hne Hloop. cbv zeta. unfold _poll_domain. rewrite Hdom.
  destruct available as [|endpoint rest]; [congruence|].
  rewrite Hloop. cbn.
  split; [reflexivity|]. split; [|reflexivity].
  destruct (DomainState.active_source_index state =? 0)%Z eqn:E; [|reflexivity].
  apply Z.eqb_eq. exact E.
Qed.

(** When the endpoint loop runs to its end, one more failure is counted, and
    the source position moves on by one exactly when the count has reached 3
    and the list has a later endpoint. *)
Lemma poll_domain_on_exhaustion
    world domain rate_limits state available rl' :
  endpoints !! domain = Some available ->
  available <> [] ->
  poll_endpoints config world (DomainState.active_source_index state) 0
    available rate_limits = (rl', None) ->
  let state' :=
    snd (fst (_poll_domain config endpoints world domain rate_limits state)) in
  let index := DomainState.active_source_index state in
  let failures := DomainState.consecutive_failures state in
  DomainState.consecutive_failures state' = failures + 1
  /\ (3 <= failures + 1 -> index + 1 < Z.of_nat (length available) ->
      DomainState.active_source_index state' = index + 1)
  /\ (failures + 1 < 3 \/ Z.of_nat (length available) <= index + 1 ->
      DomainState.active_source_index state' = index).
Proof.
  intros Hdom Hne Hloop. cbv zeta. unfold _poll_domain. rewrite Hdom.
  destruct available as [|endpoint rest]; [congruence|].
  rewrite Hloop.
  cbn [fst snd DomainState.with_source DomainState.consecutive_failures
       DomainState.active_source_index].
  split; [reflexivity|]. split.
  - intros H3 Hlow.
    replace (3 <=? DomainState.consecutive_failures state + 1)%Z with true
      by (symmetry; apply Z.leb_le; lia).
    replace (DomainState.active_source_index state
               <? Z.of_nat (length (endpoint :: rest)) - 1)%Z with true
      by (symmetry; apply Z.ltb_lt; lia).
    reflexivity.
  - intros [Hlt | Hlast].
    + replace (3 <=? DomainState.consecutive_failures state + 1)%Z with false
        by (symmetry; apply Z.leb_gt; lia).
      reflexivity.
    + replace (DomainState.active_source_index state
                 <? Z.of_nat (length (endpoint :: rest)) - 1)%Z with false
        by (symmetry; apply Z.ltb_ge; lia).
      rewrite andb_false_r. reflexivity.
Qed.

(** The loop returns a result exactly when some polled endpoint succeeds,
    and what it returns is such an endpoint's answer. *)
Lemma poll_endpoints_attempts world active attempt available rate_limits :
  match snd (poll_endpoints config world active attempt available rate_limits) with
  | Some fetched =>
      In (Some fetched)
        (cycle_attempts config world active attempt available rate_limits)
      /\ PollResult.success fetched = true
  | None =>
      Forall (fun outcome => ~ succeeded outcome)
        (cycle_attempts config world active attempt available rate_limits)
  end.
Proof.
  revert attempt rate_limits.
  induction available as [|endpoint rest IH]; intros attempt rate_limits;
    cbn [poll_endpoints cycle_attempts].
  - constructor.
  - destruct (Z.of_nat attempt <? active)%Z; [apply IH|].
    destruct (_poll_endpoint config rate_limits endpoint (world attempt))
      as [rl1 [result|]].
    + destruct (PollResult.success result) eqn:Hs.
      * cbn [snd]. split; [left; reflexivity | exact Hs].
      * specialize (IH (S attempt) rl1).
        destruct (snd (poll_endpoints config world active (S attempt) rest rl1)).
        -- destruct IH as [Hin Hok]. split; [right; exact Hin | exact Hok].
        -- constructor; [|exact IH]. intros (r & [= <-] & Hr). congruence.
    + specialize (IH (S attempt) rl1).
      destruct (snd (poll_endpoints config world active (S attempt) rest rl1)).
      * destruct IH as [Hin Hok]. split; [right; exact Hin | exact Hok].
      * constructor; [|exact IH]. intros (r & Hr & _). discriminate.
Qed.
(** C1.  In a poll cycle of a domain that has endpoints: if any endpoint
    polled in the cycle answers with a successful result, the cycle returns
    such a result and the domain's active source index and
    consecutive-failure count are both 0 afterwards; if every polled endpoint
    failed, the consecutive-failure count is incremented by one, the active
    source index advances by exactly 1 if the count has reached 3 and a
    lower-priority endpoint exists, and is unchanged otherwise. *)
Theorem poll_domain_resets_on_success_advances_on_failure
    world domain rate_limits state available :
  endpoints !! domain = Some available ->
  available <> [] ->
  let index := DomainState.active_source_index state in
  let failures := DomainState.consecutive_failures state in
  let attempts := cycle_attempts config world index 0 available rate_limits in
  let after := _poll_domain config endpoints world domain rate_limits state in
  let state' := snd (fst after) in
  ((exists outcome, In outcome attempts /\ succeeded outcome) ->
   In (Some (snd after)) attempts
   /\ PollResult.success (snd after) = true
   /\ DomainState.active_source_index state' = 0
   /\ DomainState.consecutive_failures state' = 0)
  /\ ((forall outcome, In outcome attempts -> ~ succeeded outcome) ->
      DomainState.consecutive_failures state' = failures + 1
      /\ (3 <= failures + 1 -> index + 1 < Z.of_nat (length available) ->
          DomainState.active_source_index state' = index + 1)
      /\ (failures + 1 < 3 \/ Z.of_nat (length available) <= index + 1 ->
          DomainState.active_source_index state' = index)).
Proof.
  intros Hdom Hne. cbv zeta.
  pose proof (poll_endpoints_attempts world
                (DomainState.active_source_index state) 0 available rate_limits)
    as Hloop.
  destruct (poll_endpoints config world (DomainState.active_source_index state)
              0 available rate_limits) as [rl' [fetched|]] eqn:Hpoll;
    cbn [snd] in Hloop.
  - destruct Hloop as [Hin Hok].
    destruct (poll_domain_on_success world domain rate_limits state available
                rl' fetched Hdom Hne Hpoll) as (Hres & Hindex & Hcount).
    split.
    + intros _. rewrite Hres. auto.
    + intros Hall. exfalso. apply (Hall (Some fetched) Hin).
      exists fetched. auto.
  - split.
    + intros (outcome & Hin & Hs). exfalso.
      rewrite Forall_forall in Hloop. exact (Hloop outcome Hin Hs).
    + intros _. eapply poll_domain_on_exhaustion; eassumption.
Qed.

(** An endpoint whose source is over its limit is not fetched: whatever the
    world would have answered, [_poll_endpoint] reports the failed result
    "Rate limit exceeded", and no request time is recorded for the source. *)
Lemma poll_endpoint_over_limit rate_limits endpoint world :
  snd (_check_rate_limit config rate_limits
         (DiscoveredEndpoint.source_name endpoint) (now world)) = false ->
  snd (_poll_endpoint config rate_limits endpoint world)
  = Some (rate_limited (DiscoveredEndpoint.source_name endpoint))
  /\ PollResult.success (rate_limited (DiscoveredEndpoint.source_name endpoint))
     = false
  /\ fst (_poll_endpoint config rate_limits endpoint world)
       !! DiscoveredEndpoint.source_name endpoint
     = Some (filter (fun t => Qltb (now world - t) 60)
               (default [] (rate_limits !! DiscoveredEndpoint.source_name endpoint))).
Proof.
  unfold _poll_endpoint, _check_rate_limit.
  destruct (match find_source_config config (DiscoveredEndpoint.source_name endpoint)
            with Some sc => _ | None => false end); cbn [fst snd negb].
  - intros _. split; [reflexivity|]. split; [reflexivity|].
    apply lookup_insert_eq.
  - discriminate.
Qed.

(** In a cycle refused by the rate limiter throughout, every polled endpoint
    answers with the failed result "Rate limit exceeded". *)
Lemma only_rate_limited_attempts world active attempt available rate_limits :
  only_rate_limited config world active attempt available rate_limits = true ->
  Forall (fun outcome =>
            exists source_name, outcome = Some (rate_limited source_name))
    (cycle_attempts config world active attempt available rate_limits).
Proof.
  revert attempt rate_limits.
  induction available as [|endpoint rest IH]; intros attempt rate_limits;
    cbn [only_rate_limited cycle_attempts].
  - constructor.
  - destruct (Z.of_nat attempt <? active)%Z; [apply IH|].
    unfold _poll_endpoint.
    destruct (_check_rate_limit config rate_limits
                (DiscoveredEndpoint.source_name endpoint) (now (world attempt)))
      as [rl1 ok].
    destruct ok; cbn [negb andb]; [discriminate|].
    intros Hrest. constructor; [eauto | apply IH, Hrest].
Qed.

(** C2 (amended).  In a cycle in which every polled endpoint is refused by
    the rate limiter, each of them is reported as the failed result
    "Rate limit exceeded", and the domain's consecutive-failure count is
    incremented by one: the skip is counted like any other failure. *)
Theorem rate_limited_cycle_counts_as_failure
    world domain rate_limits state available :
  endpoints !! domain = Some available ->
  available <> [] ->
  only_rate_limited config world (DomainState.active_source_index state) 0
    available rate_limits = true ->
  Forall (fun outcome =>
            exists source_name,
              outcome = Some (rate_limited source_name)
              /\ PollResult.success (rate_limited source_name) = false)
    (cycle_attempts config world (DomainState.active_source_index state) 0
       available rate_limits)
  /\ DomainState.consecutive_failures
       (snd (fst (_poll_domain config endpoints world domain rate_limits state)))
     = DomainState.consecutive_failures state + 1.
Proof.
  intros Hdom Hne Hlimited.
  split.
  - eapply Forall_impl; [|apply only_rate_limited_attempts, Hlimited].
    intros outcome [source_name ->]. eauto.
  - pose proof (only_rate_limited_exhausts _ _ _ _ _ Hlimited) as Hnone.
    destruct (poll_endpoints config world (DomainState.active_source_index state)
                0 available rate_limits) as [rl' outcome] eqn:Hloop.
    cbn [snd] in Hnone. subst outcome.
    eapply poll_domain_on_exhaustion; eassumption.
Qed.

(** [_update_game_state] writes the game fields only. *)
Lemma update_game_state_source state data :
  DomainState.active_source_index (fst (_update_game_state state data))
  = DomainState.active_source_index state
  /\ DomainState.consecutive_failures (fst (_update_game_state state data))
     = DomainState.consecutive_failures state.
Proof.
  unfold _update_game_state.
  repeat match goal with
         | |- context [match ?x with _ => _ end] => destruct x
         end; cbn; auto.
Qed.

(** [_update_domain_state] leaves the source position and the failure count
    as [_poll_domain] set them. *)
Lemma update_domain_state_source domain current_time state poll_result :
  let state' :=
    fst (_update_domain_state config domain current_time state poll_result) in
  DomainState.active_source_index state' = DomainState.active_source_index state
  /\ DomainState.consecutive_failures state'
     = DomainState.consecutive_failures state.
Proof.
  cbv zeta. unfold _update_domain_state.
  destruct (PollResult.success poll_result); cbn [fst snd].
  - destruct (truthy (PollResult.data poll_result)
              && negb (PollResult.cached poll_result)); cbn [fst snd].
    + destruct (String.eqb domain "live_game").
      * match goal with
        | |- context [_update_game_state ?s ?d] =>
            pose proof (update_game_state_source s d) as [Hi Hf];
            destruct (_update_game_state s d) as [s' [u|e]]
        end; cbn in *; auto.
      * cbn; auto.
    + cbn; auto.
  - cbn; auto.
Qed.

(** One cycle keeps the active source index a position of the endpoint list. *)
Lemma poll_cycle_valid_index world update_time domain rate_limits state :
  valid_index (endpoints !! domain) (DomainState.active_source_index state) ->
  valid_index (endpoints !! domain)
    (DomainState.active_source_index
       (snd (fst (poll_cycle config endpoints world update_time domain
                    rate_limits state)))).
Proof.
  intros Hvalid. unfold poll_cycle.
  assert (valid_index (endpoints !! domain)
            (DomainState.active_source_index
               (snd (fst (_poll_domain config endpoints world domain
                            rate_limits state))))) as Hpoll.
  { unfold _poll_domain.
    destruct (endpoints !! domain) as [[|endpoint rest]|] eqn:Hdom;
      cbn [fst snd]; try exact Hvalid.
    destruct (poll_endpoints config world (DomainState.active_source_index state)
                0 (endpoint :: rest) rate_limits) as [rl' [fetched|]];
      cbn [fst snd DomainState.with_source DomainState.active_source_index].
    - unfold valid_index.
      destruct (DomainState.active_source_index state =? 0)%Z eqn:E;
        [apply Z.eqb_eq in E; rewrite E|]; cbn [length]; lia.
    - unfold valid_index in *.
      destruct (3 <=? DomainState.consecutive_failures state + 1)%Z;
        cbn [andb]; [|exact Hvalid].
      destruct (DomainState.active_source_index state
                  <? Z.of_nat (length (endpoint :: rest)) - 1)%Z eqn:E;
        [apply Z.ltb_lt in E; lia | exact Hvalid]. }
  destruct (_poll_domain config endpoints world domain rate_limits state)
    as [[rl' state1] poll_result]. cbn [fst snd] in Hpoll.
  pose proof (update_domain_state_source domain update_time state1 poll_result)
    as [Hindex _].
  destruct (_update_domain_state config domain update_time state1 poll_result)
    as [state2 [u|e]]; cbn [fst snd] in *; rewrite Hindex; exact Hpoll.
Qed.

(** C7.  After any number of turns of a domain's polling loop, started from
    the state the poller's constructor creates and whatever the endpoints
    answer, the active source index is a valid index into the domain's
    endpoint list ([0 <= index < length]), or 0 when the list is empty or
    the domain has none. *)
Theorem active_source_index_always_valid domain turns rate_limits :
  valid_index (endpoints !! domain)
    (DomainState.active_source_index
       (snd (run_cycles config endpoints domain turns rate_limits
               (DomainState.init domain)))).
Proof.
  assert (forall state rl,
             valid_index (endpoints !! domain)
               (DomainState.active_source_index state) ->
             valid_index (endpoints !! domain)
               (DomainState.active_source_index
                  (snd (run_cycles config endpoints domain turns rl state))))
    as Hrun.
  { induction turns as [|[world update_time] turns' IH]; intros state rl Hvalid.
    - exact Hvalid.
    - cbn [run_cycles].
      pose proof (poll_cycle_valid_index world update_time domain rl state Hvalid)
        as Hstep.
      destruct (poll_cycle config endpoints world update_time domain rl state)
        as [[rl1 state1] notified]. cbn [fst snd] in Hstep.
      apply IH. exact Hstep. }
  apply Hrun. unfold valid_index. cbn.
  destruct (endpoints !! domain) as [[|endpoint rest]|]; cbn [length]; lia.
Qed.

End PollerFacts.

(** C1, at a domain with three endpoints that all answer HTTP 503, in the
    cycle after two failed ones: the third failure moves the domain to
    endpoint 1. *)
Lemma poll_domain_third_failure_falls_back :
  DomainState.consecutive_failures
    (snd (fst (AdaptivePoller._poll_domain Sample.config Sample.endpoints
                 Sample.all_down "live_game" ∅ Sample.two_failures))) = 3
  /\ DomainState.active_source_index
       (snd (fst (AdaptivePoller._poll_domain Sample.config Sample.endpoints
                    Sample.all_down "live_game" ∅ Sample.two_failures))) = 1.
Proof.
  assert (Sample.endpoints !! "live_game" = Some Sample.three_sources) as Hdom
    by (vm_compute; reflexivity).
  assert (Sample.three_sources <> []) as Hne by discriminate.
  destruct (poll_domain_resets_on_success_advances_on_failure
              Sample.config Sample.endpoints Sample.all_down "live_game" ∅
              Sample.two_failures Sample.three_sources Hdom Hne)
    as [_ Hfailed].
  destruct Hfailed as (Hcount & Hadvance & _).
  - intros outcome Hin (result & -> & Hok).
    vm_compute in Hin.
    repeat match goal with H : _ \/ _ |- _ => destruct H end;
      try contradiction;
      match goal with H : Some _ = Some _ |- _ => injection H as <- end;
      discriminate Hok.
  - split; [exact Hcount|]. apply Hadvance; cbn; lia.
Defined.

(** C2 as worded fails: [espn], the only endpoint, is over its limit of two
    requests a minute, nothing else goes wrong, and the cycle still counts a
    failure. *)
Lemma rate_limited_cycle_is_counted :
  ~ PollerSpec.rate_limit_skip_not_counted Sample.config Sample.espn_only
      Sample.all_up "live_game" Sample.espn_busy (DomainState.init "live_game").
Proof.
  intros Hclaim.
  specialize (Hclaim [Sample.endpoint "espn"]).
  assert (Sample.espn_only !! "live_game" = Some [Sample.endpoint "espn"]) as Hdom
    by (vm_compute; reflexivity).
  specialize (Hclaim Hdom ltac:(discriminate) ltac:(vm_compute; reflexivity)).
  vm_compute in Hclaim. discriminate.
Qed.

(** C2 (amended), at the same cycle: one failure is counted. *)
Lemma rate_limited_cycle_counts_as_failure_at_espn :
  DomainState.consecutive_failures
    (snd (fst (AdaptivePoller._poll_domain Sample.config Sample.espn_only
                 Sample.all_up "live_game" Sample.espn_busy
                 (DomainState.init "live_game")))) = 1.
Proof.
  assert (Sample.espn_only !! "live_game" = Some [Sample.endpoint "espn"]) as Hdom
    by (vm_compute; reflexivity).
  assert ([Sample.endpoint "espn"] <> []) as Hne by discriminate.
  assert (PollerSpec.only_rate_limited Sample.config Sample.all_up
            (DomainState.active_source_index (DomainState.init "live_game")) 0
            [Sample.endpoint "espn"] Sample.espn_busy = true) as Hlimited
    by (vm_compute; reflexivity).
  exact (proj2 (rate_limited_cycle_counts_as_failure
                  Sample.config Sample.espn_only Sample.all_up "live_game"
                  Sample.espn_busy (DomainState.init "live_game")
                  [Sample.endpoint "espn"] Hdom Hne Hlimited)).
Defined.

(* --------------------------------------------------------------------- *)
(** ** The structural change score *)
(* --------------------------------------------------------------------- *)

Section FingerprintFacts.
Context `{Runtime}.
Import SchemaCache.

(** Whatever the order, iterating a set gives every member once. *)
Lemma NoDup_set_order (s : gset string) : base.NoDup (set_order s).
Proof. rewrite set_order_perm. apply NoDup_elements. Qed.

Lemma elem_of_set_order (s : gset string) k : k ∈ set_order s <-> k ∈ s.
Proof. rewrite set_order_perm. apply elem_of_elements. Qed.

Lemma length_set_order (s : gset string) : length (set_order s) = size s.
Proof. rewrite set_order_perm. reflexivity. Qed.

Lemma set_order_empty : set_order (∅ : gset string) = [].
Proof.
  apply Permutation_nil. symmetry. rewrite set_order_perm, elements_empty.
  reflexivity.
Qed.

Lemma changed_types_fst old new common :
  (changed_types old new common).*1
  = base.filter (fun key => SchemaFingerprint.type_signatures old !! key
                            <> SchemaFingerprint.type_signatures new !! key) common.
Proof.
  induction common as [|key common IH]; [reflexivity|].
  rewrite filter_cons. unfold changed_types in *. cbn [omap list_omap].
  destruct (decide (SchemaFingerprint.type_signatures old !! key
                    = SchemaFingerprint.type_signatures new !! key)) as [E|E].
  - rewrite decide_False by (intros Hne; exact (Hne E)). exact IH.
  - rewrite decide_True by exact E. cbn [fmap list_fmap fst]. f_equal. exact IH.
Qed.

Lemma length_changed_types old new common :
  (length (changed_types old new common) <= length common)%nat.
Proof.
  rewrite <- (length_fmap fst), changed_types_fst.
  apply length_filter.
Qed.

Lemma fingerprint_key_partition (O N : gset string) :
  size (O ∪ N) = (size (N ∖ O) + size (O ∖ N) + size (O ∩ N))%nat.
Proof.
  rewrite <- size_union by set_solver.
  rewrite <- size_union by set_solver.
  f_equal. apply set_eq. intros k.
  destruct (decide (k ∈ O)), (decide (k ∈ N)); set_solver.
Qed.


Lemma Qdiv_nat_bounds (c t : nat) :
  (0 < t)%nat -> (c <= t)%nat ->
  (0 <= inject_Z (Z.of_nat c) / inject_Z (Z.of_nat t) <= 1)%Q.
Proof.
  intros Ht Hc.
  assert (0 < inject_Z (Z.of_nat t))%Q as Hpos.
  { change 0%Q with (inject_Z 0). rewrite <- Zlt_Qlt. lia. }
  split.
  - apply Qle_shift_div_l; [exact Hpos|].
    rewrite Qmult_0_l. change 0%Q with (inject_Z 0). rewrite <- Zle_Qle. lia.
  - apply Qle_shift_div_r; [exact Hpos|].
    rewrite Qmult_1_l. rewrite <- Zle_Qle. lia.
Qed.

Lemma Qdiv_same (n : nat) :
  (0 < n)%nat -> (inject_Z (Z.of_nat n) / inject_Z (Z.of_nat n) == 1)%Q.
Proof.
  intros Hn. apply Qmult_inv_r.
  change 0%Q with (inject_Z 0). rewrite inject_Z_injective. lia.
Qed.

(** C3.  [compare_fingerprints] lists the added, the removed and the
    type-changed key-paths, each once; its structural change score is their
    number divided by the size of the union of both key-path sets (when that
    is not empty), and lies in [0,1]; two fingerprints with the same key-path
    set and the same type map score 0; a non-empty fingerprint against an
    empty one, either way round, scores 1. *)
Theorem compare_fingerprints_score old new :
  let changes := compare_fingerprints old new in
  let in_old k := k ∈ SchemaFingerprint.key_paths old in
  let in_new k := k ∈ SchemaFingerprint.key_paths new in
  let old_type k := SchemaFingerprint.type_signatures old !! k in
  let new_type k := SchemaFingerprint.type_signatures new !! k in
  let total :=
    size (list_to_set (SchemaFingerprint.key_paths old)
          ∪ list_to_set (SchemaFingerprint.key_paths new) : gset string) in
  let changed :=
    (length (Changes.new_keys changes) + length (Changes.removed_keys changes)
     + length (Changes.type_changes changes))%nat in
  let score := Changes.structural_change_score changes in
  enumerates (Changes.new_keys changes) (fun k => in_new k /\ ~ in_old k)
  /\ enumerates (Changes.removed_keys changes) (fun k => in_old k /\ ~ in_new k)
  /\ enumerates (Changes.type_changes changes).*1
       (fun k => in_old k /\ in_new k /\ old_type k <> new_type k)
  /\ ((0 < total)%nat ->
      (score == inject_Z (Z.of_nat changed) / inject_Z (Z.of_nat total))%Q)
  /\ (0 <= score <= 1)%Q
  /\ ((forall k, in_old k <-> in_new k) ->
      SchemaFingerprint.type_signatures old = SchemaFingerprint.type_signatures new ->
      (score == 0)%Q)
  /\ (SchemaFingerprint.key_paths new = [] ->
      SchemaFingerprint.key_paths old <> [] -> (score == 1)%Q)
  /\ (SchemaFingerprint.key_paths old = [] ->
      SchemaFingerprint.key_paths new <> [] -> (score == 1)%Q).
Proof.
  cbv zeta.
  set (O := list_to_set (SchemaFingerprint.key_paths old) : gset string).
  set (N := list_to_set (SchemaFingerprint.key_paths new) : gset string).
  assert (forall k, k ∈ O <-> k ∈ SchemaFingerprint.key_paths old) as HO
    by (intros k; apply elem_of_list_to_set).
  assert (forall k, k ∈ N <-> k ∈ SchemaFingerprint.key_paths new) as HN
    by (intros k; apply elem_of_list_to_set).
  unfold compare_fingerprints. fold O N. cbn [Changes.new_keys Changes.removed_keys
    Changes.type_changes Changes.structural_change_score].
  assert (length (set_order (N ∖ O)) + length (set_order (O ∖ N))
          + length (changed_types old new (set_order (O ∩ N)))
          <= size (O ∪ N))%nat as Hle.
  { rewrite fingerprint_key_partition.
    pose proof (length_changed_types old new (set_order (O ∩ N))) as Hc.
    rewrite !length_set_order in *. lia. }
  split; [|split; [|split; [|split; [|split; [|split; [|split]]]]]].
  - split; [apply NoDup_set_order|]. intros k.
    rewrite elem_of_set_order, elem_of_difference, HO, HN. reflexivity.
  - split; [apply NoDup_set_order|]. intros k.
    rewrite elem_of_set_order, elem_of_difference, HO, HN. reflexivity.
  - rewrite changed_types_fst.
    split; [apply list.NoDup_filter, NoDup_set_order|]. intros k.
    rewrite list_elem_of_filter, elem_of_set_order, elem_of_intersection, HO, HN.
    tauto.
  - intros Hpos. apply Nat.ltb_lt in Hpos. rewrite Hpos. reflexivity.
  - destruct (0 <? size (O ∪ N))%nat eqn:Hpos.
    + apply Nat.ltb_lt in Hpos. apply Qdiv_nat_bounds; assumption.
    + split; [apply Qle_refl | discriminate].
  - intros Hsame Htypes.
    assert (O = N) as -> by (apply set_eq; intros k; rewrite HO, HN; apply Hsame).
    assert (length (set_order (N ∖ N)) + length (set_order (N ∖ N))
            + length (changed_types old new (set_order (N ∩ N))) = 0)%nat as ->.
    { rewrite (difference_diag_L N), set_order_empty.
      replace (changed_types old new (set_order (N ∩ N))) with
        (@nil (string * (option string * option string))); [reflexivity|].
      symmetry. apply (fmap_nil_inv fst). rewrite changed_types_fst.
      rewrite Htypes. clear. induction (set_order (N ∩ N)) as [|k l IH]; [reflexivity|].
      rewrite filter_cons, decide_False by (intros Hne; exact (Hne eq_refl)).
      exact IH. }
    destruct (0 <? size (N ∪ N))%nat; [|reflexivity].
    unfold Qdiv. rewrite Qmult_0_l. reflexivity.
  - intros Hnew Hold.
    assert (N = ∅) as HN0 by (subst N; rewrite Hnew; reflexivity).
    assert (0 < size O)%nat as Hpos.
    { destruct (SchemaFingerprint.key_paths old) as [|k l] eqn:E; [congruence|].
      enough (size O <> 0)%nat by lia. intros Hz.
      apply size_empty_iff in Hz.
      apply (not_elem_of_empty (C:=gset string) k). rewrite <- Hz.
      apply HO. left. }
    assert (length (set_order (N ∖ O)) + length (set_order (O ∖ N))
            + length (changed_types old new (set_order (O ∩ N))) = size O
            /\ size (O ∪ N) = size O)%nat as [-> ->].
    { rewrite HN0.
      replace (∅ ∖ O) with (∅ : gset string)
        by (apply set_eq; intros k; rewrite elem_of_difference, elem_of_empty; tauto).
      replace (O ∖ ∅) with O
        by (apply set_eq; intros k; rewrite elem_of_difference, elem_of_empty; tauto).
      replace (O ∩ ∅) with (∅ : gset string)
        by (apply set_eq; intros k; rewrite elem_of_intersection, elem_of_empty; tauto).
      replace (O ∪ ∅) with O
        by (apply set_eq; intros k; rewrite elem_of_union, elem_of_empty; tauto).
      rewrite set_order_empty, length_set_order. cbn. lia. }
    apply Nat.ltb_lt in Hpos as Hb. rewrite Hb. apply Qdiv_same. exact Hpos.
  - intros Hold Hnew.
    assert (O = ∅) as HO0 by (subst O; rewrite Hold; reflexivity).
    assert (0 < size N)%nat as Hpos.
    { destruct (SchemaFingerprint.key_paths new) as [|k l] eqn:E; [congruence|].
      enough (size N <> 0)%nat by lia. intros Hz.
      apply size_empty_iff in Hz.
      apply (not_elem_of_empty (C:=gset string) k). rewrite <- Hz.
      apply HN. left. }
    assert (length (set_order (N ∖ O)) + length (set_order (O ∖ N))
            + length (changed_types old new (set_order (O ∩ N))) = size N
            /\ size (O ∪ N) = size N)%nat as [-> ->].
    { rewrite HO0.
      replace (∅ ∖ N) with (∅ : gset string)
        by (apply set_eq; intros k; rewrite elem_of_difference, elem_of_empty; tauto).
      replace (N ∖ ∅) with N
        by (apply set_eq; intros k; rewrite elem_of_difference, elem_of_empty; tauto).
      replace (∅ ∩ N) with (∅ : gset string)
        by (apply set_eq; intros k; rewrite elem_of_intersection, elem_of_empty; tauto).
      replace (∅ ∪ N) with N
        by (apply set_eq; intros k; rewrite elem_of_union, elem_of_empty; tauto).
      rewrite set_order_empty, length_set_order. cbn. lia. }
    apply Nat.ltb_lt in Hpos as Hb. rewrite Hb. apply Qdiv_same. exact Hpos.
Qed.


End FingerprintFacts.

(* --------------------------------------------------------------------- *)
(** ** The payload cache *)
(* --------------------------------------------------------------------- *)

Section CacheFacts.
Context `{Runtime}.

(** Reading a key back before its entry expires returns what [set] stored and
    leaves the cache as it is. *)
Lemma get_after_set_within_ttl (c : JSONCache.t) (now now' : Q) (key : string)
    (data : json) (ttl_seconds : Z) (etag last_modified source_url : option string) :
  (now' <= now + inject_Z ttl_seconds)%Q ->
  let c1 := fst (JSONCache.set c now key data ttl_seconds etag last_modified
                   source_url) in
  exists entry,
    JSONCache.get c1 now' key = (c1, Some entry)
    /\ CacheEntry.key entry = key
    /\ CacheEntry.data entry = data
    /\ CacheEntry.etag entry = opt_str etag
    /\ CacheEntry.last_modified entry = opt_str last_modified
    /\ CacheEntry.source_url entry = opt_str source_url
    /\ CacheEntry.ttl_seconds entry = JInt ttl_seconds.
Proof.
  intros Hfresh. cbv zeta.
  unfold JSONCache.get, JSONCache.set. cbn [fst JSONCache.index JSONCache.files
    JSONCache.cache_dir].
  rewrite lookup_insert_eq.
  unfold JSONCache._get_cache_path at 1. cbn [JSONCache.cache_dir].
  unfold JSONCache._get_cache_path. rewrite lookup_insert_eq.
  cbn [JSONCache.expires_at].
  unfold Qltb.
  replace (Qle_bool now' (now + inject_Z ttl_seconds)) with true
    by (symmetry; apply Qle_bool_iff; exact Hfresh).
  cbn. eexists. split; [reflexivity|]. cbn. repeat split; reflexivity.
Qed.

End CacheFacts.

(* --------------------------------------------------------------------- *)
(** ** Key-path extraction *)
(* --------------------------------------------------------------------- *)

(** Induction on a JSON value, with the hypothesis for every item of a list
    and every value of a dict. *)
Lemma json_nested_ind (P : json -> Prop) :
  P JNull -> (forall b, P (JBool b)) -> (forall n, P (JInt n)) ->
  (forall q, P (JFloat q)) -> (forall s, P (JStr s)) ->
  (forall items, Forall P items -> P (JList items)) ->
  (forall fields, Forall (fun kv => P (snd kv)) fields -> P (JDict fields)) ->
  forall v, P v.
Proof.
  intros HN HB HI HF HS HL HD.
  fix IH 1. intros [| b | n | q | s | items | fields].
  - exact HN.
  - apply HB.
  - apply HI.
  - apply HF.
  - apply HS.
  - apply HL.
    exact ((fix all (l : list json) : Forall P l :=
              match l with
              | [] => @Forall_nil _ _
              | v :: l' => @Forall_cons _ _ v l' (IH v) (all l')
              end) items).
  - apply HD.
    exact ((fix all (l : list (string * json))
              : Forall (fun kv => P (snd kv)) l :=
              match l with
              | [] => @Forall_nil _ _
              | kv :: l' => @Forall_cons _ _ kv l' (IH (snd kv)) (all l')
              end) fields).
Qed.

Section KeyPathFacts.
Context `{Runtime}.

(** A dict of scalars contributes one key path per field. *)
Lemma extract_paths_scalars (fields : list (string * json)) path acc :
  Forall (fun kv => is_container (snd kv) = false) fields ->
  length (fst (extract_paths (JDict fields) path acc))
  = (length (fst acc) + length fields)%nat.
Proof.
  intros Hscalar. revert acc. cbn [extract_paths].
  induction Hscalar as [|[key value] fields Hvalue _ IH]; intros acc.
  - cbn. lia.
  - cbn [length]. rewrite IH.
    destruct value; try discriminate Hvalue; cbn; rewrite length_app; cbn; lia.
Qed.

Lemma wide_payload_scalars n :
  Forall (fun kv : string * json => is_container (snd kv) = false)
    (map (fun i => (("k" ++ str_of_Z (Z.of_nat i))%string, JInt 0)) (seq 0 n)).
Proof. apply Forall_forall. intros kv Hin. apply in_map_iff in Hin as (i & <- & _). reflexivity. Qed.

Lemma fingerprint_of_wide_payload now n source_name domain :
  length (SchemaFingerprint.key_paths
            (create_schema_fingerprint now (Sample.wide_payload n) source_name domain))
  = n.
Proof.
  unfold create_schema_fingerprint.
  pose proof (extract_paths_scalars _ "" ([], ∅) (wide_payload_scalars n)) as Hlen.
  fold (Sample.wide_payload n) in Hlen.
  destruct (extract_paths (Sample.wide_payload n) "" ([], ∅)) as [key_paths types].
  cbn in *. rewrite Hlen, length_map, length_seq. reflexivity.
Qed.

(** [extract_paths] appends the paths of the keys it visits, in the order
    of the walk. *)
Lemma extract_paths_visited : forall obj path acc,
  fst (extract_paths obj path acc) = fst acc ++ visited_paths obj path.
Proof.
  induction obj as [| | | | | items IH | fields IH] using json_nested_ind;
    intros path acc; try (cbn; rewrite app_nil_r; reflexivity).
  - destruct items as [|first rest]; [cbn; rewrite app_nil_r; reflexivity|].
    cbn [extract_paths visited_paths]. inversion IH; subst. auto.
  - cbn [extract_paths visited_paths]. revert acc.
    induction IH as [|[key value] fields Hvalue _ IHfields]; intros acc.
    + rewrite app_nil_r. reflexivity.
    + cbn [snd] in Hvalue. rewrite IHfields, Hvalue. cbn [fst].
      rewrite <- !app_assoc. reflexivity.
Qed.

(** One path for every key visited. *)
Lemma length_visited_paths : forall obj path,
  length (visited_paths obj path) = keys_visited obj.
Proof.
  induction obj as [| | | | | items IH | fields IH] using json_nested_ind;
    intros path; try reflexivity.
  - destruct items as [|first rest]; [reflexivity|].
    cbn [visited_paths keys_visited]. inversion IH; subst. auto.
  - cbn [visited_paths keys_visited].
    induction IH as [|[key value] fields Hvalue _ IHfields]; [reflexivity|].
    cbn [snd] in Hvalue.
    rewrite length_app. cbn [length]. rewrite Hvalue, IHfields. reflexivity.
Qed.

(** C8 (amended).  The expected-key extraction used by Discovery never
    returns more than 50 key paths, whatever the payload.  The key-path
    extraction that builds schema fingerprints has no cap: the key paths of
    a fingerprint are the paths of the dict keys it visits, in the order of
    the walk, one for every key visited (every key of a dict and what is
    below its value, and of a list that is not empty what is below its first
    item); so for every [n] there is a payload whose fingerprint lists [n]
    key paths. *)
Theorem expected_keys_capped_fingerprint_paths_not :
  (forall data domain, (length (_extract_expected_keys data domain) <= 50)%nat)
  /\ (forall now data source_name domain,
        let key_paths :=
          SchemaFingerprint.key_paths
            (create_schema_fingerprint now data source_name domain) in
        key_paths = visited_paths data ""
        /\ length key_paths = keys_visited data)
  /\ (forall now source_name domain n,
        exists data,
          length (SchemaFingerprint.key_paths
                    (create_schema_fingerprint now data source_name domain)) = n).
Proof.
  split; [|split].
  - intros data domain. unfold _extract_expected_keys.
    rewrite length_take. lia.
  - intros now data source_name domain. cbv zeta.
    pose proof (extract_paths_visited data "" ([], ∅)) as Hpaths.
    unfold create_schema_fingerprint.
    destruct (extract_paths data "" ([], ∅)) as [key_paths types].
    cbn [fst SchemaFingerprint.key_paths app] in *. subst key_paths.
    split; [reflexivity | apply length_visited_paths].
  - intros now source_name domain n. exists (Sample.wide_payload n).
    apply fingerprint_of_wide_payload.
Qed.

End KeyPathFacts.

(** C8 as worded fails for the fingerprint: a payload with 51 scalar fields
    has 51 key paths in its fingerprint. *)
Lemma fingerprint_key_paths_exceed_cap :
  ~ key_paths_capped (H := Sample.runtime) (Sample.wide_payload 51).
Proof.
  intros [_ Hcap].
  rewrite (fingerprint_of_wide_payload (H := Sample.runtime)) in Hcap. lia.
Qed.

(* --------------------------------------------------------------------- *)
(** ** Path resolution *)
(* --------------------------------------------------------------------- *)

Section PathFacts.

(** [c in s] for a one-character string, by cases on the first character *)
Lemma contains_char_cons ch c s :
  PyStr.contains (String ch "") (String c s)
  = Ascii.eqb ch c || PyStr.contains (String ch "") s.
Proof.
  cbn [PyStr.contains String.prefix].
  destruct (ascii_dec ch c) as [->|Hne].
  - rewrite Ascii.eqb_refl. destruct s; reflexivity.
  - apply Ascii.eqb_neq in Hne. rewrite Hne. reflexivity.
Qed.

(** A part that contains a bracket has something after it. *)
Lemma split_bracket_second part :
  PyStr.contains "[" part = true ->
  exists s, PyStr.second_part (PyStr.split "[" part) = Ok s.
Proof.
  induction part as [|c part IH]; [discriminate|].
  cbn [PyStr.split].
  destruct (Ascii.eqb c "[") eqn:Ec.
  - intros _. destruct (PyStr.split "[" part) as [|p ps] eqn:E.
    + destruct part; cbn in E; [discriminate|].
      destruct (Ascii.eqb a "["); [discriminate|].
      destruct (PyStr.split "[" part); discriminate.
    + eexists. reflexivity.
  - intros Hc.
    assert (PyStr.contains "[" part = true) as Hrest.
    { rewrite contains_char_cons, Ascii.eqb_sym, Ec in Hc. exact Hc. }
    destruct (IH Hrest) as [s Hs].
    destruct (PyStr.split "[" part) as [|p [|q ps]]; try discriminate.
    eexists. reflexivity.
Qed.

(** On a dict, one step of the path walk returns: the addressed value, or
    [None] for a missing key, a value that is no list, an index that is no
    integer, or an index out of range. *)
Lemma extract_part_dict_returns d part :
  exists v, extract_part (JDict d) part = Ok v.
Proof.
  unfold extract_part.
  destruct (PyStr.contains "[" part && PyStr.contains "]" part) eqn:Hbr.
  - apply andb_true_iff in Hbr as [Hopen _].
    destruct (split_bracket_second part Hopen) as [s ->]. cbn [mbind Res_bind].
    destruct (negb (String.eqb (PyStr.first_part (PyStr.split "[" part)) "")).
    + cbn [py_in mbind Res_bind].
      destruct (dict_lookup (PyStr.first_part (PyStr.split "[" part)) d)
        as [x|] eqn:Hx.
      * rewrite bool_decide_eq_true_2 by eauto. cbn [subscript]. rewrite Hx.
        cbn [mbind Res_bind].
        destruct x; eauto.
        destruct (PyStr.int_of_string _) as [index|[]] eqn:Hi; eauto;
          try (unfold PyStr.int_of_string in Hi;
               repeat match type of Hi with
                      | context [match ?x with _ => _ end] => destruct x
                      end; discriminate).
        destruct (_ && _); eauto.
      * rewrite bool_decide_eq_false_2 by (intros [? ?]; discriminate).
        cbn [mbind Res_bind]. eauto.
    + cbn [mbind Res_bind]. eauto.
  - eauto.
Qed.

End PathFacts.

(** C9 fails on the payload of an actual rule path: a number where the ESPN
    rules expect a competition makes [key in current] raise [TypeError]. *)
Lemma extract_value_by_path_raises_on_scalar :
  _extract_value_by_path Sample.scalar_competition
    "competitions[0].competitors[1].team.id" = Raise TypeError.
Proof. reflexivity. Qed.

(* --------------------------------------------------------------------- *)
(** ** The normalizer's entry point *)
(* --------------------------------------------------------------------- *)

Section NormalizerFacts.
Context `{Runtime}.
Import DataParser.

Lemma dict_lookup_set k v d : dict_lookup k (dict_set k v d) = Some v.
Proof.
  induction d as [|[k' v'] d IH]; cbn.
  - rewrite String.eqb_refl. reflexivity.
  - destruct (String.eqb k k') eqn:E; cbn; rewrite E; [reflexivity | exact IH].
Qed.

Lemma set_parts_dict parts : forall current value r,
  is_dict current = true ->
  set_parts current parts value = Ok r -> is_dict r = true.
Proof.
  induction parts as [|part parts IH]; intros current value r Hd; cbn.
  - intros [= <-]. exact Hd.
  - destruct current; try discriminate Hd.
    destruct parts as [|p ps].
    + cbn. intros [= <-]. reflexivity.
    + destruct (set_parts _ (p :: ps) value) as [child|e]; cbn; [|discriminate].
      intros [= <-]. reflexivity.
Qed.

Lemma set_value_by_path_dict data path value r :
  is_dict data = true ->
  _set_value_by_path data path value = Ok r -> is_dict r = true.
Proof.
  unfold _set_value_by_path. intros Hd.
  destruct (String.eqb path ""); [intros [= <-]; exact Hd|].
  apply set_parts_dict. exact Hd.
Qed.

Lemma guarded_apply_rule_dict data r result :
  is_dict result = true -> is_dict (guarded (apply_rule data r) result) = true.
Proof.
  intros Hd. unfold guarded.
  destruct (apply_rule data r result) as [result'|e] eqn:E; [|exact Hd].
  unfold apply_rule in E.
  destruct (_extract_value_by_path data (ParsingRule.source_path r)) as [v|];
    cbn [mbind Res_bind] in E; [|discriminate].
  match type of E with
  | (mbind _ ?m) = _ => destruct m as [v'|]; cbn [mbind Res_bind] in E; [|discriminate]
  end.
  destruct (is_none v'); [injection E as <-; exact Hd|].
  eapply set_value_by_path_dict; eassumption.
Qed.

Lemma guarded_apply_top_level_rule_dict data r result :
  is_dict result = true ->
  is_dict (guarded (apply_top_level_rule data r) result) = true.
Proof.
  intros Hd. unfold guarded.
  destruct (apply_top_level_rule data r result) as [result'|e] eqn:E; [|exact Hd].
  unfold apply_top_level_rule in E.
  destruct (_extract_value_by_path data (ParsingRule.source_path r)) as [v|];
    cbn [mbind Res_bind] in E; [|discriminate].
  match type of E with
  | (mbind _ ?m) = _ => destruct m as [v'|]; cbn [mbind Res_bind] in E; [|discriminate]
  end.
  destruct (is_none v'); [injection E as <-; exact Hd|].
  eapply set_value_by_path_dict; eassumption.
Qed.

Lemma fold_guarded_dict {A} (f : json -> A -> json) (l : list A) :
  (forall result a, is_dict result = true -> is_dict (f result a) = true) ->
  forall result, is_dict result = true -> is_dict (fold_left f l result) = true.
Proof.
  intros Hf. induction l as [|a l IH]; intros result Hd; cbn; [exact Hd|].
  apply IH, Hf, Hd.
Qed.

(** What [_apply_rules] returns is a dict. *)
Lemma apply_rules_dict depth : forall data rules r,
  _apply_rules depth data rules = Ok r -> is_dict r = true.
Proof.
  induction depth as [|depth IH]; intros data rules r; cbn [_apply_rules];
    [discriminate|].
  destruct (_is_array_data data rules) as [[|]|e]; cbn [mbind Res_bind];
    [| |discriminate].
  - unfold _apply_rules_to_array.
    destruct (find_array data rules JNull) as [[array_field array_data]|e];
      cbn [mbind Res_bind]; [|discriminate].
    destruct (negb (truthy array_data)); [apply IH|].
    destruct (py_iter array_data) as [items|e]; cbn [mbind Res_bind];
      [|discriminate].
    destruct (mapM _ items) as [processed|e]; cbn [mbind Res_bind];
      [|discriminate].
    assert (is_dict
              (fold_left
                 (fun result r0 =>
                    if negb (has_indicator (ParsingRule.source_path r0))
                    then guarded (apply_top_level_rule data r0) result
                    else result) rules (JDict [])) = true) as Htop.
    { apply fold_guarded_dict; [|reflexivity].
      intros result a Hd. destruct (negb _); [|exact Hd].
      apply guarded_apply_top_level_rule_dict, Hd. }
    destruct array_field as [field|]; [|intros [= <-]; exact Htop].
    destruct (String.eqb field ""); [intros [= <-]; exact Htop|].
    apply set_value_by_path_dict, Htop.
  - intros [= <-]. apply fold_guarded_dict; [|reflexivity].
    intros result a Hd. apply guarded_apply_rule_dict, Hd.
Qed.

(** In no rule table does a target path continue another one's. *)
Lemma rule_tables_have_no_nested_targets :
  forallb (fun domain_rules =>
             forallb (fun entry => negb (nested_targets (snd entry)))
               (snd domain_rules))
    _initialize_parsing_rules = true.
Proof. vm_compute. reflexivity. Qed.

(** The rules are adapted exactly when a fingerprint is cached for the source
    and domain and the fresh payload's structural change score against it
    is above the drift threshold. *)
Lemma adaptive_parsing_adapts_above_threshold cache now depth raw_data rules
    domain source_name :
  snd (_apply_adaptive_parsing cache now depth raw_data rules domain source_name)
  = _apply_rules depth raw_data
      match CacheManager.get_schema_fingerprint cache source_name domain with
      | Some old =>
          let changes :=
            SchemaCache.compare_fingerprints old
              (create_schema_fingerprint now raw_data source_name domain) in
          if Qltb drift_threshold (Changes.structural_change_score changes)
          then fold_left (fun adapted removed_key =>
                            map (adapt_rule removed_key raw_data) adapted)
                 (Changes.removed_keys changes) rules
          else rules
      | None => rules
      end.
Proof.
  unfold _apply_adaptive_parsing, CacheManager.update_schema_fingerprint.
  destruct (CacheManager.get_schema_fingerprint cache source_name domain);
    reflexivity.
Qed.

(** C6.  [parse_data] returns for every payload, domain and source name
    (its embedding is a total function into plain values): whenever the body
    of its [try] raises, whatever the exception, the value returned is the
    raw payload itself; otherwise it is what the body returned.  So the
    caller gets the raw payload or a dict that carries [_source_info]. *)
Theorem parse_data_never_raises parsing_rules cache now depth raw_data domain
    source_name :
  let attempt :=
    parse_data_try parsing_rules cache now depth raw_data domain source_name in
  let result :=
    snd (fst (parse_data parsing_rules cache now depth raw_data domain
                source_name)) in
  (forall e, snd (fst attempt) = Raise e -> result = raw_data)
  /\ (forall normalized, snd (fst attempt) = Ok normalized -> result = normalized)
  /\ (result = raw_data
      \/ exists fields,
           result = JDict fields /\ is_Some (dict_lookup "_source_info" fields)).
Proof.
  cbv zeta. unfold parse_data.
  destruct (parse_data_try parsing_rules cache now depth raw_data domain
              source_name) as [[[rules' cache'] [normalized|e]] log] eqn:Htry;
    cbn [fst snd].
  - split; [discriminate|]. split; [intros ? [= <-]; reflexivity|].
    unfold parse_data_try in Htry.
    destruct (_get_parsing_rules parsing_rules domain source_name)
      as [[|r rules]|]; try (injection Htry as _ _ <- _; left; reflexivity).
    destruct (_apply_adaptive_parsing cache now depth raw_data (r :: rules)
                domain source_name) as [[cache1 rules1] [v|e]] eqn:Hadapt;
      cbn [mbind Res_bind] in Htry; [|discriminate].
    injection Htry as _ _ Hset _.
    assert (is_dict v = true) as Hd.
    { unfold _apply_adaptive_parsing in Hadapt.
      destruct (CacheManager.get_schema_fingerprint cache source_name domain).
      - destruct (CacheManager.update_schema_fingerprint _ _ _ _ _)
          as [cache2 [fp changes]].
        injection Hadapt as _ _ Hv. eapply apply_rules_dict, Hv.
      - injection Hadapt as _ _ Hv. eapply apply_rules_dict, Hv. }
    destruct v; try discriminate Hd. cbn in Hset. injection Hset as <-.
    right. eexists. split; [reflexivity|]. rewrite dict_lookup_set. eauto.
  - split; [reflexivity|]. split; [discriminate|]. left. reflexivity.
Qed.

End NormalizerFacts.

(* --------------------------------------------------------------------- *)
(** ** Rule lookup *)
(* --------------------------------------------------------------------- *)

Section RuleLookupFacts.
Context `{Runtime}.
Import DataParser.

(** [parse_data] logs "No parsing rules found" exactly when the lookup gives
    no rule, and then hands the payload back untouched. *)
Lemma parse_data_no_rules_branch parsing_rules cache now depth raw_data domain
    source_name :
  let out :=
    parse_data parsing_rules cache now depth raw_data domain source_name in
  (In NoParsingRules (snd out)
   <-> _get_parsing_rules parsing_rules domain source_name = None
       \/ _get_parsing_rules parsing_rules domain source_name = Some [])
  /\ (In NoParsingRules (snd out) -> fst out = (parsing_rules, cache, raw_data)).
Proof.
  cbv zeta. unfold parse_data, parse_data_try.
  destruct (_get_parsing_rules parsing_rules domain source_name)
    as [[|r rules]|]; cbn.
  - split; [split; auto|reflexivity].
  - assert (forall log : list LogRecord,
              log = [] \/ (exists e, log = [FailedToParse e]) ->
              ~ In NoParsingRules log) as Hnot.
    { intros log [->|[e ->]]; cbn; [tauto|]. intros [Hx|[]]. discriminate. }
    destruct (_apply_adaptive_parsing cache now depth raw_data (r :: rules)
                domain source_name) as [[cache1 rules1] [v|e]];
      cbn [mbind Res_bind].
    + destruct (py_setitem v "_source_info" _); cbn [fst snd app].
      * split; [split|]; [intros Hin|intros [Hx|Hx]; discriminate|intros Hin];
          exfalso; exact (Hnot [] (or_introl eq_refl) Hin).
      * split; [split|]; [intros Hin|intros [Hx|Hx]; discriminate|intros Hin];
          exfalso; exact (Hnot _ (or_intror (ex_intro _ e eq_refl)) Hin).
    + cbn [fst snd app].
      split; [split|]; [intros Hin|intros [Hx|Hx]; discriminate|intros Hin];
        exfalso; exact (Hnot _ (or_intror (ex_intro _ e eq_refl)) Hin).
  - split; [split; auto|reflexivity].
Qed.

(** What [find] returns is the first element that passes the test. *)
Lemma find_first {A} (f : A -> bool) (l : list A) (x : A) :
  find f l = Some x ->
  f x = true
  /\ exists before after,
       l = before ++ x :: after /\ forall y, In y before -> f y = false.
Proof.
  induction l as [|a l IH]; cbn; [discriminate|].
  destruct (f a) eqn:Ha.
  - intros [= <-]. split; [exact Ha|]. exists [], l. split; [reflexivity|].
    intros y [].
  - intros Hfind. destruct (IH Hfind) as [Hx (before & after & -> & Hbefore)].
    split; [exact Hx|]. exists (a :: before), after. split; [reflexivity|].
    intros y [<-|Hy]; [exact Ha | apply Hbefore, Hy].
Qed.

Lemma find_at_first {A} (f : A -> bool) (before after : list A) (x : A) :
  f x = true -> (forall y, In y before -> f y = false) ->
  find f (before ++ x :: after) = Some x.
Proof.
  intros Hx Hbefore. induction before as [|a before IH]; cbn.
  - rewrite Hx. reflexivity.
  - rewrite (Hbefore a) by (left; reflexivity).
    apply IH. intros y Hy. apply Hbefore. right. exact Hy.
Qed.

(** C10 (amended).  In a domain that has rule sets, a source name without
    an entry of its own gets the rules of the first entry, in the table's
    order, whose name contains it or is contained in it, letter case aside:
    whenever some name overlaps there is such a first entry, and the lookup
    returns the rules of that entry and of no other.  The lookup gives no
    rules exactly when no configured name overlaps, and, the rule sets
    being non-empty, that is exactly when [parse_data] takes its "no parsing
    rules" exit and hands the raw payload back, with the rule table and the
    cache untouched. *)
Theorem rule_lookup_is_fuzzy parsing_rules domain source_name domain_rules :
  table_lookup domain parsing_rules = Some domain_rules ->
  table_lookup source_name domain_rules = None ->
  let overlapping entry :=
    In entry domain_rules /\ names_overlap source_name (fst entry) = true in
  ((exists entry, overlapping entry) ->
   exists entry, first_overlapping source_name domain_rules entry)
  /\ (forall entry,
        first_overlapping source_name domain_rules entry ->
        _get_parsing_rules parsing_rules domain source_name = Some (snd entry))
  /\ (_get_parsing_rules parsing_rules domain source_name = None
      <-> ~ exists entry, overlapping entry)
  /\ ((forall entry, In entry domain_rules -> snd entry <> []) ->
      forall cache now depth raw_data,
        let out :=
          parse_data parsing_rules cache now depth raw_data domain source_name in
        (In NoParsingRules (snd out) <-> ~ exists entry, overlapping entry)
        /\ (In NoParsingRules (snd out) ->
            fst out = (parsing_rules, cache, raw_data))).
Proof.
  intros Hdomain Hexact. cbv zeta.
  assert (_get_parsing_rules parsing_rules domain source_name
          = match find (fun entry => names_overlap source_name (fst entry))
                    domain_rules with
            | Some entry => Some (snd entry)
            | None => None
            end) as Hlookup
    by (unfold _get_parsing_rules; rewrite Hdomain, Hexact; reflexivity).
  assert (_get_parsing_rules parsing_rules domain source_name = None
          <-> ~ exists entry,
                In entry domain_rules
                /\ names_overlap source_name (fst entry) = true) as Hnone.
  { rewrite Hlookup.
    destruct (find _ domain_rules) as [entry|] eqn:Hfind.
    - apply find_some in Hfind. split; [discriminate|].
      intros Hno. exfalso. apply Hno. exists entry. exact Hfind.
    - split; [|reflexivity]. intros _ [entry [Hin Hov]].
      pose proof (find_none _ _ Hfind entry Hin) as Hf. cbn in Hf. congruence. }
  split; [|split; [|split]].
  - intros Hex.
    destruct (find (fun entry => names_overlap source_name (fst entry))
                domain_rules) as [entry|] eqn:Hfind.
    + exists entry.
      destruct (find_first _ _ _ Hfind) as [Hov (before & after & Heq & Hbefore)].
      exists before, after. auto.
    + exfalso. apply Hnone; [rewrite Hlookup; try rewrite Hfind; reflexivity | exact Hex].
  - intros entry (before & after & -> & Hov & Hbefore).
    rewrite Hlookup.
    rewrite (find_at_first (fun entry => names_overlap source_name (fst entry))
               before after entry Hov Hbefore).
    reflexivity.
  - exact Hnone.
  - intros Hnonempty cache now depth raw_data.
    destruct (parse_data_no_rules_branch parsing_rules cache now depth raw_data
                domain source_name) as [Hlog Hraw].
    split; [|exact Hraw].
    rewrite Hlog, <- Hnone. split; [|auto].
    intros [Hn|Hempty]; [exact Hn|]. exfalso.
    rewrite Hlookup in Hempty.
    destruct (find _ domain_rules) as [entry|] eqn:Hfind; [|discriminate].
    apply find_some in Hfind as [Hin _].
    injection Hempty as Hempty. exact (Hnonempty entry Hin Hempty).
Qed.

End RuleLookupFacts.

(* --------------------------------------------------------------------- *)
(** ** Drift adaptation *)
(* --------------------------------------------------------------------- *)

(** [Qltb] is [<] on the rationals. *)
Lemma Qltb_true x y : Qltb x y = true <-> (x < y)%Q.
Proof.
  unfold Qltb. rewrite negb_true_iff. split.
  - intros Hb. apply Qnot_le_lt. intros Hle.
    apply Qle_bool_iff in Hle. congruence.
  - intros Hlt. apply not_true_is_false. intros Hle.
    apply Qle_bool_iff in Hle. exact (Qlt_not_le _ _ Hlt Hle).
Qed.

Section AdaptationFacts.
Context `{Runtime}.
Import DataParser.

Lemma prefix_refl s : String.prefix s s = true.
Proof.
  induction s as [|c s IH]; cbn; [reflexivity|].
  destruct (ascii_dec c c); [exact IH | congruence].
Qed.

Lemma replace_from_skip_all old new s n :
  (String.length s <= n)%nat -> PyStr.replace_from old new n s = "".
Proof.
  revert n. induction s as [|c s IH]; intros n Hn; cbn; [reflexivity|].
  destruct n as [|n]; cbn in Hn; [lia|]. apply IH. lia.
Qed.

Lemma append_empty_r s : (s ++ "")%string = s.
Proof.
  induction s as [|c s IH]; [reflexivity|].
  change (String c (s ++ "") = String c s). f_equal. exact IH.
Qed.

(** Replacing a key in itself gives the replacement. *)
Lemma replace_whole old new : PyStr.replace old new old = new.
Proof.
  destruct old as [|c old]; [reflexivity|].
  unfold PyStr.replace. cbn [PyStr.replace_from].
  rewrite prefix_refl.
  rewrite replace_from_skip_all by (cbn; lia).
  apply append_empty_r.
Qed.

(** The alternative that [_find_alternative_key_path] returns is the first
    exact candidate among the payload's key paths, or when there is none,
    the first partial candidate. *)
Lemma find_alternative_key_path_spec removed_key data :
  let current := _extract_all_key_paths data "" in
  match _find_alternative_key_path removed_key data with
  | Some alternative =>
      exists before after,
        current = before ++ alternative :: after
        /\ ((exact_candidate removed_key alternative = true
             /\ forall path, In path before ->
                             exact_candidate removed_key path = false)
            \/ (partial_candidate removed_key alternative = true
                /\ (forall path, In path current ->
                                 exact_candidate removed_key path = false)
                /\ forall path, In path before ->
                                partial_candidate removed_key path = false))
  | None =>
      forall path, In path current ->
                   exact_candidate removed_key path = false
                   /\ partial_candidate removed_key path = false
  end.
Proof.
  cbv zeta. unfold _find_alternative_key_path.
  fold (exact_candidate removed_key). 
  change (fun path => PyStr.endswith path (key_name_of removed_key)
                      && negb (String.eqb path removed_key))
    with (exact_candidate removed_key).
  change (fun path => PyStr.contains (PyStr.lower (key_name_of removed_key))
                        (PyStr.lower path)
                      && negb (String.eqb path removed_key))
    with (partial_candidate removed_key).
  destruct (find (exact_candidate removed_key) _) as [alt|] eqn:Hexact.
  - apply find_first in Hexact as [Halt (before & after & Heq & Hbefore)].
    exists before, after. split; [exact Heq|]. left. split; assumption.
  - pose proof (find_none _ _ Hexact) as Hno.
    destruct (find (partial_candidate removed_key) _) as [alt|] eqn:Hpartial.
    + apply find_first in Hpartial as [Halt (before & after & Heq & Hbefore)].
      exists before, after. split; [exact Heq|]. right. auto.
    + intros path Hin. split; [apply Hno, Hin|].
      apply (find_none _ _ Hpartial), Hin.
Qed.

(** The defaults of [_get_default_for_target_path], by the first word that
    the lower-cased target path contains. *)
Lemma default_for_target_path_table target_path :
  let has word := PyStr.contains word (PyStr.lower target_path) in
  let default := _get_default_for_target_path target_path in
  (has "score" = true \/ has "sog" = true -> default = JInt 0)
  /\ (has "score" = false -> has "sog" = false ->
      (has "intermission" = true -> default = JBool false)
      /\ (has "intermission" = false ->
          (has "plays" = true -> default = JList [])
          /\ (has "plays" = false ->
              (has "id" = true -> default = JInt 0)
              /\ (has "id" = false ->
                  (has "name" = true -> default = JStr "Unknown")
                  /\ (has "name" = false ->
                      (has "state" = true -> default = JStr "UNKNOWN")
                      /\ (has "state" = false -> default = JNull)))))).
Proof.
  cbv zeta. unfold _get_default_for_target_path.
  destruct (PyStr.contains "score" _), (PyStr.contains "sog" _),
    (PyStr.contains "intermission" _), (PyStr.contains "plays" _),
    (PyStr.contains "id" _), (PyStr.contains "name" _),
    (PyStr.contains "state" _);
    repeat split; intros; try reflexivity; try discriminate;
    repeat match goal with H : _ \/ _ |- _ => destruct H end; discriminate.
Qed.

(** One call of the loop body does to a rule what [adapted_at] says. *)
Lemma adapt_rule_adapted_at removed_key raw_data r :
  adapted_at removed_key raw_data r (adapt_rule removed_key raw_data r).
Proof.
  unfold adapted_at, adapt_rule. cbv zeta.
  pose proof (find_alternative_key_path_spec removed_key raw_data) as Hspec.
  cbv zeta in Hspec.
  pose proof (default_for_target_path_table (ParsingRule.target_path r))
    as Hdefault.
  assert (forall r', r' = relax_rule r ->
            ParsingRule.source_path r' = ParsingRule.source_path r
            /\ ParsingRule.required r' = false
            /\ (is_none (ParsingRule.default_value r) = false ->
                ParsingRule.default_value r' = ParsingRule.default_value r)
            /\ (is_none (ParsingRule.default_value r) = true ->
                default_by_first_word (ParsingRule.target_path r)
                  (ParsingRule.default_value r'))) as Hrelax.
  { intros r' ->. unfold relax_rule. cbn.
    split; [reflexivity|]. split; [reflexivity|].
    split; intros ->; [reflexivity | exact Hdefault]. }
  destruct (PyStr.contains removed_key (ParsingRule.source_path r));
    [|repeat split; reflexivity].
  destruct (_find_alternative_key_path removed_key raw_data) as [alt|].
  - destruct (String.eqb alt "") eqn:Ealt.
    + apply String.eqb_eq in Ealt. subst alt.
      split; [reflexivity|]. split; [reflexivity|]. right.
      split; [right; exact Hspec | apply Hrelax; reflexivity].
    + apply String.eqb_neq in Ealt. cbn.
      split; [reflexivity|]. split; [reflexivity|]. left.
      exists alt. split; [exact Hspec|]. split; [exact Ealt|].
      repeat split; reflexivity.
  - split; [reflexivity|]. split; [reflexivity|]. right.
    split; [left; exact Hspec | apply Hrelax; reflexivity].
Qed.

Lemma Forall2_after_map {A} (step : A -> A) (R S : A -> A -> Prop)
    (l l' : list A) :
  (forall x y, R (step x) y -> S x y) ->
  Forall2 R (map step l) l' -> Forall2 S l l'.
Proof.
  intros Hstep. revert l'. induction l as [|x l IH]; intros l' Hall;
    inversion Hall; subst; constructor; auto.
Qed.

(** The loop of [_adapt_rules_for_schema_changes] takes every rule through
    the removed keys in the order of their list. *)
Lemma adapt_rules_through raw_data removed_keys : forall rules,
  Forall2 (adapted_through raw_data removed_keys) rules
    (fold_left (fun adapted removed_key =>
                  map (adapt_rule removed_key raw_data) adapted)
       removed_keys rules).
Proof.
  induction removed_keys as [|removed_key removed_keys IH]; intros rules.
  - cbn. induction rules; constructor; [constructor | assumption].
  - cbn [fold_left].
    apply (Forall2_after_map (adapt_rule removed_key raw_data)
             (adapted_through raw_data removed_keys)); [|apply IH].
    intros r r2 Hrest. econstructor; [apply adapt_rule_adapted_at | exact Hrest].
Qed.

Lemma table_lookup_replace {A} k (v : A) d :
  table_lookup k d <> None -> table_lookup k (table_replace k v d) = Some v.
Proof.
  induction d as [|[k' v'] d IH]; cbn; [congruence|].
  destruct (String.eqb k k') eqn:E; cbn; rewrite E; [reflexivity | exact IH].
Qed.

Lemma table_lookup_replace_none {A} k k' (v : A) d :
  table_lookup k' d = None -> table_lookup k' (table_replace k v d) = None.
Proof.
  induction d as [|[k0 v0] d IH]; cbn; [reflexivity|].
  destruct (String.eqb k' k0) eqn:E'; [discriminate|].
  destruct (String.eqb k k0); cbn; rewrite E'; [tauto | exact IH].
Qed.

Lemma find_overlap_replace source_name (rules : list ParsingRule.t) d entry :
  find (fun entry => names_overlap source_name (fst entry)) d = Some entry ->
  find (fun entry => names_overlap source_name (fst entry))
    (table_replace (fst entry) rules d)
  = Some (fst entry, rules).
Proof.
  induction d as [|[k' v'] d IH]; cbn [find table_replace fst];
    [discriminate|].
  destruct (names_overlap source_name k') eqn:Hov.
  - intros [= <-]. cbn [fst]. rewrite String.eqb_refl. cbn [find fst].
    rewrite Hov. reflexivity.
  - intros Hfind.
    destruct (String.eqb (fst entry) k') eqn:E.
    + apply String.eqb_eq in E. subst k'.
      apply find_some in Hfind as [_ Htrue]. congruence.
    + cbn [find fst]. rewrite Hov. apply IH, Hfind.
Qed.

(** The rules that [with_rules] stores are the ones the next lookup for the
    same domain and source name returns. *)
Lemma get_parsing_rules_with_rules parsing_rules domain source_name rules
    rules' :
  _get_parsing_rules parsing_rules domain source_name = Some rules ->
  _get_parsing_rules (with_rules parsing_rules domain source_name rules')
    domain source_name = Some rules'.
Proof.
  unfold _get_parsing_rules, with_rules, rule_source_name.
  destruct (table_lookup domain parsing_rules) as [domain_rules|] eqn:Hdomain;
    [|discriminate].
  destruct (table_lookup source_name domain_rules) as [exact|] eqn:Hexact.
  - intros _. rewrite table_lookup_replace by congruence.
    rewrite table_lookup_replace by congruence. reflexivity.
  - destruct (find _ domain_rules) as [entry|] eqn:Hfind; [|discriminate].
    intros _. rewrite table_lookup_replace by congruence.
    rewrite table_lookup_replace_none by exact Hexact.
    rewrite (find_overlap_replace _ _ _ _ Hfind). reflexivity.
Qed.

(** C5 (amended).  [_apply_adaptive_parsing] normalizes the payload with the
    rules as the adaptation leaves them.  The rules are adapted exactly when
    a fingerprint is stored for the source and domain and the structural
    change score of the fresh payload against it is above 0.1; otherwise
    they stay as they are.  The adaptation goes through the removed keys,
    the key-paths of the stored fingerprint that the fresh one lacks, each
    once, in the order in which their set is iterated, and at each key takes
    every rule, as the keys before left it, through [adapted_at]: a rule
    whose source path contains the key gets every occurrence of it replaced
    by the alternative if there is a non-empty one (the first current
    key-path, other than the key, that ends with the key's terminal segment
    name, or if none does, the first that contains it, letter case aside),
    and otherwise becomes optional and, if it has no default, gets the
    default of its target path (by the first word its lower-cased text
    contains: score or sog, 0; intermission, false; plays, the empty list;
    id, 0; name, "Unknown"; state, "UNKNOWN"; none of them, no default).
    The adaptation is made in the rule objects of the parser's table: after
    [parse_data], the lookup for the same domain and source name returns
    the adapted rules. *)
Theorem drift_adaptation_rewrites_or_relaxes parsing_rules cache now depth
    raw_data domain source_name rules :
  let out :=
    _apply_adaptive_parsing cache now depth raw_data rules domain source_name in
  let adapted := snd (fst out) in
  let fresh := create_schema_fingerprint now raw_data source_name domain in
  snd out = _apply_rules depth raw_data adapted
  /\ match CacheManager.get_schema_fingerprint cache source_name domain with
     | Some stored =>
         let changes := SchemaCache.compare_fingerprints stored fresh in
         let score := Changes.structural_change_score changes in
         ((1 # 10 < score)%Q ->
          enumerates (Changes.removed_keys changes)
            (fun key => key ∈ SchemaFingerprint.key_paths stored
                        /\ ~ key ∈ SchemaFingerprint.key_paths fresh)
          /\ Forall2 (adapted_through raw_data (Changes.removed_keys changes))
               rules adapted)
         /\ ((score <= 1 # 10)%Q -> adapted = rules)
     | None => adapted = rules
     end
  /\ (_get_parsing_rules parsing_rules domain source_name = Some rules ->
      rules <> [] ->
      _get_parsing_rules
        (fst (fst (fst (parse_data parsing_rules cache now depth raw_data
                          domain source_name))))
        domain source_name
      = Some adapted).
Proof.
  cbv zeta. split; [|split].
  - unfold _apply_adaptive_parsing.
    destruct (CacheManager.get_schema_fingerprint cache source_name domain);
      [|reflexivity].
    destruct (CacheManager.update_schema_fingerprint cache now raw_data
                source_name domain) as [cache1 [fp changes]].
    reflexivity.
  - unfold _apply_adaptive_parsing, CacheManager.update_schema_fingerprint.
    destruct (CacheManager.get_schema_fingerprint cache source_name domain)
      as [stored|] eqn:Hstored; [|reflexivity].
    cbn [fst snd].
    destruct (Qltb drift_threshold
                (Changes.structural_change_score
                   (SchemaCache.compare_fingerprints stored
                      (create_schema_fingerprint now raw_data source_name
                         domain)))) eqn:Hdrift.
    + split; [|intros Hle; apply Qltb_true in Hdrift;
               exfalso; exact (Qlt_not_le _ _ Hdrift Hle)].
      intros _. split.
      * unfold SchemaCache.compare_fingerprints. cbn [Changes.removed_keys].
        split; [apply NoDup_set_order|]. intros key.
        rewrite elem_of_set_order, elem_of_difference, !elem_of_list_to_set.
        reflexivity.
      * apply adapt_rules_through.
    + split; [|reflexivity].
      intros Hlt. apply Qltb_true in Hlt. unfold drift_threshold in Hdrift.
      congruence.
  - intros Hrules Hne. unfold parse_data, parse_data_try. rewrite Hrules.
    destruct rules as [|r rules]; [congruence|].
    destruct (_apply_adaptive_parsing cache now depth raw_data (r :: rules)
                domain source_name) as [[cache1 rules1] normalized].
    cbn [fst snd].
    destruct (normalized_data ← normalized; py_setitem normalized_data _ _);
      cbn [fst]; eapply get_parsing_rules_with_rules, Hrules.
Qed.

End AdaptationFacts.

(** C5 as worded fails: the [clock] object is gone, [gameClock] matches it,
    and the rule for [clock.timeRemaining] now reads
    [gameClock.timeRemaining], which is no key-path of the payload. *)
Lemma adapted_path_is_no_key_path :
  ~ adaptation_as_specified "clock" Sample.renamed_clock Sample.clock_rule.
Proof.
  intros Hclaim. specialize (Hclaim eq_refl).
  destruct Hclaim as [Hrewrite _].
  destruct Hrewrite as [Hin _].
  - exists "gameClock". split; [right; left; reflexivity | reflexivity].
  - vm_compute in Hin.
    repeat match goal with H : _ \/ _ |- _ => destruct H end;
      try discriminate; assumption.
Qed.

(** C5 (amended), at the same rule and payload: the clock object is stored
    in the fingerprint of an earlier payload, the fresh payload has
    [gameClock] instead, the score is 4/5, and from then on the parser's
    rule reads [gameClock.timeRemaining]. *)
Lemma renamed_clock_adapts_the_clock_rule :
  _get_parsing_rules
    (fst (fst (fst (DataParser.parse_data (H := Sample.runtime)
                      Sample.clock_rules Sample.clock_seen 100 1000
                      Sample.renamed_clock "live_game" "nhl_official"))))
    "live_game" "nhl_official"
  = Some [rule "gameClock.timeRemaining" "clock.timeRemaining" None false JNull].
Proof.
  destruct (drift_adaptation_rewrites_or_relaxes (H := Sample.runtime)
              Sample.clock_rules Sample.clock_seen 100 1000
              Sample.renamed_clock "live_game" "nhl_official"
              [Sample.clock_rule]) as (_ & _ & Hkept).
  rewrite (Hkept eq_refl ltac:(discriminate)).
  vm_compute. reflexivity.
Defined.

(* --------------------------------------------------------------------- *)
(** ** More of the payload cache *)
(* --------------------------------------------------------------------- *)

Section CacheMoreFacts.
Context `{Runtime}.

(** After [delete(key)] the key is gone for [get], whenever it is asked, and
    deleting it again changes nothing. *)
Theorem get_after_delete_misses (c : JSONCache.t) (now : Q) (key : string) :
  let c1 := fst (JSONCache.delete c key) in
  JSONCache.get c1 now key = (c1, None)
  /\ JSONCache.delete c1 key = (c1, true).
Proof.
  cbv zeta. unfold JSONCache.get, JSONCache.delete.
  cbn [fst JSONCache.index JSONCache.files JSONCache.cache_dir].
  rewrite lookup_delete_eq. split; [reflexivity|].
  unfold JSONCache._get_cache_path. cbn [JSONCache.cache_dir].
  f_equal. f_equal; apply delete_delete_eq.
Qed.

(** [get] on a key that is in the index and whose payload file exists. *)
Lemma get_indexed (c : JSONCache.t) (now : Q) (key : string) info content :
  JSONCache.index c !! key = Some info ->
  JSONCache.files c !! JSONCache._get_cache_path c key = Some content ->
  JSONCache.get c now key
  = if Qltb (JSONCache.expires_at info) now
    then (fst (JSONCache.delete c key), None)
    else match JSONCache.load_entry key content with
         | Ok e => (c, Some e)
         | Raise _ => (fst (JSONCache.delete c key), None)
         end.
Proof. intros Hi Hf. unfold JSONCache.get. rewrite Hi, Hf. reflexivity. Qed.

Lemma index_after_set (c : JSONCache.t) now key data ttl etag lm su :
  JSONCache.index (fst (JSONCache.set c now key data ttl etag lm su)) !! key
  = Some {| JSONCache.expires_at := (now + inject_Z ttl)%Q;
            JSONCache.content_hash := sha256_hexdigest (json_dumps_sorted data);
            JSONCache.cached_at := now |}.
Proof. cbn. apply lookup_insert_eq. Qed.

Lemma file_after_set (c : JSONCache.t) now key data ttl etag lm su :
  let c1 := fst (JSONCache.set c now key data ttl etag lm su) in
  exists content,
    JSONCache.files c1 !! JSONCache._get_cache_path c1 key = Some content
    /\ JSONCache.load_entry key content
       = Ok {| CacheEntry.key := key; CacheEntry.data := data;
               CacheEntry.timestamp := JFloat now;
               CacheEntry.ttl_seconds := JInt ttl;
               CacheEntry.etag := opt_str etag;
               CacheEntry.last_modified := opt_str lm;
               CacheEntry.source_url := opt_str su;
               CacheEntry.content_hash :=
                 JStr (sha256_hexdigest (json_dumps_sorted data)) |}.
Proof.
  cbv zeta. eexists. split.
  - cbn. unfold JSONCache._get_cache_path. cbn. apply lookup_insert_eq.
  - reflexivity.
Qed.

(** Once the TTL has run out, [get] misses and takes the entry out of the
    index and its payload file off the disk. *)
Theorem get_after_expiry_removes (c : JSONCache.t) (now now' : Q) (key : string)
    (data : json) (ttl_seconds : Z) (etag last_modified source_url : option string) :
  (now + inject_Z ttl_seconds < now')%Q ->
  let c1 := fst (JSONCache.set c now key data ttl_seconds etag last_modified
                   source_url) in
  let after := JSONCache.get c1 now' key in
  snd after = None
  /\ JSONCache.index (fst after) !! key = None
  /\ JSONCache.files (fst after) !! JSONCache._get_cache_path c key = None.
Proof.
  intros Hlate. cbv zeta.
  destruct (file_after_set c now key data ttl_seconds etag last_modified
              source_url) as (content & Hfile & _).
  rewrite (get_indexed _ now' key _ content
             (index_after_set c now key data ttl_seconds etag last_modified
                source_url) Hfile).
  cbn [JSONCache.expires_at].
  rewrite (proj2 (Qltb_true _ _) Hlate).
  cbn [fst snd]. split; [reflexivity|].
  unfold JSONCache.delete. cbn [fst JSONCache.index JSONCache.files].
  split; [apply lookup_delete_eq|].
  change (JSONCache._get_cache_path c key)
    with (JSONCache._get_cache_path
            (fst (JSONCache.set c now key data ttl_seconds etag last_modified
                    source_url)) key).
  apply lookup_delete_eq.
Qed.

(** A hit leaves the cache as it is and returns an entry for the key that
    has not expired; a miss, whatever its reason (unknown key, payload file
    gone, TTL over, unreadable payload), leaves the key out of the index. *)
Theorem get_hits_or_cleans (c : JSONCache.t) (now : Q) (key : string) :
  match snd (JSONCache.get c now key) with
  | Some entry =>
      fst (JSONCache.get c now key) = c
      /\ CacheEntry.key entry = key
      /\ exists info,
           JSONCache.index c !! key = Some info
           /\ (now <= JSONCache.expires_at info)%Q
  | None => JSONCache.index (fst (JSONCache.get c now key)) !! key = None
  end.
Proof.
  unfold JSONCache.get.
  destruct (JSONCache.index c !! key) as [info|] eqn:Hi; [|exact Hi].
  destruct (JSONCache.files c !! JSONCache._get_cache_path c key) as [content|].
  - destruct (Qltb (JSONCache.expires_at info) now) eqn:Hexp.
    + cbn. apply lookup_delete_eq.
    + destruct (JSONCache.load_entry key content) as [entry|e] eqn:Hload.
      * cbn [fst snd]. split; [reflexivity|]. split.
        -- unfold JSONCache.load_entry in Hload.
           repeat match type of Hload with
                  | (mbind _ ?m) = _ =>
                      destruct m; cbn [mbind Res_bind] in Hload;
                      [|discriminate]
                  end.
           injection Hload as <-. reflexivity.
        -- exists info. split; [reflexivity|].
           apply Qnot_lt_le. intros Hlt.
           apply Qltb_true in Hlt. congruence.
      * cbn. apply lookup_delete_eq.
  - cbn. apply lookup_delete_eq.
Qed.

Lemma length_append (s1 s2 : string) :
  String.length (s1 ++ s2) = (String.length s1 + String.length s2)%nat.
Proof.
  induction s1 as [|c s1 IH]; [reflexivity|].
  change (S (String.length (s1 ++ s2)) = S (String.length s1 + String.length s2)).
  f_equal. exact IH.
Qed.

Lemma append_inj_r (s h h' : string) : (h ++ s = h' ++ s)%string -> h = h'.
Proof.
  revert h'. induction h as [|c h IH]; intros [|c' h'] Heq.
  - reflexivity.
  - apply (f_equal String.length) in Heq.
    rewrite !length_append in Heq. cbn in Heq. lia.
  - apply (f_equal String.length) in Heq.
    rewrite !length_append in Heq. cbn in Heq. lia.
  - change (String c (h ++ s) = String c' (h' ++ s)) in Heq.
    injection Heq as -> Heq. f_equal. apply IH, Heq.
Qed.

(** Storing one key does not change what [get] returns for another one,
    provided their payload files differ (their digests do). *)
Theorem set_leaves_other_keys (c : JSONCache.t) (now now' : Q)
    (key key' : string) (data : json) (ttl_seconds : Z)
    (etag last_modified source_url : option string) :
  key <> key' ->
  md5_hexdigest key <> md5_hexdigest key' ->
  snd (JSONCache.get
         (fst (JSONCache.set c now key data ttl_seconds etag last_modified
                 source_url)) now' key')
  = snd (JSONCache.get c now' key').
Proof.
  intros Hkey Hdigest.
  assert (JSONCache._get_cache_path c key <> JSONCache._get_cache_path c key')
    as Hpath.
  { unfold JSONCache._get_cache_path. intros Heq.
    apply String.app_inj, String.app_inj in Heq.
    apply Hdigest. eapply append_inj_r, Heq. }
  unfold JSONCache.get, JSONCache.set.
  cbn [fst JSONCache.index JSONCache.files JSONCache.cache_dir].
  rewrite lookup_insert_ne by exact Hkey.
  destruct (JSONCache.index c !! key') as [info|]; [|reflexivity].
  change (JSONCache._get_cache_path
            {| JSONCache.cache_dir := JSONCache.cache_dir c;
               JSONCache.index := _; JSONCache.files := _ |} key')
    with (JSONCache._get_cache_path c key').
  rewrite lookup_insert_ne by exact Hpath.
  destruct (JSONCache.files c !! JSONCache._get_cache_path c key')
    as [content|]; [|reflexivity].
  destruct (Qltb (JSONCache.expires_at info) now'); [reflexivity|].
  destruct (JSONCache.load_entry key' content); reflexivity.
Qed.

End CacheMoreFacts.


Lemma append_assoc (s1 s2 s3 : string) :
  ((s1 ++ s2) ++ s3 = s1 ++ (s2 ++ s3))%string.
Proof.
  induction s1 as [|c s1 IH]; [reflexivity|].
  change (String c ((s1 ++ s2) ++ s3) = String c (s1 ++ (s2 ++ s3))).
  f_equal. exact IH.
Qed.

Section CleanupFacts.
Context `{Runtime}.

Lemma fold_delete_index keys : forall (c : JSONCache.t) key,
  JSONCache.index
    (fold_left (fun c k => fst (JSONCache.delete c k)) keys c) !! key
  = if bool_decide (key ∈ keys) then None else JSONCache.index c !! key.
Proof.
  induction keys as [|k keys IH]; intros c key; [reflexivity|].
  cbn [fold_left]. rewrite IH.
  unfold JSONCache.delete. cbn [fst JSONCache.index].
  destruct (decide (key = k)) as [->|Hne].
  - rewrite lookup_delete_eq.
    rewrite (bool_decide_eq_true_2 (k ∈ k :: keys)) by apply list_elem_of_here.
    destruct (bool_decide (k ∈ keys)); reflexivity.
  - rewrite lookup_delete_ne by congruence.
    destruct (decide (key ∈ keys)) as [Hin|Hnin].
    + rewrite !bool_decide_eq_true_2; auto using list_elem_of_further.
    + rewrite !bool_decide_eq_false_2; auto.
      rewrite elem_of_cons. tauto.
Qed.

Lemma fold_delete_dir keys : forall (c : JSONCache.t),
  JSONCache.cache_dir
    (fold_left (fun c k => fst (JSONCache.delete c k)) keys c)
  = JSONCache.cache_dir c.
Proof.
  induction keys as [|k keys IH]; intros c; [reflexivity|].
  cbn [fold_left]. rewrite IH. reflexivity.
Qed.

Lemma fold_delete_files keys : forall (c : JSONCache.t) key,
  key ∈ keys ->
  JSONCache.files
    (fold_left (fun c k => fst (JSONCache.delete c k)) keys c)
    !! JSONCache._get_cache_path c key = None.
Proof.
  assert (forall keys (c : JSONCache.t) path,
             JSONCache.files c !! path = None ->
             JSONCache.files
               (fold_left (fun c k => fst (JSONCache.delete c k)) keys c)
               !! path = None) as Hkeep.
  { induction keys0 as [|k keys0 IH]; intros c path Hnone; [exact Hnone|].
    cbn [fold_left]. apply IH. cbn.
    rewrite lookup_delete_None. auto. }
  induction keys as [|k keys IH]; intros c key Hin.
  - inversion Hin.
  - cbn [fold_left]. apply elem_of_cons in Hin as [->|Hin].
    + apply Hkeep. cbn. apply lookup_delete_eq.
    + change (JSONCache._get_cache_path c key)
        with (JSONCache._get_cache_path (fst (JSONCache.delete c k)) key).
      apply IH, Hin.
Qed.

Lemma expired_keys_spec (c : JSONCache.t) (now : Q) key :
  key ∈ map fst (filter (fun entry => Qltb (JSONCache.expires_at (snd entry)) now)
                   (map_to_list (JSONCache.index c)))
  <-> exists info, JSONCache.index c !! key = Some info
                   /\ (JSONCache.expires_at info < now)%Q.
Proof.
  rewrite list_elem_of_In, in_map_iff. split.
  - intros ([k info] & <- & Hin). apply filter_In in Hin as [Hin Hexp].
    apply list_elem_of_In, elem_of_map_to_list in Hin.
    exists info. split; [exact Hin|]. apply Qltb_true, Hexp.
  - intros (info & Hi & Hexp). exists (key, info). split; [reflexivity|].
    apply filter_In. split.
    + apply list_elem_of_In, elem_of_map_to_list, Hi.
    + apply Qltb_true, Hexp.
Qed.

(** [cleanup_expired] keeps exactly the index entries whose expiry time has
    not passed, unchanged, and leaves no payload file behind for a key it
    dropped. *)
Theorem cleanup_expired_keeps_the_unexpired (c : JSONCache.t) (now : Q)
    (key : string) :
  let c1 := JSONCache.cleanup_expired c now in
  JSONCache.index c1 !! key
  = match JSONCache.index c !! key with
    | Some info =>
        if Qltb (JSONCache.expires_at info) now then None else Some info
    | None => None
    end
  /\ (JSONCache.index c !! key <> None ->
      JSONCache.index c1 !! key = None ->
      JSONCache.files c1 !! JSONCache._get_cache_path c1 key = None).
Proof.
  cbv zeta.
  assert (JSONCache.index (JSONCache.cleanup_expired c now) !! key
          = match JSONCache.index c !! key with
            | Some info =>
                if Qltb (JSONCache.expires_at info) now then None else Some info
            | None => None
            end) as Hindex.
  { unfold JSONCache.cleanup_expired. cbv zeta. rewrite fold_delete_index.
    destruct (JSONCache.index c !! key) as [info|] eqn:Hi.
    - destruct (Qltb (JSONCache.expires_at info) now) eqn:Hexp.
      + rewrite bool_decide_eq_true_2; [reflexivity|].
        apply expired_keys_spec. exists info. split; [exact Hi|].
        apply Qltb_true, Hexp.
      + rewrite bool_decide_eq_false_2; [reflexivity|].
        rewrite expired_keys_spec. intros (info' & Hi' & Hlt).
        apply Qltb_true in Hlt. congruence.
    - destruct (bool_decide _); reflexivity. }
  split; [exact Hindex|].
  intros Hsome Hnone. rewrite Hindex in Hnone.
  destruct (JSONCache.index c !! key) as [info|] eqn:Hi; [|congruence].
  destruct (Qltb (JSONCache.expires_at info) now) eqn:Hexp; [|discriminate].
  unfold JSONCache.cleanup_expired. cbv zeta.
  unfold JSONCache._get_cache_path at 1. rewrite fold_delete_dir.
  apply fold_delete_files, expired_keys_spec.
  exists info. split; [exact Hi|]. apply Qltb_true, Hexp.
Qed.

End CleanupFacts.

Section ManagerFacts.
Context `{Runtime}.

(** [CacheManager.set] without a TTL, or with the TTL 0, stores the entry
    with the configured [max_age_seconds]: the entry is served until that
    age, and says so in its [ttl_seconds]. *)
Theorem manager_set_without_ttl_uses_max_age (m : CacheManager.t)
    (now now' : Q) (key : string) (data : json) (ttl_seconds : option Z)
    (etag last_modified source_url : option string) :
  ttl_seconds = None \/ ttl_seconds = Some 0 ->
  (now' <= now + inject_Z (CacheManager.max_age_seconds m))%Q ->
  let m1 := fst (CacheManager.set m now key data ttl_seconds etag
                   last_modified source_url) in
  exists entry,
    CacheManager.get m1 now' key = (m1, Some entry)
    /\ CacheEntry.data entry = data
    /\ CacheEntry.ttl_seconds entry = JInt (CacheManager.max_age_seconds m).
Proof.
  intros Httl Hfresh. cbv zeta.
  destruct (get_after_set_within_ttl (CacheManager.json_cache m) now now' key
              data (CacheManager.max_age_seconds m) etag last_modified source_url
              Hfresh) as (entry & Hget & _ & Hdata & _ & _ & _ & Hentry).
  exists entry. split; [|split; assumption].
  unfold JSONCache.set in Hget. cbn [fst] in Hget.
  destruct Httl as [-> | ->];
    unfold CacheManager.set, CacheManager.get, JSONCache.set;
    cbn [Z.eqb fst snd CacheManager.json_cache CacheManager.max_age_seconds
         CacheManager.schema_cache];
    rewrite Hget; reflexivity.
Qed.

(** The schema file name joins source and domain with an underscore, so two
    different pairs can name the same file: a fingerprint stored for one is
    then read back for the other. *)
Theorem schema_paths_collide (c : SchemaCache.t) (fingerprint : SchemaFingerprint.t)
    (source_name middle domain : string) :
  SchemaFingerprint.source_name fingerprint = (source_name ++ "_" ++ middle)%string ->
  SchemaFingerprint.domain fingerprint = domain ->
  SchemaCache.get_fingerprint
    (fst (SchemaCache.set_fingerprint c fingerprint))
    source_name (middle ++ "_" ++ domain)
  = Some fingerprint.
Proof.
  intros Hs Hd. unfold SchemaCache.get_fingerprint, SchemaCache.set_fingerprint.
  cbn [fst SchemaCache.files]. rewrite Hs, Hd.
  unfold SchemaCache._get_schema_path.
  replace ((source_name ++ "_" ++ middle) ++ "_" ++ domain ++ ".json")%string
    with (source_name ++ "_" ++ (middle ++ "_" ++ domain) ++ ".json")%string.
  - apply lookup_insert_eq.
  - rewrite !append_assoc. reflexivity.
Qed.

(** [update_schema_fingerprint] stores the fingerprint of the payload under
    the source and domain it was called with, returns that fingerprint, and
    reports changes exactly when a fingerprint was stored there before; the
    payload cache is not touched. *)
Lemma update_schema_fingerprint_stores (m : CacheManager.t) (now : Q)
    (data : json) (source_name domain : string) :
  let r := CacheManager.update_schema_fingerprint m now data source_name domain in
  let fingerprint := create_schema_fingerprint now data source_name domain in
  fst (snd r) = fingerprint
  /\ CacheManager.get_schema_fingerprint (fst r) source_name domain
     = Some fingerprint
  /\ snd (snd r)
     = (fun old => SchemaCache.compare_fingerprints old fingerprint)
         <$> CacheManager.get_schema_fingerprint m source_name domain
  /\ CacheManager.json_cache (fst r) = CacheManager.json_cache m.
Proof.
  cbv zeta. unfold CacheManager.update_schema_fingerprint.
  cbn [fst snd]. split; [reflexivity|]. split.
  - unfold CacheManager.get_schema_fingerprint, SchemaCache.get_fingerprint,
      SchemaCache.set_fingerprint, create_schema_fingerprint.
    destruct (extract_paths data "" ([], ∅)) as [key_paths type_signatures].
    cbn. apply lookup_insert_eq.
  - split; [|reflexivity].
    destruct (CacheManager.get_schema_fingerprint m source_name domain);
      reflexivity.
Qed.

End ManagerFacts.

Section FingerprintMoreFacts.
Context `{Runtime}.

Lemma changed_types_same old new common :
  SchemaFingerprint.type_signatures old = SchemaFingerprint.type_signatures new ->
  SchemaCache.changed_types old new common = [].
Proof.
  intros Heq. induction common as [|key common IH]; [reflexivity|].
  unfold SchemaCache.changed_types in *. cbn [omap list_omap].
  rewrite IH. rewrite Heq. rewrite decide_True by reflexivity. reflexivity.
Qed.

(** Two fingerprints with the same key paths, type signatures and version
    hash compare as unchanged, whatever their time stamps are. *)
Lemma compare_same_structure old new :
  SchemaFingerprint.key_paths old = SchemaFingerprint.key_paths new ->
  SchemaFingerprint.type_signatures old = SchemaFingerprint.type_signatures new ->
  SchemaFingerprint.version_hash old = SchemaFingerprint.version_hash new ->
  let changes := SchemaCache.compare_fingerprints old new in
  Changes.version_changed changes = false
  /\ Changes.new_keys changes = []
  /\ Changes.removed_keys changes = []
  /\ Changes.type_changes changes = []
  /\ (Changes.structural_change_score changes == 0)%Q.
Proof.
  intros Hk Ht Hv. cbv zeta. unfold SchemaCache.compare_fingerprints.
  cbv zeta. cbn [Changes.version_changed Changes.new_keys Changes.removed_keys
                 Changes.type_changes Changes.structural_change_score].
  rewrite Hk, Hv, String.eqb_refl.
  rewrite (changed_types_same old new _ Ht).
  set (N := list_to_set (SchemaFingerprint.key_paths new) : gset string).
  assert (set_order (N ∖ N) = []) as Hempty.
  { rewrite (difference_diag_L N). apply set_order_empty. }
  rewrite Hempty. cbn [length Nat.add negb].
  repeat (split; [reflexivity|]).
  destruct (0 <? size (N ∪ N))%nat; [|reflexivity].
  unfold Qdiv. apply Qmult_0_l.
Qed.

End FingerprintMoreFacts.

Section DriftFacts.
Context `{Runtime}.

(** Seeing a payload of the same shape again reports no drift: the second
    [update_schema_fingerprint] for a source and domain returns changes with
    the score 0, no new, removed or retyped keys and an unchanged version.
    Only the shape counts; the two payloads may differ in their values. *)
Theorem same_shape_reports_no_drift (m : CacheManager.t) (now now' : Q)
    (data data' : json) (source_name domain : string) :
  extract_paths data "" ([], ∅) = extract_paths data' "" ([], ∅) ->
  let m1 := fst (CacheManager.update_schema_fingerprint m now data
                   source_name domain) in
  exists changes,
    snd (snd (CacheManager.update_schema_fingerprint m1 now' data'
                source_name domain)) = Some changes
    /\ Changes.version_changed changes = false
    /\ Changes.new_keys changes = []
    /\ Changes.removed_keys changes = []
    /\ Changes.type_changes changes = []
    /\ (Changes.structural_change_score changes == 0)%Q.
Proof.
  intros Hshape. cbv zeta.
  destruct (update_schema_fingerprint_stores m now data source_name domain)
    as (_ & Hstored & _).
  cbv zeta in Hstored.
  destruct (update_schema_fingerprint_stores
              (fst (CacheManager.update_schema_fingerprint m now data
                      source_name domain)) now' data' source_name domain)
    as (_ & _ & Hchanges & _).
  cbv zeta in Hchanges. rewrite Hstored in Hchanges. cbn [fmap option_fmap option_map] in Hchanges.
  eexists. split; [exact Hchanges|].
  apply compare_same_structure;
    unfold create_schema_fingerprint; rewrite Hshape;
    destruct (extract_paths data' "" ([], ∅)); reflexivity.
Qed.

End DriftFacts.

(** ** More of the fingerprints *)
(* --------------------------------------------------------------------- *)

Section FingerprintShape.
Context `{Runtime}.

Lemma changed_types_swap old new common :
  SchemaCache.changed_types new old common
  = map swap_types (SchemaCache.changed_types old new common).
Proof.
  induction common as [|key common IH]; [reflexivity|].
  unfold SchemaCache.changed_types in *. cbn [omap list_omap]. rewrite IH.
  destruct (decide (SchemaFingerprint.type_signatures old !! key
                    = SchemaFingerprint.type_signatures new !! key)) as [e|n].
  - rewrite decide_True by congruence. reflexivity.
  - rewrite decide_False by congruence. reflexivity.
Qed.

Lemma compare_fingerprints_swapped old new :
  let forth := SchemaCache.compare_fingerprints old new in
  let back := SchemaCache.compare_fingerprints new old in
  Changes.new_keys back = Changes.removed_keys forth
  /\ Changes.removed_keys back = Changes.new_keys forth
  /\ Changes.type_changes back = map swap_types (Changes.type_changes forth)
  /\ Changes.version_changed back = Changes.version_changed forth
  /\ Changes.structural_change_score back
     = Changes.structural_change_score forth.
Proof.
  cbv zeta. unfold SchemaCache.compare_fingerprints. cbv zeta.
  cbn [Changes.version_changed Changes.new_keys Changes.removed_keys
       Changes.type_changes Changes.structural_change_score].
  set (O := list_to_set (SchemaFingerprint.key_paths old) : gset string).
  set (N := list_to_set (SchemaFingerprint.key_paths new) : gset string).
  assert (N ∩ O = O ∩ N) as ->.
  { apply set_eq. intros k. rewrite !elem_of_intersection.
    split; intros [? ?]; split; assumption. }
  assert (N ∪ O = O ∪ N) as ->.
  { apply set_eq. intros k. rewrite !elem_of_union.
    split; (intros [?|?]; [right|left]; assumption). }
  rewrite changed_types_swap, length_map.
  split; [reflexivity|]. split; [reflexivity|]. split; [reflexivity|].
  split; [f_equal; apply String.eqb_sym|].
  replace (length (set_order (O ∖ N)) + length (set_order (N ∖ O))
           + length (SchemaCache.changed_types old new (set_order (O ∩ N))))%nat
    with (length (set_order (N ∖ O)) + length (set_order (O ∖ N))
          + length (SchemaCache.changed_types old new (set_order (O ∩ N))))%nat
    by lia.
  reflexivity.
Qed.

(** Comparing in the other direction swaps the roles: what was new is
    removed and what was removed is new, every type change is reported with
    its two types exchanged, and the score and the version flag are the
    same. *)
Theorem compare_fingerprints_symmetric old new :
  let forth := SchemaCache.compare_fingerprints old new in
  let back := SchemaCache.compare_fingerprints new old in
  (forall key, key ∈ Changes.new_keys back <-> key ∈ Changes.removed_keys forth)
  /\ (forall key,
        key ∈ Changes.removed_keys back <-> key ∈ Changes.new_keys forth)
  /\ (forall key old_type new_type,
        (key, (new_type, old_type)) ∈ Changes.type_changes back
        <-> (key, (old_type, new_type)) ∈ Changes.type_changes forth)
  /\ Changes.version_changed back = Changes.version_changed forth
  /\ Changes.structural_change_score back
     = Changes.structural_change_score forth.
Proof.
  cbv zeta.
  destruct (compare_fingerprints_swapped old new)
    as (Hnew & Hremoved & Htypes & Hversion & Hscore).
  cbv zeta in Hnew, Hremoved, Htypes, Hversion, Hscore.
  rewrite Hnew, Hremoved, Htypes.
  split; [reflexivity|]. split; [reflexivity|].
  split; [|split; assumption].
  intros key old_type new_type.
  change (map swap_types
            (Changes.type_changes (SchemaCache.compare_fingerprints old new)))
    with (swap_types
            <$> Changes.type_changes (SchemaCache.compare_fingerprints old new)).
  rewrite list_elem_of_fmap. split.
  - intros ([k [a b]] & Heq & Hin). injection Heq as -> -> ->. exact Hin.
  - intros Hin. exists (key, (old_type, new_type)). split; [reflexivity|exact Hin].
Qed.

Lemma paths_have_types_step acc current_path ty :
  paths_have_types acc ->
  paths_have_types (fst acc ++ [current_path], <[current_path := ty]> (snd acc)).
Proof.
  intros Hinv p. cbn [fst snd]. rewrite elem_of_app, list_elem_of_singleton.
  rewrite lookup_insert_is_Some. rewrite (Hinv p).
  destruct (decide (current_path = p)); split; intros; intuition congruence.
Qed.

Lemma extract_paths_keeps_types : forall obj path acc,
  paths_have_types acc -> paths_have_types (extract_paths obj path acc).
Proof.
  induction obj as [| | | | | items IH | fields IH] using json_nested_ind;
    intros path acc Hinv; try exact Hinv.
  - destruct items as [|first rest]; [exact Hinv|].
    cbn [extract_paths]. inversion IH; subst. auto.
  - cbn [extract_paths]. revert acc Hinv.
    induction IH as [|[key value] fields Hvalue _ IHfields]; intros acc Hinv;
      [exact Hinv|].
    apply IHfields. apply Hvalue. apply paths_have_types_step, Hinv.
Qed.

End FingerprintShape.

Section FingerprintInvariant.
Context `{Runtime}.

(** In a fingerprint made by [create_schema_fingerprint] the type signatures
    are keyed by exactly the key paths: every listed path has a recorded
    type, and no type is recorded for a path that is not listed. *)
Theorem fingerprint_types_cover_key_paths (now : Q) (data : json)
    (source_name domain path : string) :
  let fingerprint := create_schema_fingerprint now data source_name domain in
  path ∈ SchemaFingerprint.key_paths fingerprint
  <-> is_Some (SchemaFingerprint.type_signatures fingerprint !! path).
Proof.
  cbv zeta.
  pose proof (extract_paths_keeps_types data "" ([], ∅)) as Hinv.
  unfold create_schema_fingerprint.
  destruct (extract_paths data "" ([], ∅)) as [key_paths type_signatures].
  cbn [SchemaFingerprint.key_paths SchemaFingerprint.type_signatures].
  apply (Hinv ltac:(intros p; cbn; rewrite elem_of_nil, lookup_empty;
                    split; [tauto | intros [? ?]; discriminate]) path).
Qed.

End FingerprintInvariant.

Section ExpectedKeys.

Lemma extract_paths_of_scalar obj path acc :
  is_container obj = false -> extract_paths obj path acc = acc.
Proof. destruct obj; intros Hc; try reflexivity; discriminate. Qed.

Lemma extract_paths_appends : forall obj path acc,
  exists more, fst (extract_paths obj path acc) = fst acc ++ more.
Proof.
  induction obj as [| | | | | items IH | fields IH] using json_nested_ind;
    intros path acc; try (exists []; rewrite app_nil_r; reflexivity).
  - destruct items as [|first rest];
      [exists []; rewrite app_nil_r; reflexivity|].
    cbn [extract_paths]. inversion IH; subst. auto.
  - cbn [extract_paths]. revert acc.
    induction IH as [|[key value] fields Hvalue _ IHfields]; intros acc.
    + exists []. rewrite app_nil_r. reflexivity.
    + cbn [snd] in Hvalue.
      destruct (IHfields
                  (extract_paths value (join_path path key)
                     (fst acc ++ [join_path path key],
                      <[join_path path key := type_name value]> (snd acc))))
        as [more ->].
      destruct (Hvalue (join_path path key)
                  (fst acc ++ [join_path path key],
                   <[join_path path key := type_name value]> (snd acc)))
        as [more' ->].
      cbn [fst]. eexists. rewrite <- !app_assoc. reflexivity.
Qed.

Lemma same_head_short keys paths :
  same_head keys paths -> (length keys < 50)%nat -> keys = paths.
Proof.
  unfold same_head. intros Hsame Hshort.
  rewrite (take_ge keys) in Hsame by lia.
  destruct (decide (length paths < 50)%nat) as [Hp|Hp].
  - rewrite (take_ge paths) in Hsame by lia. exact Hsame.
  - apply (f_equal length) in Hsame. rewrite length_take in Hsame. lia.
Qed.

Lemma same_head_app keys paths more :
  same_head keys paths -> same_head (keys ++ more) (paths ++ more).
Proof.
  intros Hsame. destruct (decide (length keys < 50)%nat) as [Hshort|Hlong].
  - rewrite (same_head_short keys paths Hsame Hshort). reflexivity.
  - unfold same_head in *.
    assert (50 <= length paths)%nat.
    { apply (f_equal length) in Hsame. rewrite !length_take in Hsame. lia. }
    rewrite !take_app_le by lia. exact Hsame.
Qed.

Lemma same_head_more keys paths more :
  same_head keys paths -> (50 <= length keys)%nat ->
  same_head keys (paths ++ more).
Proof.
  unfold same_head. intros Hsame Hlong.
  assert (50 <= length paths)%nat.
  { apply (f_equal length) in Hsame. rewrite !length_take in Hsame. lia. }
  rewrite take_app_le by lia. exact Hsame.
Qed.

Lemma extract_keys_head : forall obj path keys acc,
  same_head keys (fst acc) ->
  same_head (extract_keys obj path keys) (fst (extract_paths obj path acc)).
Proof.
  induction obj as [| | | | | items IH | fields IH] using json_nested_ind;
    intros path keys acc Hsame; try exact Hsame.
  - destruct items as [|first rest]; [exact Hsame|].
    cbn [extract_keys extract_paths]. inversion IH; subst.
    destruct (length keys <? 50)%nat eqn:Hlen.
    + auto.
    + apply Nat.ltb_ge in Hlen.
      destruct (extract_paths_appends first (path ++ "[0]") acc) as [more ->].
      apply same_head_more; assumption.
  - cbn [extract_keys extract_paths]. revert keys acc Hsame.
    induction IH as [|[key value] fields Hvalue _ IHfields];
      intros keys acc Hsame; [exact Hsame|].
    apply IHfields.
    set (current_path := join_path path key).
    set (acc1 := (fst acc ++ [current_path],
                  <[current_path := type_name value]> (snd acc))).
    assert (same_head (keys ++ [current_path]) (fst acc1)) as Hstep
      by (apply same_head_app, Hsame).
    destruct (is_container value) eqn:Hc; cbn [andb].
    + destruct (length (keys ++ [current_path]) <? 50)%nat eqn:Hlen.
      * apply Hvalue, Hstep.
      * apply Nat.ltb_ge in Hlen.
        destruct (extract_paths_appends value current_path acc1) as [more ->].
        apply same_head_more; assumption.
    + rewrite extract_paths_of_scalar by exact Hc. exact Hstep.
Qed.

End ExpectedKeys.

Section ExpectedKeysFacts.
Context `{Runtime}.

(** The expected keys that discovery records for an endpoint are the first
    50 key paths of the schema fingerprint of the same payload: the cap cuts
    the walk short without changing its order. *)
Theorem expected_keys_are_first_fingerprint_paths (now : Q) (data : json)
    (source_name domain : string) :
  _extract_expected_keys data domain
  = take 50 (SchemaFingerprint.key_paths
               (create_schema_fingerprint now data source_name domain)).
Proof.
  pose proof (extract_keys_head data "" [] ([], ∅) eq_refl) as Hhead.
  unfold _extract_expected_keys, create_schema_fingerprint.
  destruct (extract_paths data "" ([], ∅)) as [key_paths type_signatures].
  exact Hhead.
Qed.

End ExpectedKeysFacts.

(** ** Source selection and discovery *)
(* --------------------------------------------------------------------- *)

Section Sorting.
Context {A : Type} (key : A -> Z).

Lemma insert_by_perm x l : Permutation (x :: l) (insert_by key x l).
Proof.
  induction l as [|y l IH]; [reflexivity|]. cbn [insert_by].
  destruct (key x <=? key y)%Z; [reflexivity|].
  rewrite perm_swap. apply perm_skip, IH.
Qed.

Lemma py_sorted_perm l : Permutation l (py_sorted key l).
Proof.
  induction l as [|x l IH]; [reflexivity|].
  unfold py_sorted in *. cbn [fold_right].
  rewrite <- insert_by_perm. apply perm_skip, IH.
Qed.

Lemma insert_by_ascending x l :
  ascending key l -> ascending key (insert_by key x l).
Proof.
  unfold ascending. induction 1 as [|y l Hl IH Hy]; cbn [insert_by].
  - repeat constructor.
  - destruct (key x <=? key y)%Z eqn:Hle.
    + apply Z.leb_le in Hle. constructor; [constructor; assumption|].
      constructor; [exact Hle|].
      eapply Forall_impl; [|exact Hy]. cbn. intros; lia.
    + apply Z.leb_gt in Hle. constructor; [exact IH|].
      apply (Permutation_Forall (insert_by_perm x l)).
      constructor; [lia | exact Hy].
Qed.

Lemma py_sorted_ascending l : ascending key (py_sorted key l).
Proof.
  induction l as [|x l IH]; [constructor|].
  apply insert_by_ascending, IH.
Qed.

(** Elements with the same key keep their order. *)
Lemma insert_by_same_key k x l :
  filter (fun a => (key a =? k)%Z) (insert_by key x l)
  = filter (fun a => (key a =? k)%Z) (x :: l).
Proof.
  induction l as [|y l IH]; [reflexivity|]. cbn [insert_by].
  destruct (key x <=? key y)%Z eqn:Hle; [reflexivity|].
  apply Z.leb_gt in Hle. cbn [filter] in *. rewrite IH.
  destruct (key x =? k)%Z eqn:Hx; [|reflexivity].
  apply Z.eqb_eq in Hx.
  destruct (key y =? k)%Z eqn:Hy; [|reflexivity].
  apply Z.eqb_eq in Hy. lia.
Qed.

Lemma py_sorted_stable k l :
  filter (fun a => (key a =? k)%Z) (py_sorted key l)
  = filter (fun a => (key a =? k)%Z) l.
Proof.
  induction l as [|x l IH]; [reflexivity|].
  unfold py_sorted in *. cbn [fold_right].
  rewrite insert_by_same_key. cbn [filter]. rewrite IH. reflexivity.
Qed.

Lemma find_ascending_least (f : A -> bool) l x :
  ascending key l -> find f l = Some x ->
  forall y, In y l -> f y = true -> key x <= key y.
Proof.
  unfold ascending. induction 1 as [|z l Hl IH Hz]; [discriminate|].
  cbn [find]. destruct (f z) eqn:Hfz.
  - intros [= ->] y [->|Hin] _; [lia|].
    rewrite Forall_forall in Hz. apply Hz, Hin.
  - intros Hfind y [->|Hin] Hfy; [congruence|]. eauto.
Qed.

Lemma find_filter (f : A -> bool) l : find f l = hd_error (filter f l).
Proof.
  induction l as [|x l IH]; [reflexivity|]. cbn [find filter].
  destruct (f x); [reflexivity | exact IH].
Qed.

Lemma filter_andb (f g : A -> bool) l :
  filter (fun a => f a && g a) l = filter f (filter g l).
Proof.
  induction l as [|x l IH]; [reflexivity|]. cbn [filter].
  destruct (g x); cbn [filter]; rewrite ?andb_true_r, ?andb_false_r.
  - destruct (f x); rewrite IH; reflexivity.
  - exact IH.
Qed.

(** The first match in the sorted list is the first element of the original
    list among the matches with the least key. *)
Lemma find_sorted_first (f : A -> bool) l x :
  find f (py_sorted key l) = Some x ->
  find (fun a => f a && (key a =? key x)%Z) l = Some x.
Proof.
  intros Hfind.
  rewrite find_filter, filter_andb, <- (py_sorted_stable (key x) l),
    <- filter_andb, <- find_filter.
  pose proof (find_ascending_least f _ x (py_sorted_ascending l) Hfind) as Hleast.
  revert Hfind Hleast. generalize (py_sorted key l). intros s.
  induction s as [|z s IH]; [discriminate|]. cbn [find].
  destruct (f z) eqn:Hfz; cbn [andb].
  - intros [= ->] _. rewrite Z.eqb_refl. reflexivity.
  - intros Hfind Hleast. apply IH; [exact Hfind|].
    intros y Hin. apply Hleast. right. exact Hin.
Qed.

End Sorting.

Section SortingFilter.
Context {A : Type} (key : A -> Z).

Lemma insert_by_front x l :
  Forall (fun a => key x <= key a) l -> insert_by key x l = x :: l.
Proof.
  intros Hall. destruct l as [|y l]; [reflexivity|]. cbn [insert_by].
  inversion Hall; subst.
  destruct (key x <=? key y)%Z eqn:Hle; [reflexivity|].
  apply Z.leb_gt in Hle. lia.
Qed.

Lemma insert_by_filter (f : A -> bool) x l :
  ascending key l ->
  filter f (insert_by key x l)
  = if f x then insert_by key x (filter f l) else filter f l.
Proof.
  unfold ascending. induction 1 as [|y l Hl IH Hy]; cbn [insert_by filter].
  - destruct (f x); reflexivity.
  - destruct (key x <=? key y)%Z eqn:Hle.
    + apply Z.leb_le in Hle. cbn [filter].
      destruct (f x); [|reflexivity].
      symmetry. apply insert_by_front.
      apply Forall_forall. intros a Hin.
      change (In a (filter f (y :: l))) in Hin.
      apply filter_In in Hin as [[->|Hin] _]; [exact Hle|].
      rewrite Forall_forall in Hy. specialize (Hy a Hin). cbn in Hy. lia.
    + cbn [filter]. rewrite IH.
      destruct (f y); destruct (f x); cbn [insert_by]; rewrite ?Hle;
        reflexivity.
Qed.

(** Sorting and filtering commute. *)
Lemma py_sorted_filter (f : A -> bool) l :
  filter f (py_sorted key l) = py_sorted key (filter f l).
Proof.
  induction l as [|x l IH]; [reflexivity|].
  change (py_sorted key (x :: l)) with (insert_by key x (py_sorted key l)).
  rewrite insert_by_filter by apply py_sorted_ascending.
  cbn [filter]. destruct (f x); rewrite IH; reflexivity.
Qed.

End SortingFilter.

Section SourceSelection.

(** [get_source_for_domain] returns an enabled source of the domain whose
    priority number is at least the requested one and is the least such; of
    several with that number it is the first configured.  It returns [None]
    only if the domain has no enabled source with such a number. *)
Theorem get_source_for_domain_is_least (config : Backend2Config.t)
    (domain : string) (priority : Z) :
  let eligible source :=
    DataSourceConfig.enabled source
    && (priority <=? DataSourceConfig.priority source)%Z in
  match get_source_for_domain config domain priority with
  | Some source =>
      In source (configured_sources config domain)
      /\ eligible source = true
      /\ (forall other, In other (configured_sources config domain) ->
                        eligible other = true ->
                        DataSourceConfig.priority source
                        <= DataSourceConfig.priority other)
      /\ find (fun other =>
                 eligible other
                 && (DataSourceConfig.priority other
                     =? DataSourceConfig.priority source)%Z)
           (configured_sources config domain) = Some source
  | None =>
      forall other, In other (configured_sources config domain) ->
                    eligible other = false
  end.
Proof.
  cbv zeta. unfold get_source_for_domain, configured_sources.
  destruct (table_lookup domain (Backend2Config.data_sources config))
    as [sources|]; [|intros other []].
  set (eligible := fun source =>
         DataSourceConfig.enabled source
         && (priority <=? DataSourceConfig.priority source)%Z).
  destruct (find eligible (py_sorted DataSourceConfig.priority (map snd sources)))
    as [source|] eqn:Hfind.
  - pose proof (find_some _ _ Hfind) as [Hin Hel].
    pose proof (py_sorted_perm DataSourceConfig.priority (map snd sources))
      as Hperm.
    split; [eapply Permutation_in; [symmetry; exact Hperm | exact Hin]|].
    split; [exact Hel|]. split.
    + intros other Hother Helo.
      eapply (find_ascending_least DataSourceConfig.priority eligible);
        [apply py_sorted_ascending | exact Hfind | | exact Helo].
      eapply Permutation_in; [exact Hperm | exact Hother].
    + apply (find_sorted_first DataSourceConfig.priority eligible), Hfind.
  - intros other Hother.
    apply (find_none _ _ Hfind other).
    eapply Permutation_in; [|exact Hother].
    apply py_sorted_perm.
Qed.

(** [get_source_for_domain] is the first entry of
    [get_all_sources_for_domain] whose priority number is at least the
    requested one. *)
Theorem get_source_is_first_of_all_sources (config : Backend2Config.t)
    (domain : string) (priority : Z) :
  get_source_for_domain config domain priority
  = find (fun source => (priority <=? DataSourceConfig.priority source)%Z)
      (get_all_sources_for_domain config domain).
Proof.
  unfold get_source_for_domain, get_all_sources_for_domain.
  destruct (table_lookup domain (Backend2Config.data_sources config))
    as [sources|]; [|reflexivity].
  rewrite <- py_sorted_filter, !find_filter, <- filter_andb.
  f_equal. apply filter_ext. intros source. apply andb_comm.
Qed.

End SourceSelection.

Section DiscoveryFacts.
Import DataSourceDiscovery.

(** [get_active_endpoints] returns the validated endpoints of the domain,
    each as often as it is registered, in ascending order of their discovery
    method (static, HTML parse, API discovery, then the rest), and in their
    registration order within one method. *)
Theorem get_active_endpoints_sorted (endpoints : list (string * list Endpoint))
    (domain : string) :
  let active := get_active_endpoints endpoints domain in
  let validated :=
    filter validation_success (registered_endpoints endpoints domain) in
  Permutation validated active
  /\ ascending method_priority active
  /\ forall k, filter (fun endpoint => (method_priority endpoint =? k)%Z) active
               = filter (fun endpoint => (method_priority endpoint =? k)%Z)
                   validated.
Proof.
  cbv zeta. unfold get_active_endpoints, registered_endpoints.
  destruct (table_lookup domain endpoints) as [registered|].
  - split; [apply py_sorted_perm|]. split; [apply py_sorted_ascending|].
    intros k. apply py_sorted_stable.
  - split; [reflexivity|]. split; [constructor | reflexivity].
Qed.

(** [_validate_team_data] reads a ['teams'] list as it reads ['data'], but a
    team payload without ['data'] never reaches it: the required keys of the
    domain are checked first, and the payload is rejected. *)
Theorem teams_format_is_rejected (fields : list (string * json)) (teams : json) :
  dict_lookup "data" fields = None ->
  dict_lookup "teams" fields = Some teams ->
  _validate_team_data (JDict fields) = _validate_team_data (JDict [("data", teams)])
  /\ _validate_response_structure (JDict fields) "team_info" = Ok false.
Proof.
  intros Hdata Hteams. split.
  - unfold _validate_team_data, py_in, subscript. rewrite Hdata, Hteams.
    reflexivity.
  - unfold _validate_response_structure. cbn [table_lookup required_keys String.eqb
      Ascii.eqb Bool.eqb all_keys_in]. unfold py_in. rewrite Hdata. reflexivity.
Qed.

(** The same for players: [_validate_player_data] falls back from ['people']
    to ['data'], but a payload without ['people'] is rejected before. *)
Theorem player_data_format_is_rejected (fields : list (string * json))
    (players : json) :
  dict_lookup "people" fields = None ->
  dict_lookup "data" fields = Some players ->
  _validate_player_data (JDict fields)
  = _validate_player_data (JDict [("people", players)])
  /\ _validate_response_structure (JDict fields) "player_stats" = Ok false.
Proof.
  intros Hpeople Hdata. split.
  - unfold _validate_player_data, py_in, subscript. rewrite Hpeople, Hdata.
    reflexivity.
  - unfold _validate_response_structure. cbn [table_lookup required_keys String.eqb
      Ascii.eqb Bool.eqb all_keys_in]. unfold py_in. rewrite Hpeople. reflexivity.
Qed.

Lemma is_Some_true {A} (o : option A) :
  bool_decide (is_Some o) = true <-> is_Some o.
Proof. apply bool_decide_eq_true. Qed.

(** What a validated live-game payload looks like: it has ['games'] and
    ['gameDate'], and if ['games'] is a list with a first game, that game has
    a ['gameState'] and its two teams are dicts with an ['id']. *)
Theorem validated_live_game_shape (fields : list (string * json)) :
  _validate_response_structure (JDict fields) "live_game" = Ok true ->
  exists games,
    dict_lookup "games" fields = Some games
    /\ is_Some (dict_lookup "gameDate" fields)
    /\ forall game rest,
         games = JList (game :: rest) ->
         py_in "gameState" game = Ok true
         /\ forall team_key,
              team_key = "awayTeam" \/ team_key = "homeTeam" ->
              exists team,
                subscript game team_key = Ok (JDict team)
                /\ is_Some (dict_lookup "id" team).
Proof.
  intros Hvalid. unfold _validate_response_structure in Hvalid.
  cbn [table_lookup required_keys String.eqb Ascii.eqb Bool.eqb all_keys_in]
    in Hvalid.
  unfold py_in at 1 2 in Hvalid.
  destruct (dict_lookup "games" fields) as [games|] eqn:Hgames.
  2:{ rewrite bool_decide_eq_false_2 in Hvalid by (intros [? ?]; discriminate).
      cbn in Hvalid. discriminate. }
  rewrite (bool_decide_eq_true_2 (is_Some (Some games))) in Hvalid
    by (eexists; reflexivity).
  cbn [mbind Res_bind] in Hvalid.
  destruct (bool_decide (is_Some (dict_lookup "gameDate" fields))) eqn:Hdate;
    [|cbn in Hvalid; discriminate].
  apply is_Some_true in Hdate. cbn [mbind Res_bind negb] in Hvalid.
  unfold _validate_game_data, py_in, subscript in Hvalid.
  rewrite Hgames in Hvalid.
  rewrite (bool_decide_eq_true_2 (is_Some (Some games))) in Hvalid
    by (eexists; reflexivity).
  cbn [mbind Res_bind negb] in Hvalid.
  exists games. split; [reflexivity|]. split; [exact Hdate|].
  intros game rest ->. cbn [all_keys_in teams_have_id] in Hvalid.
  destruct (py_in "awayTeam" game) as [[|]|] eqn:Haway;
    cbn [mbind Res_bind negb] in Hvalid; try discriminate.
  destruct (py_in "homeTeam" game) as [[|]|] eqn:Hhome;
    cbn [mbind Res_bind negb] in Hvalid; try discriminate.
  destruct (py_in "gameState" game) as [[|]|] eqn:Hstate;
    cbn [mbind Res_bind negb] in Hvalid; try discriminate.
  split; [reflexivity|].
  destruct (subscript game "awayTeam") as [[| | | | | |away]|] eqn:Ha;
    cbn [mbind Res_bind] in Hvalid; try discriminate.
  destruct (bool_decide (is_Some (dict_lookup "id" away))) eqn:Haid;
    [|discriminate].
  destruct (subscript game "homeTeam") as [[| | | | | |home]|] eqn:Hh;
    cbn [mbind Res_bind] in Hvalid; try discriminate.
  destruct (bool_decide (is_Some (dict_lookup "id" home))) eqn:Hhid;
    [|discriminate].
  apply is_Some_true in Haid, Hhid.
  intros team_key [-> | ->]; eauto.
Qed.

(** [_validate_file_endpoint]: on success the endpoint is marked validated at
    the current time and gets at most 50 expected keys, taken from a file
    that exists and passes the structure validation of the domain; on failure
    the endpoint is left as it was, so a flag set by an earlier validation
    stays set. *)
Theorem validate_file_endpoint_updates_on_success_only
    (files : gmap string json) (now : Q) (endpoint : Endpoint) :
  let r := _validate_file_endpoint files now endpoint in
  if snd r
  then validation_success (fst r) = true
       /\ last_validated (fst r) = now
       /\ (length (expected_keys (fst r)) <= 50)%nat
       /\ url (fst r) = url endpoint
       /\ domain (fst r) = domain endpoint
       /\ source_name (fst r) = source_name endpoint
       /\ exists data,
            files !! PyStr.replace "file://" "" (url endpoint) = Some data
            /\ _validate_response_structure data (domain endpoint) = Ok true
            /\ expected_keys (fst r)
               = _extract_expected_keys data (domain endpoint)
  else fst r = endpoint.
Proof.
  cbv zeta. unfold _validate_file_endpoint.
  destruct (files !! PyStr.replace "file://" "" (url endpoint)) as [data|];
    [|reflexivity].
  destruct (_validate_response_structure data (domain endpoint))
    as [[|]|] eqn:Hvalid; try reflexivity.
  cbn [fst snd validation_success last_validated expected_keys url domain
       source_name].
  repeat (split; [reflexivity|]). split.
  - unfold _extract_expected_keys. rewrite length_take. lia.
  - repeat (split; [reflexivity|]).
    exists data. split; [reflexivity|]. split; [exact Hvalid | reflexivity].
Qed.

End DiscoveryFacts.

(** ** More of the normalizer *)
(* --------------------------------------------------------------------- *)

Section PathMoreFacts.

Lemma int_of_string_raises s e :
  PyStr.int_of_string s = Raise e -> e = ValueError.
Proof.
  unfold PyStr.int_of_string.
  repeat match goal with
         | |- context [match ?x with _ => _ end] => destruct x
         end; congruence.
Qed.

Lemma extract_part_raises current part e :
  extract_part current part = Raise e ->
  e = TypeError /\ is_index_part part = true.
Proof.
  unfold extract_part, is_index_part.
  destruct (PyStr.contains "[" part && PyStr.contains "]" part) eqn:Hbr.
  2:{ destruct current; discriminate. }
  apply andb_true_iff in Hbr as [Hopen _].
  destruct (split_bracket_second part Hopen) as [s ->]. cbn [mbind Res_bind].
  intros Hraise. split; [|reflexivity].
  set (key := PyStr.first_part (PyStr.split "[" part)) in *.
  assert (forall (current' : json) k,
             match current' with
             | JList l =>
                 match PyStr.int_of_string k with
                 | Ok index =>
                     if (0 <=? index)%Z && (index <? Z.of_nat (length l))%Z
                     then Ok (nth (Z.to_nat index) l JNull)
                     else Ok JNull
                 | Raise ValueError => Ok JNull
                 | Raise e => Raise e
                 end
             | _ => Ok JNull
             end = Raise e -> False) as Hindex.
  { intros current' k. destruct current'; try discriminate.
    destruct (PyStr.int_of_string k) as [index|e'] eqn:Hi.
    - destruct (_ && _); discriminate.
    - rewrite (int_of_string_raises _ _ Hi). discriminate. }
  destruct (negb (String.eqb key "")).
  - destruct (py_in key current) as [[|]|e'] eqn:Hin;
      cbn [mbind Res_bind] in Hraise.
    + destruct (subscript current key) as [x|e''] eqn:Hsub;
        cbn [mbind Res_bind] in Hraise.
      * exfalso. eapply Hindex, Hraise.
      * injection Hraise as <-.
        destruct current; cbn in Hsub; try congruence.
        cbn in Hin. injection Hin as Hin.
        apply bool_decide_eq_true in Hin as [x Hx]. rewrite Hx in Hsub.
        discriminate.
    + exfalso. eapply Hindex, Hraise.
    + injection Hraise as <-. destruct current; cbn in Hin; congruence.
  - cbn [mbind Res_bind] in Hraise. exfalso. eapply Hindex, Hraise.
Qed.

Lemma extract_parts_raises parts : forall current e,
  extract_parts current parts = Raise e ->
  e = TypeError /\ Exists (fun part => is_index_part part = true) parts.
Proof.
  induction parts as [|part parts IH]; intros current e; [discriminate|].
  cbn [extract_parts]. destruct (is_none current); [discriminate|].
  destruct (extract_part current part) as [next|e'] eqn:Hpart;
    cbn [mbind Res_bind].
  - intros Hrest. destruct (IH _ _ Hrest) as [-> Hex].
    split; [reflexivity|]. apply Exists_cons_tl, Hex.
  - intros [= <-]. destruct (extract_part_raises _ _ _ Hpart) as [-> Hidx].
    split; [reflexivity|]. apply Exists_cons_hd, Hidx.
Qed.

(** [_extract_value_by_path] raises nothing but [TypeError], and that only
    on a path with an index part such as [competitions[0]]: a path of plain
    keys returns, with [None] for whatever it cannot follow. *)
Theorem extract_value_by_path_raises_type_error_only (data : json)
    (path : string) (e : PyExc) :
  _extract_value_by_path data path = Raise e ->
  e = TypeError
  /\ Exists (fun part => is_index_part part = true) (PyStr.split "." path).
Proof.
  unfold _extract_value_by_path.
  destruct (String.eqb path "" || is_none data); [discriminate|].
  apply extract_parts_raises.
Qed.

Lemma split_nonempty sep s : PyStr.split sep s <> [].
Proof.
  destruct s as [|c s]; cbn [PyStr.split]; [discriminate|].
  destruct (Ascii.eqb c sep); [discriminate|].
  destruct (PyStr.split sep s); discriminate.
Qed.

Lemma extract_plain_part d part :
  is_index_part part = false ->
  extract_part (JDict d) part = Ok (from_option id JNull (dict_lookup part d)).
Proof.
  unfold extract_part, is_index_part. intros ->. reflexivity.
Qed.

Lemma set_parts_then_extract parts : forall current value result,
  parts <> [] ->
  Forall (fun part => is_index_part part = false) parts ->
  set_parts current parts value = Ok result ->
  extract_parts result parts = Ok value.
Proof.
  induction parts as [|part parts IH]; intros current value result Hne Hplain;
    [congruence|].
  inversion Hplain as [|? ? Hpart Hrest]; subst.
  destruct parts as [|part' parts].
  - cbn [set_parts extract_parts]. destruct current; try discriminate.
    cbn [py_setitem]. intros [= <-]. cbn [is_none].
    rewrite extract_plain_part by exact Hpart.
    rewrite dict_lookup_set. reflexivity.
  - change (set_parts current (part :: part' :: parts) value)
      with (match current with
            | JDict d =>
                child ← set_parts (from_option id (JDict []) (dict_lookup part d))
                          (part' :: parts) value;
                mret (JDict (dict_set part child d))
            | _ => Raise TypeError
            end).
    destruct current as [| | | | | |d]; try discriminate.
    destruct (set_parts (from_option id (JDict []) (dict_lookup part d))
                (part' :: parts) value) as [child|] eqn:Hchild;
      [|discriminate].
    cbn [mbind mret Res_bind Res_ret]. intros [= <-].
    change (extract_parts (JDict (dict_set part child d))
              (part :: part' :: parts))
      with (current ← extract_part (JDict (dict_set part child d)) part;
            extract_parts current (part' :: parts)).
    rewrite extract_plain_part by exact Hpart.
    rewrite dict_lookup_set. cbn [from_option id mbind Res_bind].
    eapply IH; [discriminate | exact Hrest | exact Hchild].
Qed.

(** What [_set_value_by_path] stored under a path of plain keys,
    [_extract_value_by_path] reads back under the same path. *)
Theorem set_then_extract_by_path (data : json) (path : string)
    (value result : json) :
  path <> "" ->
  Forall (fun part => is_index_part part = false) (PyStr.split "." path) ->
  _set_value_by_path data path value = Ok result ->
  _extract_value_by_path result path = Ok value.
Proof.
  intros Hpath Hplain. unfold _set_value_by_path, _extract_value_by_path.
  apply String.eqb_neq in Hpath. rewrite Hpath. cbn [orb].
  intros Hset.
  assert (is_none result = false) as ->.
  { destruct (PyStr.split "." path) as [|part [|part' parts]] eqn:Hsplit.
    - exfalso. exact (split_nonempty _ _ Hsplit).
    - cbn in Hset. destruct data; try discriminate.
      injection Hset as <-. reflexivity.
    - cbn in Hset. destruct data; try discriminate.
      destruct (match parts with [] => _ | _ => _ end); try discriminate.
      injection Hset as <-. reflexivity. }
  eapply set_parts_then_extract; [apply split_nonempty | exact Hplain | exact Hset].
Qed.

End PathMoreFacts.

Section RecursionFacts.
Context `{Runtime}.

(** When the rules make the payload look like array data but the loop of
    [_apply_rules_to_array] ends with an empty or missing array,
    [_apply_rules_to_array] calls [_apply_rules] back with the same
    arguments: the two never return, and the call ends in a
    [RecursionError] whatever depth the interpreter allows. *)
Theorem apply_rules_recurses_without_array (depth : nat) (data : json)
    (rules : list ParsingRule.t) (array_field : option string)
    (array_data : json) :
  _is_array_data data rules = Ok true ->
  find_array data rules JNull = Ok (array_field, array_data) ->
  truthy array_data = false ->
  _apply_rules depth data rules = Raise RecursionError.
Proof.
  intros Harray Hfind Hempty.
  induction depth as [|depth IH]; [reflexivity|].
  cbn [_apply_rules]. rewrite Harray. cbn [mbind Res_bind].
  unfold _apply_rules_to_array. rewrite Hfind. cbn [mbind Res_bind].
  rewrite Hempty. cbn [negb]. exact IH.
Qed.

(** The ESPN standings rules read the array from
    [children[0].standings.entries], which contains an array indicator but is
    none: whenever that path leads to a list, of any length,
    [_apply_rules] ends in a [RecursionError]. *)
Theorem espn_standings_never_normalize (depth : nat) (data : json)
    (entries : list json) :
  _extract_value_by_path data "children[0].standings.entries"
  = Ok (JList entries) ->
  _apply_rules depth data _get_espn_standings_rules = Raise RecursionError.
Proof.
  intros Hentries.
  apply (apply_rules_recurses_without_array depth data _ None JNull).
  - unfold _get_espn_standings_rules. cbn [_is_array_data].
    change (has_indicator
              (ParsingRule.source_path
                 (rule "children[0].standings.entries" "standings"
                    (Some _transform_espn_standings) true JNull)))
      with (has_indicator "children[0].standings.entries").
    replace (has_indicator "children[0].standings.entries") with true
      by (vm_compute; reflexivity).
    change (ParsingRule.source_path
              (rule "children[0].standings.entries" "standings"
                 (Some _transform_espn_standings) true JNull))
      with "children[0].standings.entries".
    rewrite Hentries. reflexivity.
  - reflexivity.
  - reflexivity.
Qed.

End RecursionFacts.

Section AdaptationMoreFacts.

Lemma adapted_from_refl r : adapted_from r r.
Proof. repeat split; auto. Qed.

Lemma adapted_from_trans r a b :
  adapted_from r a -> adapted_from a b -> adapted_from r b.
Proof.
  intros (Ht & Hf & Hr & Hd) (Ht' & Hf' & Hr' & Hd').
  repeat split; try congruence; auto.
  intros Hsome. rewrite Hd'; [auto|]. rewrite Hd; auto.
Qed.

Lemma relax_rule_adapted r : adapted_from r (relax_rule r).
Proof.
  unfold relax_rule. repeat split; cbn; try discriminate.
  intros ->. reflexivity.
Qed.

Lemma adapt_rule_adapted removed_key raw_data r :
  adapted_from r (adapt_rule removed_key raw_data r).
Proof.
  unfold adapt_rule.
  destruct (PyStr.contains removed_key (ParsingRule.source_path r));
    [|apply adapted_from_refl].
  destruct (_find_alternative_key_path removed_key raw_data) as [alt|];
    [|apply relax_rule_adapted].
  destruct (String.eqb alt ""); [apply relax_rule_adapted|].
  repeat split; auto.
Qed.

(** [_adapt_rules_for_schema_changes] returns as many rules as it got, in the
    same order; it leaves every target path and transform alone, never makes
    an optional rule required, and never replaces a default that was set.
    A rule whose source path contains none of the removed keys is returned
    as it is. *)
Theorem adaptation_keeps_targets (original_rules : list ParsingRule.t)
    (changes : Changes.t) (raw_data : json) :
  let adapted := _adapt_rules_for_schema_changes original_rules changes raw_data in
  Forall2 adapted_from original_rules adapted
  /\ forall i r,
       original_rules !! i = Some r ->
       (forall removed_key, In removed_key (Changes.removed_keys changes) ->
          PyStr.contains removed_key (ParsingRule.source_path r) = false) ->
       adapted !! i = Some r.
Proof.
  cbv zeta. unfold _adapt_rules_for_schema_changes.
  generalize (Changes.removed_keys changes). intros removed.
  assert (forall rules,
             Forall2 adapted_from original_rules rules ->
             Forall2 adapted_from original_rules
               (fold_left (fun adapted_rules removed_key =>
                             map (adapt_rule removed_key raw_data) adapted_rules)
                  removed rules)) as Hshape.
  { induction removed as [|removed_key removed IH]; intros rules Hrules;
      [exact Hrules|].
    cbn [fold_left]. apply IH.
    clear IH. induction Hrules as [|r a rs rest Hra _ IHrs];
      [constructor|].
    cbn [map]. constructor; [|exact IHrs].
    eapply adapted_from_trans; [exact Hra|apply adapt_rule_adapted]. }
  split.
  - apply Hshape. clear. induction original_rules; constructor;
      [apply adapted_from_refl | assumption].
  - intros i r Hi Hclean. clear Hshape.
    revert original_rules Hi Hclean.
    induction removed as [|removed_key removed IH];
      intros original_rules Hi Hclean; [exact Hi|].
    cbn [fold_left]. apply IH.
    + change (map (adapt_rule removed_key raw_data) original_rules)
        with (adapt_rule removed_key raw_data <$> original_rules).
      rewrite list_lookup_fmap, Hi. cbn. f_equal.
      unfold adapt_rule. rewrite Hclean by (left; reflexivity). reflexivity.
    + intros k Hk. apply Hclean. right. exact Hk.
Qed.

End AdaptationMoreFacts.

Section KeyPathMoreFacts.

Lemma all_key_paths_dict_app (fs1 fs2 : list (string * json)) path :
  _extract_all_key_paths (JDict (fs1 ++ fs2)) path
  = _extract_all_key_paths (JDict fs1) path
    ++ _extract_all_key_paths (JDict fs2) path.
Proof.
  induction fs1 as [|[k v] fs1 IH]; [reflexivity|].
  cbn [_extract_all_key_paths app] in *. rewrite IH, <- !app_assoc.
  reflexivity.
Qed.

Lemma extract_paths_within_all : forall obj path acc p,
  p ∈ fst (extract_paths obj path acc) ->
  p ∈ fst acc \/ p ∈ _extract_all_key_paths obj path.
Proof.
  induction obj as [| | | | | items IH | fields IH] using json_nested_ind;
    intros path acc p; try (intros Hp; left; exact Hp).
  - destruct items as [|first rest]; [intros Hp; left; exact Hp|].
    cbn [extract_paths _extract_all_key_paths]. inversion IH as [|? ? Hfirst _]; subst.
    intros Hp. destruct (Hfirst _ _ _ Hp) as [Hacc|Hin]; [left; exact Hacc|].
    right. rewrite elem_of_app. right.
    destruct path as [|c path']; exact Hin.
  - cbn [extract_paths]. revert acc.
    induction IH as [|[key value] fields Hvalue _ IHfields]; intros acc Hp;
      [left; exact Hp|].
    cbn [snd] in Hvalue.
    change (_extract_all_key_paths (JDict ((key, value) :: fields)) path)
      with ((join_path path key
             :: _extract_all_key_paths value (join_path path key))
            ++ _extract_all_key_paths (JDict fields) path).
    rewrite elem_of_app, elem_of_cons.
    destruct (IHfields _ Hp) as [Hacc|Hin]; [|auto].
    destruct (Hvalue _ _ _ Hacc) as [Hacc'|Hin]; [|auto].
    cbn [fst] in Hacc'. rewrite elem_of_app, list_elem_of_singleton in Hacc'.
    destruct Hacc' as [Hacc' | ->]; auto.
Qed.

End KeyPathMoreFacts.

Section KeyPathParserFacts.
Context `{Runtime}.

(** Every key path of a payload's fingerprint is among the paths in which
    [_find_alternative_key_path] looks for a replacement. *)
Theorem fingerprint_paths_are_candidates (now : Q) (data : json)
    (source_name domain path : string) :
  path ∈ SchemaFingerprint.key_paths
           (create_schema_fingerprint now data source_name domain) ->
  path ∈ _extract_all_key_paths data "".
Proof.
  pose proof (extract_paths_within_all data "" ([], ∅) path) as Hwithin.
  unfold create_schema_fingerprint.
  destruct (extract_paths data "" ([], ∅)) as [key_paths type_signatures].
  cbn [SchemaFingerprint.key_paths fst] in *.
  intros Hp. destruct (Hwithin Hp) as [Hnil|Hin]; [|exact Hin].
  inversion Hnil.
Qed.

End KeyPathParserFacts.

(** ** More of the poller *)
(* --------------------------------------------------------------------- *)

Section PollerMoreFacts.
Import AdaptivePoller PollerSpec.
Variable config : Backend2Config.t.
Variable endpoints : gmap string (list DiscoveredEndpoint.t).

(** The state and the result of a cycle whose endpoint loop ran to its end. *)
Lemma poll_domain_exhausted world domain rate_limits state available rl' :
  endpoints !! domain = Some available ->
  available <> [] ->
  poll_endpoints config world (DomainState.active_source_index state) 0
    available rate_limits = (rl', None) ->
  exists index,
    _poll_domain config endpoints world domain rate_limits state
    = (rl',
       DomainState.with_source state
         (DomainState.consecutive_failures state + 1) index,
       if truthy (DomainState.cached_data state)
       then from_cache (DomainState.cached_data state)
       else failure ("All sources failed for domain: " ++ domain)).
Proof.
  intros Hdom Hne Hloop. unfold _poll_domain. rewrite Hdom.
  destruct available as [|endpoint rest]; [congruence|].
  rewrite Hloop. eexists. reflexivity.
Qed.

(** When every endpoint fails and the domain holds a payload from an earlier
    cycle, the cycle serves that payload: nothing is handed to the
    callbacks, the held payload stays, the failure is counted, and yet the
    cycle is recorded as a successful poll. *)
Theorem failed_cycle_serves_held_payload
    (world : nat -> Attempt) (update_time : Q) (domain : string)
    (rate_limits : gmap string (list Q)) (state : DomainState.t)
    (available : list DiscoveredEndpoint.t) :
  endpoints !! domain = Some available ->
  available <> [] ->
  snd (poll_endpoints config world (DomainState.active_source_index state) 0
         available rate_limits) = None ->
  truthy (DomainState.cached_data state) = true ->
  let r := poll_cycle config endpoints world update_time domain rate_limits
             state in
  snd r = None
  /\ DomainState.cached_data (snd (fst r)) = DomainState.cached_data state
  /\ DomainState.consecutive_failures (snd (fst r))
     = DomainState.consecutive_failures state + 1
  /\ DomainState.last_poll_time (snd (fst r)) = update_time
  /\ DomainState.last_successful_poll (snd (fst r)) = update_time.
Proof.
  intros Hdom Hne Hnone Hheld. cbv zeta.
  destruct (poll_endpoints config world (DomainState.active_source_index state)
              0 available rate_limits) as [rl' outcome] eqn:Hloop.
  cbn [snd] in Hnone. subst outcome.
  destruct (poll_domain_exhausted world domain rate_limits state available rl'
              Hdom Hne Hloop) as [index Hpoll].
  unfold poll_cycle. rewrite Hpoll, Hheld.
  unfold _update_domain_state, from_cache.
  cbn [PollResult.success PollResult.data PollResult.cached negb andb].
  rewrite andb_false_r. cbn. repeat split; reflexivity.
Qed.

(** A payload handed to the callbacks is the payload the domain holds
    afterwards, and the cycle that delivered it left the domain on its first
    source with no failure counted. *)
Theorem notified_payload_is_held
    (world : nat -> Attempt) (update_time : Q) (domain : string)
    (rate_limits : gmap string (list Q)) (state : DomainState.t) (data : json) :
  let r := poll_cycle config endpoints world update_time domain rate_limits
             state in
  snd r = Some data ->
  DomainState.cached_data (snd (fst r)) = data
  /\ truthy data = true
  /\ DomainState.last_successful_poll (snd (fst r)) = update_time
  /\ DomainState.active_source_index (snd (fst r)) = 0
  /\ DomainState.consecutive_failures (snd (fst r)) = 0.
Proof.
  cbv zeta. unfold poll_cycle.
  assert (forall result,
             PollResult.success result = true ->
             PollResult.cached result = false ->
             snd (_poll_domain config endpoints world domain rate_limits state)
             = result ->
             DomainState.active_source_index
               (snd (fst (_poll_domain config endpoints world domain
                            rate_limits state))) = 0
             /\ DomainState.consecutive_failures
                  (snd (fst (_poll_domain config endpoints world domain
                               rate_limits state))) = 0) as Hfetched.
  { intros result Hs Hc. unfold _poll_domain.
    destruct (endpoints !! domain) as [[|endpoint rest]|] eqn:Hdom;
      cbn [fst snd]; try (intros <-; cbn in Hs; discriminate).
    destruct (poll_endpoints config world (DomainState.active_source_index state)
                0 (endpoint :: rest) rate_limits) as [rl' [fetched|]];
      cbn [fst snd DomainState.with_source DomainState.active_source_index
           DomainState.consecutive_failures].
    - intros _. split; [|reflexivity].
      destruct (DomainState.active_source_index state =? 0)%Z eqn:E;
        [apply Z.eqb_eq, E | reflexivity].
    - intros <-. cbn in Hs, Hc.
      destruct (truthy (DomainState.cached_data state)); cbn in Hs, Hc;
        discriminate. }
  destruct (_poll_domain config endpoints world domain rate_limits state)
    as [[rl' state1] result] eqn:Hpoll.
  cbn [fst snd] in Hfetched.
  pose proof (update_domain_state_source config domain update_time state1 result)
    as [Hindex Hfailures].
  unfold _update_domain_state in *.
  destruct (PollResult.success result) eqn:Hs; cbn [andb].
  2:{ cbn. discriminate. }
  destruct (truthy (PollResult.data result)) eqn:Ht; cbn [andb].
  2:{ cbn. discriminate. }
  destruct (PollResult.cached result) eqn:Hc; cbn [negb].
  1:{ cbn. discriminate. }
  cbn [andb negb] in Hindex, Hfailures.
  destruct (Hfetched result Hs Hc eq_refl) as [Hi0 Hf0].
  destruct (String.eqb domain "live_game").
  - cbn [DomainState.with_times DomainState.cached_data] in *.
    match goal with
    | |- context [_update_game_state ?s ?d] =>
        assert (DomainState.cached_data (fst (_update_game_state s d))
                = DomainState.cached_data s
                /\ DomainState.last_successful_poll
                     (fst (_update_game_state s d))
                   = DomainState.last_successful_poll s) as [Hheld Hlast]
          by (unfold _update_game_state;
              repeat match goal with
                     | |- context [match ?x with _ => _ end] => destruct x
                     end; cbn; auto);
        destruct (_update_game_state s d) as [state2 [u|e]]
    end; cbn [fst snd] in *; [|discriminate].
    intros [= <-]. cbn [DomainState.with_interval DomainState.cached_data
      DomainState.last_successful_poll DomainState.active_source_index
      DomainState.consecutive_failures] in *.
    rewrite Hheld, Hlast. cbn. repeat split; congruence.
  - cbn [fst snd]. intros [= <-]. cbn in *. repeat split; congruence.
Qed.

(** Outside the live-game domain the polling interval does not adapt: after
    every cycle, whatever the endpoints answered and however many cycles
    failed, it is the configured interval of the domain for standings,
    schedule and player stats, the larger of the standings interval and 3600
    for team info, and 300 for every other domain.  Playoffs and season
    schedule are among the others: the intervals configured for them are
    not read. *)
Theorem interval_ignores_failures
    (world : nat -> Attempt) (update_time : Q) (domain : string)
    (rate_limits : gmap string (list Q)) (state : DomainState.t) :
  domain <> "live_game" ->
  let polling := Backend2Config.polling config in
  DomainState.current_interval
    (snd (fst (poll_cycle config endpoints world update_time domain rate_limits
                 state)))
  = if String.eqb domain "standings" then PollingConfig.standings polling
    else if String.eqb domain "team_info"
    then Z.max (PollingConfig.standings polling) 3600
    else if String.eqb domain "schedule" then PollingConfig.schedule polling
    else if String.eqb domain "player_stats"
    then PollingConfig.player_stats polling
    else 300.
Proof.
  intros Hdomain. apply String.eqb_neq in Hdomain. cbv zeta.
  unfold poll_cycle.
  destruct (_poll_domain config endpoints world domain rate_limits state)
    as [[rl' state1] result].
  unfold _update_domain_state. rewrite Hdomain.
  assert (forall s,
             _calculate_adaptive_interval config domain s
             = if String.eqb domain "standings"
               then PollingConfig.standings (Backend2Config.polling config)
               else if String.eqb domain "team_info"
               then Z.max (PollingConfig.standings (Backend2Config.polling config))
                      3600
               else if String.eqb domain "schedule"
               then PollingConfig.schedule (Backend2Config.polling config)
               else if String.eqb domain "player_stats"
               then PollingConfig.player_stats (Backend2Config.polling config)
               else 300) as Hconst.
  { intros s. unfold _calculate_adaptive_interval. rewrite Hdomain.
    reflexivity. }
  destruct (PollResult.success result);
    [destruct (truthy (PollResult.data result)
               && negb (PollResult.cached result))|];
    cbn; apply Hconst.
Qed.

(** The domain is on a fallback source only within a run of failed cycles
    that is at least two longer than the source's position: from the
    constructor's state on, the index is 0 or at most the failure count
    minus 2. *)
Theorem fallback_needs_three_failures (domain : string)
    (turns : list ((nat -> Attempt) * Q)) (rate_limits : gmap string (list Q)) :
  let state :=
    snd (run_cycles config endpoints domain turns rate_limits
           (DomainState.init domain)) in
  0 <= DomainState.consecutive_failures state
  /\ (DomainState.active_source_index state = 0
      \/ 0 < DomainState.active_source_index state
           <= DomainState.consecutive_failures state - 2).
Proof.
  cbv zeta.
  set (Inv := fun state =>
         0 <= DomainState.consecutive_failures state
         /\ (DomainState.active_source_index state = 0
             \/ 0 < DomainState.active_source_index state
                  <= DomainState.consecutive_failures state - 2)).
  assert (forall world update_time rl state,
             Inv state ->
             Inv (snd (fst (poll_cycle config endpoints world update_time domain
                              rl state)))) as Hstep.
  { intros world update_time rl state HInv. unfold poll_cycle.
    assert (Inv (snd (fst (_poll_domain config endpoints world domain rl state))))
      as Hpoll.
    { unfold _poll_domain.
      destruct (endpoints !! domain) as [[|endpoint rest]|];
        cbn [fst snd]; try exact HInv.
      destruct (poll_endpoints config world (DomainState.active_source_index state)
                  0 (endpoint :: rest) rl) as [rl' [fetched|]];
        unfold Inv in *;
        cbn [fst snd DomainState.with_source DomainState.active_source_index
             DomainState.consecutive_failures].
      - split; [lia|]. left.
        destruct (DomainState.active_source_index state =? 0)%Z eqn:E;
          [apply Z.eqb_eq, E | reflexivity].
      - destruct (3 <=? DomainState.consecutive_failures state + 1)%Z eqn:E3;
          cbn [andb]; [apply Z.leb_le in E3 | lia].
        destruct (DomainState.active_source_index state
                    <? Z.of_nat (length (endpoint :: rest)) - 1)%Z; lia. }
    destruct (_poll_domain config endpoints world domain rl state)
      as [[rl' state1] result]. cbn [fst snd] in Hpoll.
    pose proof (update_domain_state_source config domain update_time state1
                  result) as [Hindex Hfailures].
    destruct (_update_domain_state config domain update_time state1 result)
      as [state2 [u|e]]; cbn [fst snd] in *; unfold Inv in *;
      rewrite Hindex, Hfailures; exact Hpoll. }
  assert (forall state rl,
             Inv state ->
             Inv (snd (run_cycles config endpoints domain turns rl state)))
    as Hrun.
  { induction turns as [|[world update_time] turns' IH]; intros state rl HInv;
      [exact HInv|].
    cbn [run_cycles].
    pose proof (Hstep world update_time rl state HInv) as Hnext.
    destruct (poll_cycle config endpoints world update_time domain rl state)
      as [[rl1 state1] notified]. cbn [fst snd] in Hnext.
    apply IH, Hnext. }
  apply Hrun. unfold Inv. cbn. lia.
Qed.

End PollerMoreFacts.

Section RateLimitFacts.
Import AdaptivePoller PollerSpec.
Variable config : Backend2Config.t.
Variable endpoints : gmap string (list DiscoveredEndpoint.t).

(** [_check_rate_limit] keeps only the requests of the last 60 seconds on
    record, adds the current one exactly when it accepts it, leaves the
    records of the other sources alone, and accepts every request of a
    source that no domain configures. *)
Theorem check_rate_limit_keeps_window (rate_limits : gmap string (list Q))
    (source_name : string) (current_time : Q) :
  let r := _check_rate_limit config rate_limits source_name current_time in
  let recent :=
    filter (fun t => Qltb (current_time - t) 60)
      (default [] (rate_limits !! source_name)) in
  fst r !! source_name
  = Some (if snd r then recent ++ [current_time] else recent)
  /\ Forall (fun t => (current_time - t < 60)%Q)
       (default [] (fst r !! source_name))
  /\ (forall other, other <> source_name ->
                    fst r !! other = rate_limits !! other)
  /\ (find_source_config config source_name = None -> snd r = true).
Proof.
  cbv zeta. unfold _check_rate_limit.
  set (recent := filter (fun t => Qltb (current_time - t) 60)
                   (default [] (rate_limits !! source_name))).
  assert (Forall (fun t => (current_time - t < 60)%Q) recent) as Hrecent.
  { apply Forall_forall. intros t Hin. apply filter_In in Hin as [_ Hlt].
    apply Qltb_true, Hlt. }
  assert (Forall (fun t => (current_time - t < 60)%Q) (recent ++ [current_time]))
    as Hadded.
  { apply Forall_app. split; [exact Hrecent|]. constructor; [|constructor].
    unfold Qminus. rewrite Qplus_opp_r. reflexivity. }
  destruct (match find_source_config config source_name with
            | Some source_config =>
                (DataSourceConfig.rate_limit_per_minute source_config
                   <=? Z.of_nat (length recent))%Z
            | None => false
            end) eqn:Hover; cbn [fst snd].
  - rewrite lookup_insert_eq. cbn [default].
    split; [reflexivity|]. split; [exact Hrecent|]. split.
    + intros other Hother. apply lookup_insert_ne. congruence.
    + intros Hnone. rewrite Hnone in Hover. discriminate.
  - rewrite lookup_insert_eq. cbn [default].
    split; [reflexivity|]. split; [exact Hadded|]. split.
    + intros other Hother. apply lookup_insert_ne. congruence.
    + reflexivity.
Qed.

Lemma check_rate_limit_within rate_limits source_name current_time :
  within_limits config rate_limits ->
  within_limits config
    (fst (_check_rate_limit config rate_limits source_name current_time)).
Proof.
  intros Hwithin other source_config Hconfig.
  specialize (Hwithin other source_config Hconfig).
  unfold _check_rate_limit.
  set (recent := filter (fun t => Qltb (current_time - t) 60)
                   (default [] (rate_limits !! source_name))).
  assert (length recent <= length (default [] (rate_limits !! source_name)))%nat
    as Hshorter by apply filter_length_le.
  destruct (decide (other = source_name)) as [->|Hother].
  - rewrite Hconfig.
    destruct (DataSourceConfig.rate_limit_per_minute source_config
                <=? Z.of_nat (length recent))%Z eqn:Hover; cbn [fst];
      rewrite lookup_insert_eq; cbn [default]; unfold id.
    + lia.
    + apply Z.leb_gt in Hover. rewrite length_app. cbn [length]. lia.
  - destruct (match find_source_config config source_name with
              | Some source_config =>
                  (DataSourceConfig.rate_limit_per_minute source_config
                     <=? Z.of_nat (length recent))%Z
              | None => false
              end); cbn [fst]; rewrite lookup_insert_ne by congruence;
      exact Hwithin.
Qed.

Lemma poll_endpoints_within world active available :
  forall attempt rate_limits,
    within_limits config rate_limits ->
    within_limits config
      (fst (poll_endpoints config world active attempt available rate_limits)).
Proof.
  induction available as [|endpoint rest IH]; intros attempt rate_limits Hwithin;
    [exact Hwithin|].
  cbn [poll_endpoints].
  destruct (Z.of_nat attempt <? active)%Z; [apply IH, Hwithin|].
  unfold _poll_endpoint.
  pose proof (check_rate_limit_within rate_limits
                (DiscoveredEndpoint.source_name endpoint) (now (world attempt))
                Hwithin) as Hnext.
  destruct (_check_rate_limit config rate_limits
              (DiscoveredEndpoint.source_name endpoint) (now (world attempt)))
    as [rl1 ok]. cbn [fst] in Hnext.
  destruct ok; cbn [negb].
  - destruct (fetch (world attempt)) as [result|]; [|apply IH, Hnext].
    destruct (PollResult.success result); [exact Hnext | apply IH, Hnext].
  - cbn [rate_limited PollResult.success]. apply IH, Hnext.
Qed.

(** Through every run of poll cycles the record stays within the limits:
    whatever the endpoints answer and whenever they are polled, no source
    ever has more accepted requests on record than its configured limit. *)
Theorem rate_limits_respected (domain : string)
    (turns : list ((nat -> Attempt) * Q)) (rate_limits : gmap string (list Q))
    (state : DomainState.t) :
  within_limits config rate_limits ->
  within_limits config
    (fst (run_cycles config endpoints domain turns rate_limits state)).
Proof.
  revert rate_limits state.
  induction turns as [|[world update_time] turns IH];
    intros rate_limits state Hwithin; [exact Hwithin|].
  cbn [run_cycles].
  assert (within_limits config
            (fst (fst (poll_cycle config endpoints world update_time domain
                         rate_limits state)))) as Hstep.
  { unfold poll_cycle.
    assert (within_limits config
              (fst (fst (_poll_domain config endpoints world domain rate_limits
                           state)))) as Hpoll.
    { unfold _poll_domain.
      destruct (endpoints !! domain) as [[|endpoint rest]|];
        cbn [fst]; try exact Hwithin.
      pose proof (poll_endpoints_within world
                    (DomainState.active_source_index state) (endpoint :: rest)
                    0%nat rate_limits Hwithin) as Hloop.
      destruct (poll_endpoints config world
                  (DomainState.active_source_index state) 0 (endpoint :: rest)
                  rate_limits) as [rl' [fetched|]]; exact Hloop. }
    destruct (_poll_domain config endpoints world domain rate_limits state)
      as [[rl' state1] result]. cbn [fst] in Hpoll.
    destruct (_update_domain_state config domain update_time state1 result)
      as [state2 [u|e]]; exact Hpoll. }
  destruct (poll_cycle config endpoints world update_time domain rate_limits
              state) as [[rl1 state1] notified]. cbn [fst] in Hstep.
  apply IH, Hstep.
Qed.

End RateLimitFacts.

(** ** The statements at concrete inputs *)
(* --------------------------------------------------------------------- *)

#[local] Existing Instance Sample.runtime.

(** C10 as worded fails: [espn_v2] overlaps with [espn] and gets its rules,
    but on a day without events the normalization raises, and [parse_data]
    hands the raw payload back all the same. *)
Lemma raw_payload_despite_overlap :
  ~ raw_payload_only_without_overlap _initialize_parsing_rules
      Sample.empty_cache 100 1000 Sample.no_events "live_game" "espn_v2".
Proof.
  intros Hclaim.
  apply (Hclaim [ ("nhl_official", _get_nhl_official_game_rules);
                  ("espn", _get_espn_game_rules);
                  ("nhl_legacy", _get_nhl_legacy_game_rules) ]
           eq_refl eq_refl).
  - vm_compute. reflexivity.
  - exists ("espn", _get_espn_game_rules).
    split; [right; left; reflexivity | reflexivity].
Qed.

(** C10 (amended), at the live-game domain: a source named [espn_v2] gets
    the [espn] rules. *)
Lemma espn_v2_gets_espn_rules :
  _get_parsing_rules _initialize_parsing_rules
    "live_game" "espn_v2"
  = Some _get_espn_game_rules.
Proof.
  destruct (rule_lookup_is_fuzzy
              _initialize_parsing_rules "live_game" "espn_v2"
              [ ("nhl_official", _get_nhl_official_game_rules);
                ("espn", _get_espn_game_rules);
                ("nhl_legacy", _get_nhl_legacy_game_rules) ]
              eq_refl eq_refl) as (_ & Hfirst & _).
  apply (Hfirst ("espn", _get_espn_game_rules)).
  exists [("nhl_official", _get_nhl_official_game_rules)],
         [("nhl_legacy", _get_nhl_legacy_game_rules)].
  split; [reflexivity|]. split; [reflexivity|].
  intros earlier [<-|[]]. reflexivity.
Defined.

(** C3, at a fingerprint whose abbreviation path was renamed and whose id
    changed type: one added, one removed and one type-changed key-path out
    of six. *)
Lemma renamed_field_scores_one_half :
  (Changes.structural_change_score
     (SchemaCache.compare_fingerprints Sample.fingerprint_before
        Sample.fingerprint_after) == 1 # 2)%Q.
Proof.
  destruct (compare_fingerprints_score Sample.fingerprint_before
              Sample.fingerprint_after) as (_ & _ & _ & Hscore & _).
  rewrite Hscore by (vm_compute; lia).
  vm_compute. reflexivity.
Defined.


(** C6, at a day without games: [_apply_rules] and [_apply_rules_to_array]
    call each other until the interpreter gives up, and [parse_data] hands
    the payload back. *)
Lemma parse_data_survives_recursion_error :
  snd (fst (DataParser.parse_data_try _initialize_parsing_rules
              Sample.empty_cache 100 1000 Sample.no_games "live_game"
              "nhl_official")) = Raise RecursionError
  /\ snd (fst (DataParser.parse_data _initialize_parsing_rules
                 Sample.empty_cache 100 1000 Sample.no_games "live_game"
                 "nhl_official")) = Sample.no_games.
Proof.
  assert (snd (fst (DataParser.parse_data_try _initialize_parsing_rules
                      Sample.empty_cache 100 1000 Sample.no_games "live_game"
                      "nhl_official")) = Raise RecursionError) as Hraise
    by (vm_compute; reflexivity).
  split; [exact Hraise|].
  exact (proj1 (parse_data_never_raises _initialize_parsing_rules
                  Sample.empty_cache 100 1000 Sample.no_games "live_game"
                  "nhl_official") RecursionError Hraise).
Defined.

(** The checks of [scripts/test_data_parsing.py] on the official-format live
    game: one game, with its date, the two abbreviations and the state. *)
Example sample_nhl_game_normalizes :
  let parsed_nhl :=
    snd (fst (DataParser.parse_data _initialize_parsing_rules
                Sample.empty_cache 100 1000 Sample.sample_nhl_game_data
                "live_game" "nhl_official")) in
  (games ← _extract_value_by_path parsed_nhl "games"; py_len games) = Ok 1
  /\ _extract_value_by_path parsed_nhl "gameDate" = Ok (JStr "2023-10-01")
  /\ _extract_value_by_path parsed_nhl "games[0].awayTeam.abbrev" = Ok (JStr "TOR")
  /\ _extract_value_by_path parsed_nhl "games[0].homeTeam.abbrev" = Ok (JStr "BOS")
  /\ _extract_value_by_path parsed_nhl "games[0].gameState" = Ok (JStr "LIVE").
Proof. vm_compute. repeat split; reflexivity. Qed.

(** ** The further statements at concrete inputs *)
(* --------------------------------------------------------------------- *)

(** An entry stored at time 100 for 30 seconds is gone at time 200. *)
Lemma expired_entry_is_removed :
  snd (JSONCache.get
         (fst (JSONCache.set Inputs.json_cache 100 "poll:espn" Sample.no_games
                 30 None None None)) 200 "poll:espn") = None.
Proof.
  refine (proj1 (get_after_expiry_removes Inputs.json_cache 100 200 "poll:espn"
                   Sample.no_games 30 None None None _)).
  reflexivity.
Defined.

(** Storing the key [a] leaves the answer for the key [b] as it was. *)
Lemma other_key_survives_set :
  snd (JSONCache.get
         (fst (JSONCache.set Inputs.json_cache 100 "a" Sample.no_games 30
                 None None None)) 101 "b")
  = snd (JSONCache.get Inputs.json_cache 101 "b").
Proof.
  apply set_leaves_other_keys.
  - discriminate.
  - intros Heq. cbv in Heq. discriminate Heq.
Defined.

(** With [max_age_seconds] 3600, an entry stored without a TTL at time 100
    is still served at time 3700. *)
Lemma entry_without_ttl_lives_an_hour :
  exists entry,
    snd (CacheManager.get
           (fst (CacheManager.set Sample.empty_cache 100 "k" Sample.no_games
                   None None None None)) 3700 "k") = Some entry
    /\ CacheEntry.ttl_seconds entry = JInt 3600.
Proof.
  assert (3700 <= 100 + inject_Z (CacheManager.max_age_seconds Sample.empty_cache))%Q
    as Hfresh by (unfold Qle; cbn; lia).
  destruct (manager_set_without_ttl_uses_max_age Sample.empty_cache 100 3700
              "k" Sample.no_games None None None None (or_introl eq_refl)
              Hfresh) as (entry & Hget & _ & Httl).
  exists entry. split; [rewrite Hget; reflexivity | exact Httl].
Defined.

(** The fingerprint stored for [nhl_official]/[live_game] is read back for
    the source [nhl] and the domain [official_live_game]. *)
Lemma nhl_official_fingerprint_read_for_nhl :
  SchemaCache.get_fingerprint
    (fst (SchemaCache.set_fingerprint {| SchemaCache.files := ∅ |}
            Sample.fingerprint_before))
    "nhl" "official_live_game"
  = Some Sample.fingerprint_before.
Proof.
  apply (schema_paths_collide _ Sample.fingerprint_before "nhl" "official"
           "live_game"); vm_compute; reflexivity.
Defined.

(** The score of another evening in the same shape reports no drift. *)
Lemma next_score_reports_no_drift :
  exists changes,
    snd (snd (CacheManager.update_schema_fingerprint
                (fst (CacheManager.update_schema_fingerprint Sample.empty_cache
                        100 Sample.game_before "nhl_official" "live_game"))
                160 Inputs.game_later "nhl_official" "live_game"))
    = Some changes
    /\ (Changes.structural_change_score changes == 0)%Q.
Proof.
  assert (extract_paths Sample.game_before "" ([], ∅)
          = extract_paths Inputs.game_later "" ([], ∅)) as Hshape
    by (vm_compute; reflexivity).
  destruct (same_shape_reports_no_drift Sample.empty_cache 100 160
              Sample.game_before Inputs.game_later "nhl_official" "live_game"
              Hshape) as (changes & Hchanges & _ & _ & _ & _ & Hscore).
  exists changes. split; assumption.
Defined.

(** A team list under ['teams'] passes [_validate_team_data] and fails the
    structure validation of [team_info]. *)
Lemma teams_payload_is_rejected :
  DataSourceDiscovery._validate_team_data (JDict Inputs.teams_payload) = Ok true
  /\ DataSourceDiscovery._validate_response_structure
       (JDict Inputs.teams_payload) "team_info" = Ok false.
Proof.
  destruct (teams_format_is_rejected Inputs.teams_payload
              (JList [JDict [("triCode", JStr "TOR")]]) eq_refl eq_refl)
    as [Hsame Hrejected].
  split; [rewrite Hsame; reflexivity | exact Hrejected].
Defined.

(** A player list under ['data'] passes [_validate_player_data] and fails
    the structure validation of [player_stats]. *)
Lemma players_payload_is_rejected :
  DataSourceDiscovery._validate_player_data (JDict Inputs.players_payload)
  = Ok true
  /\ DataSourceDiscovery._validate_response_structure
       (JDict Inputs.players_payload) "player_stats" = Ok false.
Proof.
  destruct (player_data_format_is_rejected Inputs.players_payload
              (JList [JDict [("id", JInt 8478402)]]) eq_refl eq_refl)
    as [Hsame Hrejected].
  split; [rewrite Hsame; reflexivity | exact Hrejected].
Defined.

(** A live-game payload with one complete game validates, and has the shape
    that validation promises. *)
Lemma live_game_fields_have_the_shape :
  exists games,
    dict_lookup "games" Inputs.live_game_fields = Some games
    /\ is_Some (dict_lookup "gameDate" Inputs.live_game_fields).
Proof.
  assert (DataSourceDiscovery._validate_response_structure
            (JDict Inputs.live_game_fields) "live_game" = Ok true) as Hvalid
    by (vm_compute; reflexivity).
  destruct (validated_live_game_shape Inputs.live_game_fields Hvalid)
    as (games & Hgames & Hdate & _).
  exists games. split; assumption.
Defined.

(** The exception of [Sample.scalar_competition] is a [TypeError], on a path
    with index parts. *)
Lemma scalar_competition_raises_type_error :
  TypeError = TypeError
  /\ Exists (fun part => is_index_part part = true)
       (PyStr.split "." "competitions[0].competitors[1].team.id").
Proof.
  apply (extract_value_by_path_raises_type_error_only
           Sample.scalar_competition "competitions[0].competitors[1].team.id"
           TypeError).
  vm_compute. reflexivity.
Defined.

(** The away team's name, written into an empty result and read back. *)
Lemma away_team_name_round_trip :
  _extract_value_by_path
    (JDict [("awayTeam", JDict [("name", JDict [("default", JStr "TOR")])])])
    "awayTeam.name.default"
  = Ok (JStr "TOR").
Proof.
  apply (set_then_extract_by_path (JDict []) "awayTeam.name.default"
           (JStr "TOR")).
  - discriminate.
  - vm_compute. repeat constructor.
  - vm_compute. reflexivity.
Defined.

(** On a day without games the official live-game rules run out of
    recursion depth. *)
Lemma no_games_exhaust_recursion :
  _apply_rules 1000 Sample.no_games _get_nhl_official_game_rules
  = Raise RecursionError.
Proof.
  apply (apply_rules_recurses_without_array 1000 Sample.no_games
           _get_nhl_official_game_rules (Some "games") (JList []));
    vm_compute; reflexivity.
Defined.

(** ESPN standings with one entry are not normalized. *)
Lemma espn_standings_exhaust_recursion :
  _apply_rules 1000 Inputs.espn_standings _get_espn_standings_rules
  = Raise RecursionError.
Proof.
  apply (espn_standings_never_normalize 1000 Inputs.espn_standings
           [JDict [("team", JDict [("displayName", JStr "Boston Bruins");
                                   ("abbreviation", JStr "BOS")])]]).
  vm_compute. reflexivity.
Defined.

(** The game id of [Sample.game_before] is a candidate path. *)
Lemma game_id_is_a_candidate :
  "games[0].id" ∈ _extract_all_key_paths Sample.game_before "".
Proof.
  apply (fingerprint_paths_are_candidates 100 Sample.game_before
           "nhl_official" "live_game").
  apply list_elem_of_In. vm_compute. tauto.
Defined.

(** With all three sources down, the domain serves the payload it holds and
    records the cycle as a successful poll. *)
Lemma outage_serves_held_payload :
  snd (AdaptivePoller.poll_cycle Sample.config Sample.endpoints
         Sample.all_down 103 "live_game" ∅
         (Inputs.holding Sample.sample_nhl_game_data)) = None
  /\ DomainState.last_successful_poll
       (snd (fst (AdaptivePoller.poll_cycle Sample.config Sample.endpoints
                    Sample.all_down 103 "live_game" ∅
                    (Inputs.holding Sample.sample_nhl_game_data)))) = 103%Q.
Proof.
  assert (Sample.endpoints !! "live_game" = Some Sample.three_sources) as Hdom
    by (vm_compute; reflexivity).
  assert (Sample.three_sources <> []) as Hne by discriminate.
  assert (snd (AdaptivePoller.poll_endpoints Sample.config Sample.all_down
                 (DomainState.active_source_index
                    (Inputs.holding Sample.sample_nhl_game_data)) 0
                 Sample.three_sources ∅) = None) as Hnone
    by (vm_compute; reflexivity).
  destruct (failed_cycle_serves_held_payload Sample.config Sample.endpoints
              Sample.all_down 103 "live_game" ∅
              (Inputs.holding Sample.sample_nhl_game_data)
              Sample.three_sources Hdom Hne Hnone eq_refl)
    as (Hnote & _ & _ & _ & Hlast).
  split; assumption.
Defined.

(** A fresh payload handed to the callbacks is held afterwards. *)
Lemma fresh_payload_is_held :
  DomainState.cached_data
    (snd (fst (AdaptivePoller.poll_cycle Sample.config Sample.endpoints
                 Sample.all_up 103 "live_game" ∅ Sample.two_failures)))
  = Sample.no_games
  /\ DomainState.consecutive_failures
       (snd (fst (AdaptivePoller.poll_cycle Sample.config Sample.endpoints
                    Sample.all_up 103 "live_game" ∅ Sample.two_failures)))
     = 0.
Proof.
  assert (snd (AdaptivePoller.poll_cycle Sample.config Sample.endpoints
                 Sample.all_up 103 "live_game" ∅ Sample.two_failures)
          = Some Sample.no_games) as Hnote by (vm_compute; reflexivity).
  destruct (notified_payload_is_held Sample.config Sample.endpoints
              Sample.all_up 103 "live_game" ∅ Sample.two_failures
              Sample.no_games Hnote) as (Hheld & _ & _ & _ & Hfailures).
  split; assumption.
Defined.

(** With its endpoint down, the playoffs domain is polled again after 300
    seconds, not after the 3600 configured for it. *)
Lemma playoffs_interval_through_outage :
  DomainState.current_interval
    (snd (fst (AdaptivePoller.poll_cycle Sample.config Inputs.playoff_endpoints
                 Sample.all_down 103 "playoffs" ∅
                 (DomainState.init "playoffs"))))
  = 300
  /\ PollingConfig.playoffs (Backend2Config.polling Sample.config) = 3600.
Proof.
  split; [|reflexivity].
  apply (interval_ignores_failures Sample.config Inputs.playoff_endpoints
           Sample.all_down 103 "playoffs" ∅ (DomainState.init "playoffs")).
  discriminate.
Defined.

(** From an empty record, one cycle against the three sources stays within
    their limits. *)
Lemma first_cycle_within_limits :
  within_limits Sample.config
    (fst (AdaptivePoller.run_cycles Sample.config Sample.endpoints "live_game"
            [(Sample.all_down, 103%Q)] ∅ (DomainState.init "live_game"))).
Proof.
  apply rate_limits_respected.
  intros source_name source_config _. rewrite lookup_empty. cbn. lia.
Defined.
